(** * Ouedkniss crawler: URL classification, fetch layer and traversal

    A shallow embedding of [src/crawler/url_filter.py], [src/crawler/crawler.py]
    and [src/config/settings.py], and the properties of the specification that
    were checked against it.  The fetch layer of [src/scraper/base_scraper.py],
    [extract_product_id] of [src/scraper/product_scraper.py] and the scraping
    loops of [main.py] are embedded as well; the last part of the file holds
    further properties read off the code.

    Conventions.
    - A Python [str] is a [string]; a character is a code point below 256.  On
      such characters the regular-expression class [\d] is exactly [0-9], and
      [urllib]'s NFKC check of the host accepts every host.
    - A call that may raise returns a [result]; [Raise] carries the exception.
    - [urllib.parse] and [re] are libraries, not code of the repository: the
      definitions of [Module Re] and [Module Urllib] follow CPython 3.10
      ([Lib/urllib/parse.py]) and the semantics of the three patterns used.
    - [int] is the interpreter's: the conversion of a string of more than
      4300 digits raises [ValueError]. *)

From Stdlib Require Import ZArith QArith Ascii String List Lia.
From stdpp Require Import gmap strings list pretty.

Local Open Scope string_scope.

(** [simpl] computes [++] on strings as it does on lists. *)
#[local] Arguments String.append !s1 s2 : simpl nomatch.

(* ===================================================================== *)
(** ** Exceptions *)
(* ===================================================================== *)

Inductive exn : Type :=
| ValueError (msg : string).

Inductive result (A : Type) : Type :=
| Ok (a : A)
| Raise (e : exn).
Arguments Ok {A} a.
Arguments Raise {A} e.

Global Instance result_ret : MRet result := fun A a => Ok a.
Global Instance result_bind : MBind result := fun A B k r =>
  match r with
  | Ok a => k a
  | Raise e => Raise e
  end.

Definition raises {A} (r : result A) : Prop := exists e, r = Raise e.

(* ===================================================================== *)
(** ** Python string operations *)
(* ===================================================================== *)

Module Str.

Definition newline : ascii := "010"%char.
Definition tab : ascii := "009"%char.
Definition carriage_return : ascii := "013"%char.

Definition is_digit (c : ascii) : bool := (("0" <=? c) && (c <=? "9"))%char.
Definition is_lower (c : ascii) : bool := (("a" <=? c) && (c <=? "z"))%char.
Definition is_upper (c : ascii) : bool := (("A" <=? c) && (c <=? "Z"))%char.

(** [c in s] *)
Fixpoint contains (c : ascii) (s : string) : bool :=
  match s with
  | "" => false
  | String a s' => Ascii.eqb a c || contains c s'
  end.

Fixpoint all (p : ascii -> bool) (s : string) : bool :=
  match s with
  | "" => true
  | String a s' => p a && all p s'
  end.

(** keep the characters that satisfy [p] *)
Fixpoint keep (p : ascii -> bool) (s : string) : string :=
  match s with
  | "" => ""
  | String a s' => if p a then String a (keep p s') else keep p s'
  end.

(** the longest prefix whose characters satisfy [p], and the rest *)
Fixpoint span (p : ascii -> bool) (s : string) : string * string :=
  match s with
  | "" => ("", "")
  | String a s' =>
      if p a then let '(h, t) := span p s' in (String a h, t) else ("", s)
  end.

(** [s.startswith(p)] *)
Fixpoint startswith (p s : string) : bool :=
  match p, s with
  | "", _ => true
  | String a p', String b s' => Ascii.eqb a b && startswith p' s'
  | String _ _, "" => false
  end.

(** [s[len(p):]] when [s.startswith(p)] *)
Fixpoint after_prefix (p s : string) : option string :=
  match p, s with
  | "", _ => Some s
  | String a p', String b s' => if Ascii.eqb a b then after_prefix p' s' else None
  | String _ _, "" => None
  end.

(** [s.split(c, 1)] when [c in s]: the text before the first [c] and the
    text after it *)
Fixpoint partition (c : ascii) (s : string) : option (string * string) :=
  match s with
  | "" => None
  | String a s' =>
      if Ascii.eqb a c then Some ("", s')
      else match partition c s' with
           | Some (h, t) => Some (String a h, t)
           | None => None
           end
  end.

(** [s.split(c)] *)
Fixpoint split (c : ascii) (s : string) : list string :=
  match s with
  | "" => [""]
  | String a s' =>
      if Ascii.eqb a c then "" :: split c s'
      else match split c s' with
           | w :: ws => String a w :: ws
           | [] => [String a ""]
           end
  end.

(** [sep.join(l)] *)
Fixpoint join (sep : string) (l : list string) : string :=
  match l with
  | [] => ""
  | x :: l' =>
      match l' with
      | [] => x
      | _ :: _ => x ++ sep ++ join sep l'
      end
  end.

(** [s.count(c)] *)
Fixpoint count (c : ascii) (s : string) : nat :=
  match s with
  | "" => 0
  | String a s' => (if Ascii.eqb a c then 1 else 0) + count c s'
  end.

Definition lower_char (c : ascii) : ascii :=
  if is_upper c then ascii_of_nat (nat_of_ascii c + 32) else c.

(** [s.lower()], on the ASCII letters (it is applied to URL schemes only) *)
Fixpoint lower (s : string) : string :=
  match s with
  | "" => ""
  | String a s' => String (lower_char a) (lower s')
  end.

Definition digit_value (c : ascii) : Z := Z.of_nat (nat_of_ascii c) - 48.

(** the number that a string of decimal digits writes *)
Definition digits_value (s : string) : Z :=
  fold_left (fun acc c => (10 * acc + digit_value c)%Z) (list_ascii_of_string s) 0%Z.

(** [sys.int_info.default_max_str_digits] *)
Definition max_str_digits : Z := 4300.

(** [int(s)] for a non-empty string of decimal digits, the only strings it
    is applied to.  The interpreter limits the conversion: a string of more
    than [max_str_digits] digits, leading zeros counted, raises
    [ValueError]. *)
Definition int_limit_message (s : string) : string :=
  "Exceeds the limit (4300 digits) for integer string conversion: value has "
  ++ pretty (Z.of_nat (String.length s))
  ++ " digits; use sys.set_int_max_str_digits() to increase the limit".

Definition int (s : string) : result Z :=
  if (max_str_digits <? Z.of_nat (String.length s))%Z
  then Raise (ValueError (int_limit_message s))
  else Ok (digits_value s).

(** [(s[:k+1], s[k+1:])] for [k = s.rfind('/')]; without a slash the first
    part is empty and the second is [s] *)
Fixpoint rsplit_slash (s : string) : string * string :=
  match s with
  | "" => ("", "")
  | String a s' =>
      let '(h, t) := rsplit_slash s' in
      if h =? "" then
        if Ascii.eqb a "/" then (String a "", t) else ("", String a t)
      else (String a h, t)
  end.

End Str.

(* ===================================================================== *)
(** ** The regular expressions of the URL filter *)
(* ===================================================================== *)

Module Re.

(** [\d+$] tried at the start of [s].  The greedy run of digits must be
    followed by the end of the string, or by one newline that ends it
    (Python's [$]); a shorter run would stop before a digit, where [$] fails. *)
Definition digits_dollar (s : string) : option string :=
  let '(ds, rest) := Str.span Str.is_digit s in
  if negb (ds =? "") && ((rest =? "") || (rest =? String Str.newline ""))
  then Some ds else None.

(** [-d(\d+)$] tried at the start of [s]; the result is group 1 *)
Definition product_suffix_at (s : string) : option string :=
  match Str.after_prefix "-d" s with
  | Some r => digits_dollar r
  | None => None
  end.

(** [re.search]: the leftmost position where the pattern matches *)
Fixpoint search {A} (pattern_at : string -> option A) (s : string) : option A :=
  match pattern_at s with
  | Some g => Some g
  | None =>
      match s with
      | "" => None
      | String _ s' => search pattern_at s'
      end
  end.

Definition is_slug_char (c : ascii) : bool := Str.is_lower c || Ascii.eqb c "-".

(** [re.compile(r'^/([a-z-]+)/(\d+)$').match(path)]: groups 1 and 2.
    [[a-z-]+] is greedy and must be followed by a slash, which is not in the
    class, so group 1 is the whole run. *)
Definition category_pattern (path : string) : option (string * string) :=
  match Str.after_prefix "/" path with
  | Some r =>
      let '(slug, r1) := Str.span is_slug_char r in
      if slug =? "" then None
      else match Str.after_prefix "/" r1 with
           | Some r2 =>
               match digits_dollar r2 with
               | Some n => Some (slug, n)
               | None => None
               end
           | None => None
           end
  | None => None
  end.

End Re.

(* ===================================================================== *)
(** ** urllib.parse *)
(* ===================================================================== *)

Module Urllib.

Record ParseResult : Type := mkParse {
  scheme : string;
  netloc : string;
  path : string;
  params : string;
  query : string;
  fragment : string
}.

Definition uses_relative : list string :=
  [""; "ftp"; "http"; "gopher"; "nntp"; "imap"; "wais"; "file"; "https";
   "shttp"; "mms"; "prospero"; "rtsp"; "rtspu"; "sftp"; "svn"; "svn+ssh";
   "ws"; "wss"].

Definition uses_netloc : list string :=
  [""; "ftp"; "http"; "gopher"; "nntp"; "telnet"; "imap"; "wais"; "file";
   "mms"; "https"; "shttp"; "snews"; "prospero"; "rtsp"; "rtspu"; "rsync";
   "svn"; "svn+ssh"; "sftp"; "nfs"; "git"; "git+ssh"; "ws"; "wss"].

Definition uses_params : list string :=
  [""; "ftp"; "hdl"; "prospero"; "http"; "imap"; "https"; "shttp"; "rtsp";
   "rtspu"; "sip"; "sips"; "mms"; "sftp"; "tel"].

Definition mem (s : string) (l : list string) : bool := existsb (String.eqb s) l.

Definition scheme_char (c : ascii) : bool :=
  Str.is_lower c || Str.is_upper c || Str.is_digit c
  || Ascii.eqb c "+" || Ascii.eqb c "-" || Ascii.eqb c ".".

(** [_UNSAFE_URL_BYTES_TO_REMOVE] *)
Definition unsafe_byte (c : ascii) : bool :=
  Ascii.eqb c Str.tab || Ascii.eqb c Str.carriage_return || Ascii.eqb c Str.newline.

Definition remove_unsafe (s : string) : string :=
  Str.keep (fun c => negb (unsafe_byte c)) s.

(** the characters that end the host part *)
Definition netloc_delim (c : ascii) : bool :=
  Ascii.eqb c "/" || Ascii.eqb c "?" || Ascii.eqb c "#".

(** [i = url.find(':')], [i > 0] and every character of [url[:i]] is a
    scheme character: the lower-cased scheme and [url[i+1:]] *)
Definition split_scheme (url : string) : option (string * string) :=
  match Str.partition ":" url with
  | Some (pre, rest) =>
      if negb (pre =? "") && Str.all scheme_char pre
      then Some (Str.lower pre, rest) else None
  | None => None
  end.

Definition bad_brackets (host : string) : bool :=
  (Str.contains "[" host && negb (Str.contains "]" host))
  || (Str.contains "]" host && negb (Str.contains "[" host)).

(** [_splitnetloc(url, 2)] after [url[:2] == '//'], with the bracket check *)
Definition split_netloc (url : string) : result (string * string) :=
  match Str.after_prefix "//" url with
  | Some r =>
      let '(host, rest) := Str.span (fun c => negb (netloc_delim c)) r in
      if bad_brackets host then Raise (ValueError "Invalid IPv6 URL")
      else Ok (host, rest)
  | None => Ok ("", url)
  end.

Definition cut (c : ascii) (url : string) : string * string :=
  match Str.partition c url with
  | Some (h, t) => (h, t)
  | None => (url, "")
  end.

(** [urlsplit(url, scheme)]: the five parts; [params] is left empty *)
Definition urlsplit (url default_scheme : string) : result ParseResult :=
  let url := remove_unsafe url in
  let default_scheme := remove_unsafe default_scheme in
  let '(sch, url) :=
    match split_scheme url with
    | Some (s, r) => (s, r)
    | None => (default_scheme, url)
    end in
  '(host, url) ← split_netloc url;
  let '(url, frag) := cut "#" url in
  let '(url, qry) := cut "?" url in
  Ok (mkParse sch host url "" qry frag).

(** [_splitparams(url)], called when [';' in url] *)
Definition splitparams (url : string) : string * string :=
  let '(h, t) := Str.rsplit_slash url in
  match Str.partition ";" t with
  | Some (a, b) => (h ++ a, b)
  | None => (url, "")
  end.

Definition urlparse_with (url default_scheme : string) : result ParseResult :=
  r ← urlsplit url default_scheme;
  if mem (scheme r) uses_params && Str.contains ";" (path r)
  then let '(p, prm) := splitparams (path r) in
       Ok (mkParse (scheme r) (netloc r) p prm (query r) (fragment r))
  else Ok r.

(** [urlparse(url)] *)
Definition urlparse (url : string) : result ParseResult := urlparse_with url "".

Definition urlunsplit (sch host url qry frag : string) : string :=
  let url :=
    if negb (host =? "")
       || (negb (sch =? "") && mem sch uses_netloc && negb (Str.startswith "//" url))
    then "//" ++ host ++ (if negb (url =? "") && negb (Str.startswith "/" url)
                          then "/" ++ url else url)
    else url in
  let url := if negb (sch =? "") then sch ++ ":" ++ url else url in
  let url := if negb (qry =? "") then url ++ "?" ++ qry else url in
  if negb (frag =? "") then url ++ "#" ++ frag else url.

Definition urlunparse (r : ParseResult) : string :=
  let url := if negb (params r =? "") then path r ++ ";" ++ params r else path r in
  urlunsplit (scheme r) (netloc r) url (query r) (fragment r).

(** [segments[1:-1] = filter(None, segments[1:-1])] *)
Definition filter_middle (l : list string) : list string :=
  match l with
  | [] => []
  | x :: r =>
      match r with
      | [] => [x]
      | _ :: _ => (x :: filter (fun s => negb (s =? "")) (removelast r) ++ [List.last r ""])%list
      end
  end.

(** the loop over the segments that resolves [.] and [..] *)
Definition resolve_segments (segments : list string) : list string :=
  fold_left (fun resolved seg =>
               if seg =? ".." then removelast resolved
               else if seg =? "." then resolved
               else (resolved ++ [seg])%list) segments [].

Definition or_slash (s : string) : string := if s =? "" then "/" else s.

(** [urljoin(base, url)] *)
Definition urljoin (base url : string) : result string :=
  if base =? "" then Ok url
  else if url =? "" then Ok base
  else
    b ← urlparse_with base "";
    u ← urlparse_with url (scheme b);
    if negb (scheme u =? scheme b) || negb (mem (scheme u) uses_relative)
    then Ok url
    else if mem (scheme u) uses_netloc && negb (netloc u =? "")
    then Ok (urlunparse u)
    else
      let host := if mem (scheme u) uses_netloc then netloc b else netloc u in
      if (path u =? "") && (params u =? "")
      then Ok (urlunparse (mkParse (scheme u) host (path b) (params b)
                             (if query u =? "" then query b else query u)
                             (fragment u)))
      else
        let base_parts := Str.split "/" (path b) in
        let base_parts :=
          if List.last base_parts "" =? "" then base_parts
          else removelast base_parts in
        let segments :=
          if Str.startswith "/" (path u) then Str.split "/" (path u)
          else filter_middle (base_parts ++ Str.split "/" (path u))%list in
        let resolved := resolve_segments segments in
        let resolved :=
          if mem (List.last segments "") ["."; ".."] then (resolved ++ [""])%list
          else resolved in
        Ok (urlunparse (mkParse (scheme u) host (or_slash (Str.join "/" resolved))
                          (params u) (query u) (fragment u))).

End Urllib.

(* ===================================================================== *)
(** ** url_filter.py *)
(* ===================================================================== *)

Inductive URLType : Type :=
| HOME
| CATEGORY
| SUBCATEGORY
| PRODUCT
| PAGINATION
| INVALID.

Global Instance URLType_eq_dec : EqDecision URLType.
Proof. solve_decision. Defined.

Record URLFilter : Type := mkFilter {
  base_url : string
}.

(** [URLFilter()] *)
Definition default_filter : URLFilter := mkFilter "https://www.ouedkniss.com".

Definition is_valid_domain (url : string) : result bool :=
  parsed ← Urllib.urlparse url;
  Ok (Urllib.mem (Urllib.netloc parsed) ["www.ouedkniss.com"; "ouedkniss.com"; ""]).

Definition normalize_url (self : URLFilter) (url : string) : result string :=
  if Str.startswith "/" url then Urllib.urljoin (base_url self) url
  else Ok url.

Definition classify_url (url : string) : result URLType :=
  valid ← is_valid_domain url;
  if negb valid then Ok INVALID
  else
    parsed ← Urllib.urlparse url;
    let path := Urllib.path parsed in
    if (path =? "/") || (path =? "") then Ok HOME
    else
      match Re.search Re.product_suffix_at path with
      | Some _ => Ok PRODUCT
      | None =>
          match Re.category_pattern path with
          | Some (category_path, page_num) =>
              let depth := Str.count "-" category_path in
              if Nat.eqb depth 0 then Ok CATEGORY else Ok SUBCATEGORY
          | None => Ok INVALID
          end
      end.

Definition extract_category_info (url : string) : result (option (list string * Z)) :=
  parsed ← Urllib.urlparse url;
  match Re.category_pattern (Urllib.path parsed) with
  | None => Ok None
  | Some (category_path, page_num) =>
      page_num ← Str.int page_num;
      Ok (Some (Str.split "-" category_path, page_num))
  end.

Definition extract_product_id (url : string) : result (option string) :=
  parsed ← Urllib.urlparse url;
  Ok (Re.search Re.product_suffix_at (Urllib.path parsed)).

Definition should_crawl (url : string) : result bool :=
  url_type ← classify_url url;
  Ok (bool_decide (url_type ∈ [HOME; CATEGORY; SUBCATEGORY; PRODUCT])).

(* ===================================================================== *)
(** ** settings.py *)
(* ===================================================================== *)

Record ScraperConfig : Type := mkConfig {
  BASE_URL : string;
  USER_AGENT : string;
  REQUEST_TIMEOUT : Z;
  RATE_LIMIT_DELAY : Q;
  MAX_RETRIES : Z;
  CONCURRENT_REQUESTS : Z
}.

(** [ScraperConfig()] *)
Definition default_config : ScraperConfig :=
  mkConfig "https://www.ouedkniss.com"
           "Mozilla/5.0 (Windows NT 10.0; Win64; x64) AppleWebKit/537.36"
           30 1 3 5.

(* ===================================================================== *)
(** ** crawler.py: the world outside and the crawler's state *)
(* ===================================================================== *)

Inductive net_error : Type :=
| TimeoutError      (* [asyncio.TimeoutError] *)
| ClientError.      (* any other [Exception] *)

(** What one attempt [session.get(url)] meets: a response with its status
    and body text, or an exception raised while connecting or reading. *)
Inductive outcome : Type :=
| Response (status : Z) (text : string)
| Raised (e : net_error).

Inductive level : Type := INFO | WARNING | ERROR.

Inductive message : Type :=
| PageNotFound (url : string)
| BadStatus (status : Z) (url : string) (attempt max_retries : Z)
| Timeout (url : string) (attempt : Z)
| ErrorFetching (url : string) (attempt : Z)
| Crawling (url : string)
| FoundProduct (url : string)
| InvalidCategoryURL (url : string)
| FetchingCategories
| FailedHomePage
| FoundCategoryURLs (n : nat).

(** What the crawler does to the outside, in the order it does it.
    [FetchPage url] marks a call [fetch_page(url)]. *)
Inductive event : Type :=
| FetchPage (url : string)
| Sleep (seconds : Q)
| Get (url : string)
| Log (lvl : level) (msg : message)
| Print (text : string).

(** The two sets of [OuedknissCrawler], the number of requests sent so far
    and the events so far, oldest first. *)
Record state : Type := mkState {
  visited_urls : gset string;
  product_urls : gset string;
  requests : nat;
  trace : list event
}.

(** [OuedknissCrawler()] just built *)
Definition fresh : state := mkState ∅ ∅ 0 [].

Definition emit (evs : list event) (st : state) : state :=
  mkState (visited_urls st) (product_urls st) (requests st) (trace st ++ evs)%list.

Definition sent (st : state) : state :=
  mkState (visited_urls st) (product_urls st) (S (requests st)) (trace st).

Definition visit (url : string) (st : state) : state :=
  mkState ({[url]} ∪ visited_urls st) (product_urls st) (requests st) (trace st).

Definition add_product (url : string) (st : state) : state :=
  mkState (visited_urls st) ({[url]} ∪ product_urls st) (requests st) (trace st).

Definition visited (st : state) (url : string) : bool :=
  bool_decide (url ∈ visited_urls st).

(** the URLs on which [fetch_page] was called, oldest first *)
Definition fetched (evs : list event) : list string :=
  omap (fun ev => match ev with FetchPage url => Some url | _ => None end) evs.

(** the URLs requested from the server, one per attempt *)
Definition requested (evs : list event) : list string :=
  omap (fun ev => match ev with Get url => Some url | _ => None end) evs.

(** the pauses taken, in seconds *)
Definition sleeps (evs : list event) : list Q :=
  omap (fun ev => match ev with Sleep d => Some d | _ => None end) evs.

(** a call that has returned, has raised, or is still running *)
Inductive completion (A : Type) : Type :=
| Returns (a : A)
| Throws (e : exn)
| Running.
Arguments Returns {A} a.
Arguments Throws {A} e.
Arguments Running {A}.

(* ===================================================================== *)
(** ** crawler.py: OuedknissCrawler *)
(* ===================================================================== *)

Section Crawler.

(** [Config.scraper], [self.url_filter], what [BeautifulSoup(html,
    'html.parser').find_all('a', href=True)] gives as [href] values, and the
    site: the outcome of the [n]-th request overall when it asks for [url]. *)
Context (config : ScraperConfig) (url_filter : URLFilter)
        (soup_hrefs : string -> list string)
        (server : nat -> string -> outcome).

(** The body of [for attempt in range(MAX_RETRIES)], from [attempt] on, with
    [n] attempts left.  The permit of [self.semaphore] is held throughout and
    changes nothing in the attempts of one call. *)
Fixpoint fetch_attempts (n : nat) (attempt : Z) (url : string) (st : state)
  : option string * state :=
  match n with
  | O => (None, st)
  | S n' =>
      let reply := server (requests st) url in
      let st := sent (emit [Sleep (RATE_LIMIT_DELAY config); Get url] st) in
      let retry (st : state) :=
        let st := if (attempt <? MAX_RETRIES config - 1)%Z
                  then emit [Sleep (inject_Z (2 ^ attempt))] st else st in
        fetch_attempts n' (attempt + 1)%Z url st in
      match reply with
      | Response status text =>
          if (status =? 200)%Z then (Some text, st)
          else if (status =? 404)%Z
          then (None, emit [Log WARNING (PageNotFound url)] st)
          else retry (emit [Log WARNING (BadStatus status url (attempt + 1)
                                           (MAX_RETRIES config))] st)
      | Raised TimeoutError =>
          retry (emit [Log WARNING (Timeout url (attempt + 1))] st)
      | Raised ClientError =>
          retry (emit [Log ERROR (ErrorFetching url (attempt + 1))] st)
      end
  end.

Definition fetch_page (url : string) (st : state) : option string * state :=
  fetch_attempts (Z.to_nat (MAX_RETRIES config)) 0%Z url (emit [FetchPage url] st).

Fixpoint extract_links_from (hrefs : list string) (base : string)
    (links : list string) : result (list string) :=
  match hrefs with
  | [] => Ok links
  | href :: rest =>
      absolute_url ← Urllib.urljoin base href;
      normalized_url ← normalize_url url_filter absolute_url;
      crawl ← should_crawl normalized_url;
      extract_links_from rest base
        (if crawl : bool then (links ++ [normalized_url])%list else links)
  end.

Definition extract_links (html base : string) : result (list string) :=
  extract_links_from (soup_hrefs html) base [].

(** [crawl_page] up to [await self.fetch_page(url)]: [None] when the URL was
    visited before (the call returns the empty list), otherwise the state in
    which the fetch starts. *)
Definition crawl_page_enter (url : string) (st : state) : option state :=
  if visited st url then None
  else Some (emit [Log INFO (Crawling url)] (visit url st)).

(** [crawl_page] after the fetch has given [html] *)
Definition crawl_page_resume (url : string) (html : option string) (st : state)
  : result (list string) * state :=
  match html with
  | None | Some "" => (Ok [], st)
  | Some html =>
      match classify_url url with
      | Raise e => (Raise e, st)
      | Ok url_type =>
          if bool_decide (url_type = PRODUCT)
          then (Ok [], emit [Log INFO (FoundProduct url)] (add_product url st))
          else match extract_links html url with
               | Raise e => (Raise e, st)
               | Ok links => (Ok (filter (fun link => negb (visited st link)) links), st)
               end
      end
  end.

Definition crawl_page (url : string) (st : state) : result (list string) * state :=
  match crawl_page_enter url st with
  | None => (Ok [], st)
  | Some st =>
      let '(html, st) := fetch_page url st in
      crawl_page_resume url html st
  end.

(** [f"{self.config.BASE_URL}/{base_category}/{page}"] *)
Definition page_url (base_category : string) (page : Z) : string :=
  BASE_URL config ++ "/" ++ base_category ++ "/" ++ pretty page.

(** the local variables of [crawl_category] inside its loop *)
Record frame : Type := mkFrame {
  base_category : string;
  page : Z;
  urls_to_visit : list string;
  max_pages : option Z
}.

(** A call of [crawl_category]: not started, at the test of its [while],
    suspended in [crawl_page] on the fetch of [current_url], or over. *)
Inductive task : Type :=
| Start (category_url : string) (max_pages : option Z)
| Loop (f : frame)
| Fetching (f : frame) (current_url : string)
| Return (products : gset string)
| Throw (e : exn).

(** [max_pages is None or page <= max_pages] *)
Definition within (f : frame) : bool :=
  match max_pages f with
  | None => true
  | Some m => (page f <=? m)%Z
  end.

(** the rest of the loop body once [crawl_page] has returned [new_urls] *)
Definition after_page (f : frame) (new_urls : list string) (st : state) : frame :=
  let to_visit :=
    (urls_to_visit f ++ filter (fun u => negb (visited st u)) new_urls)%list in
  let page := (page f + 1)%Z in
  let next_page_url := page_url (base_category f) page in
  let to_visit :=
    if negb (visited st next_page_url) && (1 <? page)%Z
    then if (0 <? size (product_urls st))%nat
         then (to_visit ++ [next_page_url])%list else to_visit
    else to_visit in
  mkFrame (base_category f) page to_visit (max_pages f).

(** One step of a call, from one suspension point (or loop test) to the next.
    - [Start]: the lines before the loop; a URL that is not a category URL
      ends the call with an empty set.
    - [Loop]: the test of the [while], [urls_to_visit.pop(0)] and the start
      of [crawl_page]; a URL visited before completes the iteration at once
      with no new URL, another one is marked visited and its fetch starts.
    - [Fetching]: the fetch, the rest of [crawl_page] and the rest of the
      loop body.
    Nothing of another call runs inside a step; between two steps anything
    may.  In the program the only suspension points are inside [fetch_page],
    so its interleavings are among those of these steps. *)
Definition step (t : task) (st : state) : task * state :=
  match t with
  | Start category_url max_pages =>
      match extract_category_info category_url with
      | Raise e => (Throw e, st)
      | Ok None => (Return ∅, emit [Log ERROR (InvalidCategoryURL category_url)] st)
      | Ok (Some (categories, _)) =>
          let base_category := Str.join "/" categories in
          (Loop (mkFrame base_category 1 [page_url base_category 1] max_pages), st)
      end
  | Loop f =>
      match urls_to_visit f with
      | [] => (Return (product_urls st), st)
      | current_url :: rest =>
          if within f then
            let f := mkFrame (base_category f) (page f) rest (max_pages f) in
            match crawl_page_enter current_url st with
            | None => (Loop (after_page f [] st), st)
            | Some st => (Fetching f current_url, st)
            end
          else (Return (product_urls st), st)
      end
  | Fetching f current_url =>
      let '(html, st) := fetch_page current_url st in
      match crawl_page_resume current_url html st with
      | (Raise e, st) => (Throw e, st)
      | (Ok new_urls, st) => (Loop (after_page f new_urls st), st)
      end
  | Return _ | Throw _ => (t, st)
  end.

Definition finished (t : task) : bool :=
  match t with
  | Return _ | Throw _ => true
  | _ => false
  end.

Fixpoint run (fuel : nat) (t : task) (st : state) : task * state :=
  match fuel with
  | O => (t, st)
  | S fuel' =>
      if finished t then (t, st)
      else let '(t, st) := step t st in run fuel' t st
  end.

Definition completed (t : task) : completion (gset string) :=
  match t with
  | Return products => Returns products
  | Throw e => Throws e
  | _ => Running
  end.

(** [crawl_category(category_url, max_pages)] run alone for at most [fuel]
    steps; [Running] when the call is not over by then (the loop need not
    end: with [max_pages = None] every iteration after a product was found
    enqueues one more page) *)
Definition crawl_category (fuel : nat) (category_url : string)
    (max_pages : option Z) (st : state) : completion (gset string) * state :=
  let '(t, st) := run fuel (Start category_url max_pages) st in
  (completed t, st).

(** [await asyncio.gather] over the tasks: the calls advance one step at a
    time in the order [schedule] names them (an index that names no call, or
    a call that is over, is skipped); the wait ends when every call has
    returned, or at the first exception.  [Running] is the result of a
    schedule that ends before the calls do. *)
Fixpoint gather (schedule : list nat) (tasks : list task) (st : state)
  : completion unit * state :=
  if forallb finished tasks then (Returns tt, st)
  else
    match schedule with
    | [] => (Running, st)
    | i :: schedule' =>
        match tasks !! i with
        | None => gather schedule' tasks st
        | Some t =>
            let '(t, st) := step t st in
            match t with
            | Throw e => (Throws e, st)
            | _ => gather schedule' (<[i := t]> tasks) st
            end
        end
    end.

Fixpoint category_urls_of (links : list string) : result (list string) :=
  match links with
  | [] => Ok []
  | link :: rest =>
      url_type ← classify_url link;
      urls ← category_urls_of rest;
      Ok (if bool_decide (url_type ∈ [CATEGORY; SUBCATEGORY])
          then link :: urls else urls)
  end.

Definition crawl_all_categories (schedule : list nat) (st : state)
  : completion (gset string) * state :=
  let home_url := BASE_URL config in
  let st := emit [Log INFO FetchingCategories] st in
  let '(html, st) := fetch_page home_url st in
  match html with
  | None | Some "" => (Returns ∅, emit [Log ERROR FailedHomePage] st)
  | Some html =>
      let st := emit [Print html] st in
      match extract_links html home_url with
      | Raise e => (Throws e, st)
      | Ok category_links =>
          match category_urls_of category_links with
          | Raise e => (Throws e, st)
          | Ok category_urls =>
              let st := emit [Log INFO (FoundCategoryURLs (length category_urls))] st in
              let tasks := map (fun cat_url => Start cat_url None) (take 3 category_urls) in
              match gather schedule tasks st with
              | (Returns _, st) => (Returns (product_urls st), st)
              | (Throws e, st) => (Throws e, st)
              | (Running, st) => (Running, st)
              end
          end
      end
  end.

End Crawler.

(* ===================================================================== *)
(** ** Notions of the specification *)
(* ===================================================================== *)

(** a cause after which the fetch layer tries again: a status other than 200
    and 404, a timeout, a transport error *)
Definition retryable (reply : outcome) : bool :=
  match reply with
  | Response status _ => negb (status =? 200)%Z && negb (status =? 404)%Z
  | Raised _ => true
  end.

(** the record that [fetch_page] logs for such a reply at [attempt] *)
Definition failure_log (config : ScraperConfig) (url : string) (attempt : Z)
    (reply : outcome) : event :=
  match reply with
  | Response status _ =>
      Log WARNING (BadStatus status url (attempt + 1) (MAX_RETRIES config))
  | Raised TimeoutError => Log WARNING (Timeout url (attempt + 1))
  | Raised ClientError => Log ERROR (ErrorFetching url (attempt + 1))
  end.

(** what the first statement of [crawl_all_categories] obtains for the home
    page *)
Definition home_page (config : ScraperConfig) (server : nat -> string -> outcome)
    (st : state) : option string :=
  (fetch_page config server (BASE_URL config)
     (emit [Log INFO FetchingCategories] st)).1.

(** C4 as the specification states it: the value returned when the home
    page cannot be fetched differs from the value of every run that fetched
    it. *)
Definition home_failure_distinguishable : Prop :=
  forall config url_filter soup_hrefs bad_server good_server schedule st,
    home_page config bad_server st = None ->
    is_Some (home_page config good_server st) ->
    (crawl_all_categories config url_filter soup_hrefs bad_server schedule st).1
    <> (crawl_all_categories config url_filter soup_hrefs good_server schedule st).1.

(** the text of [s] after its last [c]; [s] itself when it has none *)
Fixpoint after_last (c : ascii) (s : string) : string :=
  match s with
  | "" => ""
  | String a s' =>
      if Str.contains c s' then after_last c s'
      else if Ascii.eqb a c then s' else s
  end.

(** the host that a network location names, as [urllib]'s [hostname] reads
    it when the host has no bracket: the text after the last [@] and before
    the first colon, in lower case *)
Definition hostname (netloc : string) : string :=
  Str.lower (Urllib.cut ":" (after_last "@" netloc)).1.

(** a URL of the site: its host is one of the site's two hosts *)
Definition same_site (url : string) : Prop :=
  exists parsed,
    Urllib.urlparse url = Ok parsed
    /\ (hostname (Urllib.netloc parsed) = "www.ouedkniss.com"
        \/ hostname (Urllib.netloc parsed) = "ouedkniss.com").

(** C7 as the specification states it: every URL of the site whose path is
    a slug and a number is classified by the dashes of the slug. *)
Definition category_shape_same_site : Prop :=
  forall url parsed slug n,
    Urllib.urlparse url = Ok parsed ->
    same_site url ->
    Urllib.path parsed = "/" ++ slug ++ "/" ++ n ->
    slug <> "" ->
    Str.all Re.is_slug_char slug = true ->
    n <> "" ->
    Str.all Str.is_digit n = true ->
    (Str.contains "-" slug = false -> classify_url url = Ok CATEGORY)
    /\ (Str.contains "-" slug = true -> classify_url url = Ok SUBCATEGORY).

(** the characters of a category path once its dashes are slashes *)
Definition path_char (c : ascii) : bool := Str.is_lower c || Ascii.eqb c "/".

(** C3 as the specification states it, for a crawl that finds no product at
    all (so that its first page yields none): [fetch_page] is not called on
    page 2 of the category. *)
Definition no_product_no_page_2 : Prop :=
  forall config url_filter soup_hrefs server fuel category_url max_pages st
         categories n products st',
    extract_category_info category_url = Ok (Some (categories, n)) ->
    crawl_category config url_filter soup_hrefs server fuel category_url max_pages st
    = (Returns products, st') ->
    product_urls st' = ∅ ->
    page_url config (Str.join "/" categories) 2 ∉ fetched (trace st').

(** the prefix of every URL of the site *)
Definition site_root : string := "https://www.ouedkniss.com/".

(** a reference without a scheme, to be resolved against a base *)
Definition relative_reference (url : string) : Prop :=
  exists parsed, Urllib.urlparse url = Ok parsed /\ Urllib.scheme parsed = "".

(** an absolute URL on one of the site's hosts *)
Definition absolute_same_site (url : string) : Prop :=
  exists parsed,
    Urllib.urlparse url = Ok parsed
    /\ Urllib.scheme parsed <> ""
    /\ (Urllib.netloc parsed = "www.ouedkniss.com"
        \/ Urllib.netloc parsed = "ouedkniss.com").

(* ===================================================================== *)
(** ** Invariants of the traversal *)
(* ===================================================================== *)

(** the URL that a call of [crawl_category] is fetching, if any *)
Definition in_flight (t : task) : list string :=
  match t with
  | Fetching _ url => [url]
  | _ => []
  end.

(** the URLs fetched so far and those being fetched by one of the calls *)
Definition claimed (tasks : list task) (st : state) : list string :=
  (fetched (trace st) ++ (tasks ≫= in_flight))%list.

(** no URL is claimed twice, and every claimed URL is in the visited set *)
Definition fetch_once_inv (tasks : list task) (st : state) : Prop :=
  NoDup (claimed tasks st) /\ forall url, url ∈ claimed tasks st -> url ∈ visited_urls st.

(** since [st0] the trace has only grown, and not by a call of [fetch_page]
    on [url] *)
Definition no_call_since (st0 : state) (url : string) (st : state) : Prop :=
  exists evs, trace st = (trace st0 ++ evs)%list /\ url ∉ fetched evs.

(** What holds of a call of [crawl_category] on the category [base] between
    two steps: page 2 is not in the frontier and is not being fetched; while
    the page counter is 1 the product set is empty and the only URL in sight
    is page 1. *)
Definition pagination_inv (config : ScraperConfig) (base : string) (st0 : state)
    (t : task) (st : state) : Prop :=
  no_call_since st0 (page_url config base 2) st /\
  match t with
  | Start _ _ => False
  | Loop f =>
      base_category f = base
      /\ (page_url config base 2 ∉ urls_to_visit f)
      /\ (1 <= page f)%Z
      /\ (page f = 1%Z ->
          product_urls st = ∅
          /\ forall u, u ∈ urls_to_visit f -> u = page_url config base 1)
  | Fetching f u =>
      base_category f = base
      /\ (page_url config base 2 ∉ urls_to_visit f)
      /\ (1 <= page f)%Z
      /\ u <> page_url config base 2
      /\ (page f = 1%Z -> product_urls st = ∅ /\ u = page_url config base 1)
  | Return _ | Throw _ => True
  end.

(* ===================================================================== *)
(** ** Sites and pages used as concrete inputs *)
(* ===================================================================== *)

Module Sites.

(** The [href] values of a document made of [<a href='...'>...</a>]
    elements, in document order: on such documents this is what
    [find_all('a', href=True)] yields. *)
Fixpoint anchors (html : string) : list string :=
  match html with
  | "" => []
  | String _ html' =>
      match Str.after_prefix "<a href='" html with
      | Some r =>
          match Str.partition "'" r with
          | Some (href, _) => href :: anchors html'
          | None => anchors html'
          end
      | None => anchors html'
      end
  end.

Definition home : string := "https://www.ouedkniss.com".
Definition informatique_1 : string := "https://www.ouedkniss.com/informatique/1".
Definition informatique_2 : string := "https://www.ouedkniss.com/informatique/2".

(** [n] times the digit 1 *)
Fixpoint ones (n : nat) : string :=
  match n with
  | O => ""
  | S n' => String "1" (ones n')
  end.

(** a page of the category whose number has 4301 digits *)
Definition informatique_far : string :=
  "https://www.ouedkniss.com/informatique/" ++ ones 4301.

(** a site that answers each URL the same way at every request *)
Definition site (pages : list (string * outcome)) : nat -> string -> outcome :=
  fun _ url =>
    match list_find (fun p => p.1 = url) pages with
    | Some (_, (_, reply)) => reply
    | None => Response 404 ""
    end.

(** The home page links to one category, whose first page links back to the
    home page. *)
Definition site_with_home_link : nat -> string -> outcome :=
  site [(home, Response 200 "<a href='/informatique/1'>Informatique</a>");
        (informatique_1, Response 200 "<a href='https://www.ouedkniss.com'>Accueil</a>")].

(** no page at all: every request is answered 404 *)
Definition site_down : nat -> string -> outcome := site [].

(** a home page without links *)
Definition site_without_links : nat -> string -> outcome :=
  site [(home, Response 200 "<h1>Ouedkniss</h1>")].

(** The first page of the category links to the second page and to no
    product; no other page exists. *)
Definition site_with_pagination_link : nat -> string -> outcome :=
  site [(informatique_1, Response 200 "<a href='/informatique/2'>Suivant</a>")].

Definition telephones_1 : string := "https://www.ouedkniss.com/telephones/1".
Definition samsung : string := "https://www.ouedkniss.com/samsung-galaxy-d42".

(** one category with a product, one category without *)
Definition site_with_two_categories : nat -> string -> outcome :=
  site [(telephones_1, Response 200 "<a href='/samsung-galaxy-d42'>Samsung Galaxy</a>");
        (samsung, Response 200 "<h1>Samsung Galaxy</h1>");
        (informatique_1, Response 200 "<p>Aucune annonce</p>")].

(** two failures, then the page *)
Definition flaky_server : nat -> string -> outcome :=
  fun n _ =>
    match n with
    | 0 => Response 503 "Service Unavailable"
    | 1 => Raised TimeoutError
    | _ => Response 200 "<h1>Ouedkniss</h1>"
    end.

(** a server that fails at every request *)
Definition broken_server : nat -> string -> outcome :=
  fun _ _ => Response 500 "Internal Server Error".

(** a page that is missing at the first request and served at the second *)
Definition late_server : nat -> string -> outcome :=
  fun n _ =>
    match n with
    | 0 => Response 404 "Not Found"
    | _ => Response 200 "<h1>Samsung Galaxy</h1>"
    end.

(** The first page of the category has a link whose host opens a bracket
    and never closes it. *)
Definition site_with_bad_link : nat -> string -> outcome :=
  site [(informatique_1, Response 200 "<a href='http://['>Annonce</a>")].

End Sites.

(* ===================================================================== *)
(** ** scraper/base_scraper.py and scraper/product_scraper.py *)
(* ===================================================================== *)

Module BaseScraper.

(** What [BaseScraper.fetch_page] does to the outside: its pauses, its
    requests and its two log records. *)
Inductive scraper_event : Type :=
| Wait (seconds : Q)
| Ask (url : string)
| WarnStatus (status : Z) (url : string)
| ErrorAttempt (url : string) (attempt : Z).

(** the number of requests sent through the session and the events so far *)
Record session : Type := mkSession {
  asked : nat;
  history : list scraper_event
}.

Definition record (evs : list scraper_event) (s : session) : session :=
  mkSession (asked s) (history s ++ evs)%list.

Definition ask (url : string) (s : session) : session :=
  mkSession (S (asked s)) (history s ++ [Ask url])%list.

Definition asks (evs : list scraper_event) : list string :=
  omap (fun ev => match ev with Ask url => Some url | _ => None end) evs.

Definition waits (evs : list scraper_event) : list Q :=
  omap (fun ev => match ev with Wait d => Some d | _ => None end) evs.

Section Fetch.

Context (config : ScraperConfig) (server : nat -> string -> outcome).

(** The body of [for attempt in range(MAX_RETRIES)], from [attempt] on, with
    [n] attempts left.  A status other than 200 is logged and the loop goes
    on; the back-off pause is in the [except] branch only. *)
Fixpoint fetch_attempts (n : nat) (attempt : Z) (url : string) (s : session)
  : option string * session :=
  match n with
  | O => (None, s)
  | S n' =>
      let reply := server (asked s) url in
      let s := ask url (record [Wait (RATE_LIMIT_DELAY config)] s) in
      match reply with
      | Response status text =>
          if (status =? 200)%Z then (Some text, s)
          else fetch_attempts n' (attempt + 1)%Z url (record [WarnStatus status url] s)
      | Raised _ =>
          let s := record [ErrorAttempt url (attempt + 1)] s in
          let s := if (attempt <? MAX_RETRIES config - 1)%Z
                   then record [Wait (inject_Z (2 ^ attempt))] s else s in
          fetch_attempts n' (attempt + 1)%Z url s
      end
  end.

Definition fetch_page (url : string) (s : session) : option string * session :=
  fetch_attempts (Z.to_nat (MAX_RETRIES config)) 0%Z url s.

End Fetch.

End BaseScraper.

Module ProductScraper.

(** [re.search(r'-d(\d+)$', url)]: the whole URL is searched, not its path *)
Definition extract_product_id (url : string) : option string :=
  Re.search Re.product_suffix_at url.

End ProductScraper.

(* ===================================================================== *)
(** ** main.py *)
(* ===================================================================== *)

Module Main.

(** the records that the two loops of [main.py] log *)
Inductive main_log : Type :=
| LimitedTo (n : nat)
| ScrapingProduct (i total : nat) (url : string)
| Progress (i total scraped failed : nat)
| ScrapingCompleted (total scraped failed : nat)
| ScrapingURLs (n : nat)
| Scraping (url : string)
| Scraped (scraped total : nat).

Record tally : Type := mkTally {
  scraped_count : nat;
  failed_count : nat;
  log : list main_log
}.

(** [l[:m]] *)
Definition slice_to (m : Z) (l : list string) : list string :=
  if (0 <=? m)%Z then take (Z.to_nat m) l
  else take (length l - Z.to_nat (- m)) l.

(** [if max_products: product_urls = list(product_urls)[:max_products]];
    [product_urls] is given in the order in which the set is iterated *)
Definition limit (max_products : option Z) (product_urls : list string) : list string :=
  match max_products with
  | None => product_urls
  | Some m => if (m =? 0)%Z then product_urls else slice_to m product_urls
  end.

Section Scrape.

(** [scraper.scrape_product(url)] and [db.insert_product(product)] at the
    [i]-th URL of the loop: the product or [None], and whether the insertion
    succeeded.  Neither call raises. *)
Context {Product : Type}
        (scrape_product : nat -> string -> option Product)
        (insert_product : nat -> Product -> bool).

(** the [for] loop of [crawl_and_scrape] from its [i]-th iteration on *)
Fixpoint scrape_from (i total : nat) (urls : list string) (t : tally) : tally :=
  match urls with
  | [] => t
  | url :: rest =>
      let events := [ScrapingProduct i total url] in
      let '(scraped, failed) :=
        match scrape_product i url with
        | Some product =>
            if insert_product i product
            then (S (scraped_count t), failed_count t)
            else (scraped_count t, S (failed_count t))
        | None => (scraped_count t, S (failed_count t))
        end in
      let events :=
        if (i mod 10 =? 0)%nat
        then (events ++ [Progress i total scraped failed])%list else events in
      scrape_from (S i) total rest (mkTally scraped failed (log t ++ events)%list)
  end.

(** whether [if max_products:] takes the branch *)
Definition limited (max_products : option Z) : bool :=
  match max_products with
  | None => false
  | Some m => negb (m =? 0)%Z
  end.

(** [crawl_and_scrape] from the limit on, once the crawl has returned
    [product_urls], up to the record of completion (the crawl before and the
    query of the database statistics after are not part of it) *)
Definition crawl_and_scrape (max_products : option Z) (product_urls : list string) : tally :=
  let product_urls := limit max_products product_urls in
  let total := length product_urls in
  let start := if limited max_products then [LimitedTo total] else [] in
  let t := scrape_from 1 total product_urls (mkTally 0 0 start) in
  mkTally (scraped_count t) (failed_count t)
          (log t ++ [ScrapingCompleted total (scraped_count t) (failed_count t)])%list.

(** the loop of [scrape_specific_urls] from its [i]-th iteration on; the
    value of [db.insert_product] is not looked at *)
Fixpoint scrape_urls_from (i : nat) (urls : list string) (t : tally) : tally :=
  match urls with
  | [] => t
  | url :: rest =>
      let scraped :=
        match scrape_product i url with
        | Some product => let _ := insert_product i product in S (scraped_count t)
        | None => scraped_count t
        end in
      scrape_urls_from (S i) rest
        (mkTally scraped (failed_count t) (log t ++ [Scraping url])%list)
  end.

Definition scrape_specific_urls (urls : list string) : tally :=
  let t := scrape_urls_from 1 urls (mkTally 0 0 [ScrapingURLs (length urls)]) in
  mkTally (scraped_count t) 0 (log t ++ [Scraped (scraped_count t) (length urls)])%list.

(** the URLs of [urls], numbered from [i], that are scraped and stored *)
Fixpoint stored_from (i : nat) (urls : list string) : list string :=
  match urls with
  | [] => []
  | url :: rest =>
      match scrape_product i url with
      | Some product =>
          if insert_product i product then url :: stored_from (S i) rest
          else stored_from (S i) rest
      | None => stored_from (S i) rest
      end
  end.

End Scrape.

End Main.

(* ===================================================================== *)
(** ** Further notions *)
(* ===================================================================== *)

(** [int] with the value read so far in [acc] *)
Definition value_from (acc : Z) (s : string) : Z :=
  fold_left (fun acc c => (10 * acc + Str.digit_value c)%Z) (list_ascii_of_string s) acc.

(** the replies to the [j] requests for [url] from the [k]-th request on all
    satisfy [p] *)
Fixpoint all_replies (p : outcome -> bool) (server : nat -> string -> outcome)
    (url : string) (k j : nat) : bool :=
  match j with
  | O => true
  | S j' => p (server k url) && all_replies p server url (S k) j'
  end.

(** a reply that is not a response with status 200 *)
Definition not_200 (reply : outcome) : bool :=
  match reply with
  | Response status _ => negb (status =? 200)%Z
  | Raised _ => true
  end.

(** a reply that is a response, whatever its status *)
Definition is_response (reply : outcome) : bool :=
  match reply with
  | Response _ _ => true
  | Raised _ => false
  end.

(** the session in which [BaseScraper.fetch_page] starts its next attempt
    after a reply that is not a 200 *)
Definition next_session (config : ScraperConfig) (attempt : Z) (url : string)
    (reply : outcome) (s : BaseScraper.session) : BaseScraper.session :=
  let s := BaseScraper.ask url (BaseScraper.record [BaseScraper.Wait (RATE_LIMIT_DELAY config)] s) in
  match reply with
  | Response status _ => BaseScraper.record [BaseScraper.WarnStatus status url] s
  | Raised _ =>
      let s := BaseScraper.record [BaseScraper.ErrorAttempt url (attempt + 1)] s in
      if (attempt <? MAX_RETRIES config - 1)%Z
      then BaseScraper.record [BaseScraper.Wait (inject_Z (2 ^ attempt))] s else s
  end.

(** What holds between two steps of the calls of [crawl_category] that
    share a crawler, for the calls of [fetch_page] made since the list of
    fetched URLs was [base] and the visited set was [seen]: the URLs fetched
    since then and those being fetched are all different, are in the visited
    set and were not in [seen]. *)
Definition fetched_since (base : list string) (seen : gset string)
    (tasks : list task) (st : state) : Prop :=
  exists rest,
    fetched (trace st) = (base ++ rest)%list
    /\ seen ⊆ visited_urls st
    /\ NoDup (rest ++ (tasks ≫= in_flight))%list
    /\ forall url, url ∈ (rest ++ (tasks ≫= in_flight))%list ->
         url ∈ visited_urls st /\ url ∉ seen.

(** What [extract_category_info] does on a URL of the category shape: it
    returns the categories and the page number, or the page number has more
    than [max_str_digits] digits and the conversion raises. *)
Definition category_info_or_limit (url : string) : Prop :=
  (exists categories n, extract_category_info url = Ok (Some (categories, n)))
  \/ (raises (extract_category_info url)
      /\ exists parsed slug page_num,
           Urllib.urlparse url = Ok parsed
           /\ Re.category_pattern (Urllib.path parsed) = Some (slug, page_num)
           /\ (Str.max_str_digits < Z.of_nat (String.length page_num))%Z).

(** the call is over: it has returned or raised *)
Definition over {A} (c : completion A) : bool :=
  match c with
  | Running => false
  | _ => true
  end.

(** every URL that a call of [crawl_category] is fetching is in the visited
    set, and so is every product URL *)
Definition sets_inv (tasks : list task) (st : state) : Prop :=
  product_urls st ⊆ visited_urls st
  /\ forall url, url ∈ tasks ≫= in_flight -> url ∈ visited_urls st.

(** [st'] has the two sets of [st] and possibly more; what is new in the
    product set is classified Product *)
Definition grown (st st' : state) : Prop :=
  visited_urls st ⊆ visited_urls st'
  /\ product_urls st ⊆ product_urls st'
  /\ forall url, url ∈ product_urls st' -> url ∉ product_urls st ->
       classify_url url = Ok PRODUCT.

(* ===================================================================== *)
(** * Properties *)
(* ===================================================================== *)

(** ** Strings *)

Module StrFacts.
Import Str.

Lemma append_nil_r s : s ++ "" = s.
Proof. induction s; simpl; congruence. Qed.

Lemma append_assoc (s t u : string) : (s ++ t) ++ u = s ++ t ++ u.
Proof. induction s; simpl; congruence. Qed.

Lemma contains_app c s t : contains c (s ++ t) = contains c s || contains c t.
Proof.
  induction s as [|a s IH]; simpl; [reflexivity|].
  rewrite IH. apply orb_assoc.
Qed.

Lemma contains_single c a : contains c (String a "") = Ascii.eqb a c.
Proof. simpl. apply orb_false_r. Qed.

Lemma all_app p s t : all p (s ++ t) = all p s && all p t.
Proof.
  induction s as [|a s IH]; simpl; [reflexivity|].
  rewrite IH. apply andb_assoc.
Qed.

Lemma all_contains p c s : all p s = true -> p c = false -> contains c s = false.
Proof.
  intros Hall Hc. induction s as [|a s IH]; simpl in *; [reflexivity|].
  apply andb_true_iff in Hall as [Ha Hs].
  rewrite (IH Hs), orb_false_r.
  destruct (Ascii.eqb_spec a c); [congruence | reflexivity].
Qed.

Lemma contains_keep p c s : contains c (keep p s) = true -> contains c s = true.
Proof.
  induction s as [|a s IH]; simpl; [trivial|].
  destruct (p a); simpl; intros H.
  - apply orb_true_iff in H as [H|H]; [now rewrite H | now rewrite IH, orb_true_r].
  - now rewrite IH, orb_true_r.
Qed.

Lemma keep_unchanged p s : all p s = true -> keep p s = s.
Proof.
  induction s as [|a s IH]; simpl; [trivial|].
  intros [Ha Hs]%andb_true_iff. rewrite Ha, IH; trivial.
Qed.

(** [span] cuts the string in two; the first part satisfies [p] and the
    second does not start with a character that does. *)
Lemma span_spec p s h t :
  span p s = (h, t) ->
  s = h ++ t /\ all p h = true /\
  match t with "" => True | String c _ => p c = false end.
Proof.
  revert h t. induction s as [|a s IH]; simpl; intros h t H.
  - inversion H; subst; auto.
  - destruct (p a) eqn:Ha.
    + destruct (span p s) as [h' t'] eqn:Hs. inversion H; subst.
      destruct (IH _ _ eq_refl) as (-> & Hall & Ht).
      simpl. rewrite Ha, Hall. auto.
    + inversion H; subst. simpl. rewrite Ha. auto.
Qed.

Lemma span_app p h t :
  all p h = true ->
  match t with "" => True | String c _ => p c = false end ->
  span p (h ++ t) = (h, t).
Proof.
  intros Hall Ht. induction h as [|a h IH]; simpl in *.
  - destruct t as [|c t]; simpl; [reflexivity | now rewrite Ht].
  - apply andb_true_iff in Hall as [Ha Hh]. rewrite Ha, (IH Hh). reflexivity.
Qed.

Lemma span_all p s : all p s = true -> span p s = (s, "").
Proof.
  intros H. rewrite <- (span_app p s "" H I). now rewrite append_nil_r.
Qed.

Lemma partition_spec c s h t :
  partition c s = Some (h, t) -> s = h ++ String c t /\ contains c h = false.
Proof.
  revert h. induction s as [|a s IH]; simpl; intros h H; [discriminate|].
  destruct (Ascii.eqb_spec a c) as [->|Hne].
  - inversion H; subst. auto.
  - destruct (partition c s) as [[h' t']|]; [|discriminate].
    inversion H; subst. destruct (IH _ eq_refl) as [-> Hc].
    simpl. rewrite Hc, orb_false_r. split; [reflexivity|].
    now apply Ascii.eqb_neq.
Qed.

Lemma after_prefix_spec p s r : after_prefix p s = Some r <-> s = p ++ r.
Proof.
  revert s. induction p as [|a p IH]; intros s; simpl.
  - split; congruence.
  - destruct s as [|b s]; [split; discriminate|].
    destruct (Ascii.eqb_spec a b) as [->|Hne].
    + rewrite IH. split; congruence.
    + split; [discriminate | congruence].
Qed.

Lemma after_prefix_app p r : after_prefix p (p ++ r) = Some r.
Proof. now apply after_prefix_spec. Qed.

Lemma count_contains c s : Nat.eqb (count c s) 0 = negb (contains c s).
Proof.
  induction s as [|a s IH]; simpl; [reflexivity|].
  destruct (Ascii.eqb a c); simpl; [reflexivity | exact IH].
Qed.

Lemma startswith_spec p s : startswith p s = true <-> exists t, s = p ++ t.
Proof.
  revert s. induction p as [|a p IH]; intros s; simpl.
  - split; eauto.
  - destruct s as [|b s]; [split; [discriminate | intros [t Ht]; discriminate]|].
    rewrite andb_true_iff, IH. split.
    + intros [->%Ascii.eqb_eq [t ->]]. eauto.
    + intros [t Ht]. inversion Ht; subst. rewrite Ascii.eqb_refl. eauto.
Qed.

End StrFacts.

(** ** Regular expressions *)

Module ReFacts.
Import Str Re StrFacts.

(** what [\d+$] accepts *)
Lemma digits_dollar_spec s g :
  digits_dollar s = Some g ->
  g <> "" /\ all is_digit g = true /\ (s = g \/ s = g ++ String newline "").
Proof.
  unfold digits_dollar. destruct (span is_digit s) as [ds rest] eqn:Hsp.
  destruct (span_spec _ _ _ _ Hsp) as (-> & Hall & _).
  destruct (ds =? "") eqn:Hds; simpl; [discriminate|].
  apply String.eqb_neq in Hds.
  destruct (rest =? "") eqn:Hr1; simpl.
  - apply String.eqb_eq in Hr1 as ->. intros [= <-]. rewrite append_nil_r. auto.
  - destruct (rest =? String newline "") eqn:Hr2; [|discriminate].
    apply String.eqb_eq in Hr2 as ->. intros [= <-]. auto.
Qed.

Lemma digits_dollar_digits g :
  g <> "" -> all is_digit g = true -> digits_dollar g = Some g.
Proof.
  intros Hne Hall. unfold digits_dollar. rewrite (span_all _ _ Hall).
  apply String.eqb_neq in Hne. rewrite Hne. reflexivity.
Qed.

(** a string with a character that is neither a digit nor a newline is
    refused by [\d+$] *)
Lemma digits_dollar_refuses c s :
  contains c s = true -> is_digit c = false -> c <> newline ->
  digits_dollar s = None.
Proof.
  intros Hc Hd Hn. destruct (digits_dollar s) as [g|] eqn:H; [|reflexivity].
  destruct (digits_dollar_spec _ _ H) as (_ & Hall & [->| ->]).
  - rewrite (all_contains _ _ _ Hall Hd) in Hc. discriminate.
  - rewrite contains_app, (all_contains _ _ _ Hall Hd), contains_single in Hc.
    apply Ascii.eqb_eq in Hc. congruence.
Qed.

Lemma search_here {A} (pat : string -> option A) s g :
  pat s = Some g -> search pat s = Some g.
Proof. intros H. destruct s; simpl; now rewrite H. Qed.

Lemma search_later {A} (pat : string -> option A) a s :
  pat (String a s) = None -> search pat (String a s) = search pat s.
Proof. intros H. simpl. now rewrite H. Qed.

(** [-d\d+$] does not match where a later [-] follows *)
Lemma product_suffix_at_dash a s :
  contains "-" s = true -> product_suffix_at (String a s) = None.
Proof.
  intros Hc. unfold product_suffix_at.
  destruct (after_prefix "-d" (String a s)) as [r|] eqn:Hr; [|reflexivity].
  apply after_prefix_spec in Hr. simpl in Hr. inversion Hr; subst.
  apply (digits_dollar_refuses "-"); [exact Hc | reflexivity | discriminate].
Qed.

(** The search for [-d(\d+)$] in a string that ends with a dash, a [d] and
    digits finds these digits, whatever comes before. *)
Lemma search_product_suffix pre ds :
  ds <> "" -> all is_digit ds = true ->
  search product_suffix_at (pre ++ "-d" ++ ds) = Some ds.
Proof.
  intros Hne Hall. induction pre as [|a pre IH].
  - change ("" ++ "-d" ++ ds) with ("-d" ++ ds).
    apply search_here. unfold product_suffix_at.
    rewrite (after_prefix_app "-d" ds). now apply digits_dollar_digits.
  - change (String a pre ++ "-d" ++ ds) with (String a (pre ++ "-d" ++ ds)).
    rewrite search_later; [exact IH|].
    apply product_suffix_at_dash. rewrite contains_app. simpl. apply orb_true_r.
Qed.

Lemma product_suffix_at_digit a s :
  is_digit a = true -> product_suffix_at (String a s) = None.
Proof.
  intros Ha. unfold product_suffix_at.
  destruct (after_prefix "-d" (String a s)) as [r|] eqn:Hr; [|reflexivity].
  apply after_prefix_spec in Hr. simpl in Hr. inversion Hr; subst. discriminate Ha.
Qed.

Lemma search_digits_none s :
  all is_digit s = true -> search product_suffix_at s = None.
Proof.
  induction s as [|a s IH]; [reflexivity|].
  intros [Ha Hs]%andb_true_iff.
  rewrite search_later; [auto | now apply product_suffix_at_digit].
Qed.

(** no match of [-d\d+$] in a string that ends with a slash and digits *)
Lemma search_slash_digits_none pre n :
  all is_digit n = true ->
  search product_suffix_at (pre ++ "/" ++ n) = None.
Proof.
  intros Hn. induction pre as [|a pre IH].
  - change ("" ++ "/" ++ n) with (String "/" n).
    rewrite search_later; [now apply search_digits_none | reflexivity].
  - change (String a pre ++ "/" ++ n) with (String a (pre ++ "/" ++ n)).
    rewrite search_later; [exact IH|].
    unfold product_suffix_at.
    destruct (after_prefix "-d" (String a (pre ++ "/" ++ n))) as [r|] eqn:Hr;
      [|reflexivity].
    apply after_prefix_spec in Hr. simpl in Hr. inversion Hr as [[Ha Hp]].
    apply (digits_dollar_refuses "/"); [|reflexivity|discriminate].
    destruct pre as [|b pre]; simpl in Hp; inversion Hp; subst.
    rewrite contains_app. simpl. apply orb_true_r.
Qed.

Lemma slash_not_slug_char : is_slug_char "/" = false.
Proof. reflexivity. Qed.

(** the category pattern on [/<slug>/<digits>] *)
Lemma category_pattern_slug slug n :
  slug <> "" -> all is_slug_char slug = true ->
  n <> "" -> all is_digit n = true ->
  category_pattern ("/" ++ slug ++ "/" ++ n) = Some (slug, n).
Proof.
  intros Hs Hslug Hn Hdig. unfold category_pattern.
  rewrite (after_prefix_app "/" (slug ++ "/" ++ n)).
  change ("/" ++ n) with (String "/" n).
  rewrite (span_app is_slug_char slug (String "/" n) Hslug slash_not_slug_char).
  apply String.eqb_neq in Hs. rewrite Hs.
  change (String "/" n) with ("/" ++ n).
  rewrite (after_prefix_app "/" n).
  now rewrite digits_dollar_digits.
Qed.

End ReFacts.

(** ** urllib.parse *)

Module UrllibFacts.
Import Str StrFacts Urllib.

Lemma bad_brackets_contains host :
  bad_brackets host = true -> contains "[" host || contains "]" host = true.
Proof.
  unfold bad_brackets.
  destruct (contains "[" host), (contains "]" host); simpl; auto.
Qed.

(** the host that [split_netloc] refuses has a bracket, and so has the URL *)
Lemma split_netloc_raises url e :
  split_netloc url = Raise e -> contains "[" url || contains "]" url = true.
Proof.
  unfold split_netloc.
  destruct (after_prefix "//" url) as [r|] eqn:Hr; [|discriminate].
  apply after_prefix_spec in Hr as ->.
  destruct (span _ r) as [host rest] eqn:Hsp.
  destruct (span_spec _ _ _ _ Hsp) as (-> & _ & _).
  destruct (bad_brackets host) eqn:Hb; [|discriminate]. intros _.
  apply bad_brackets_contains in Hb.
  rewrite !contains_app. simpl.
  apply orb_true_iff in Hb as [-> | ->]; simpl; rewrite ?orb_true_r; reflexivity.
Qed.

Lemma split_scheme_rest url s r c :
  split_scheme url = Some (s, r) -> contains c r = true -> contains c url = true.
Proof.
  unfold split_scheme.
  destruct (partition ":" url) as [[pre rest]|] eqn:Hp; [|discriminate].
  destruct (_ && _); [|discriminate]. intros [= <- <-] Hc.
  apply partition_spec in Hp as [-> _].
  rewrite contains_app. simpl. rewrite Hc, !orb_true_r. reflexivity.
Qed.

Lemma urlsplit_raises url d e :
  urlsplit url d = Raise e -> contains "[" url || contains "]" url = true.
Proof.
  unfold urlsplit.
  destruct (match split_scheme (remove_unsafe url) with
            | Some (s, r) => (s, r)
            | None => (remove_unsafe d, remove_unsafe url)
            end) as [sch u] eqn:Hs.
  destruct (split_netloc u) as [[host rest]|e'] eqn:Hn; simpl.
  { destruct (cut "#" rest) as [u1 frag]. destruct (cut "?" u1). discriminate. }
  intros _. apply split_netloc_raises in Hn.
  assert (Hsub : forall c, contains c u = true -> contains c url = true).
  { intros c Hc. apply (contains_keep (fun c => negb (unsafe_byte c))).
    fold (remove_unsafe url).
    destruct (split_scheme (remove_unsafe url)) as [[s r]|] eqn:Hsch.
    - inversion Hs; subst. eapply split_scheme_rest; eauto.
    - inversion Hs; subst. exact Hc. }
  apply orb_true_iff in Hn as [H|H]; apply Hsub in H; rewrite H;
    rewrite ?orb_true_r; reflexivity.
Qed.

Lemma urlparse_with_raises url d e :
  urlparse_with url d = Raise e -> urlsplit url d = Raise e.
Proof.
  unfold urlparse_with. destruct (urlsplit url d) as [r|e']; simpl; [|trivial].
  destruct (_ && _); [destruct (splitparams (path r))|]; discriminate.
Qed.

(** [urlparse] raises only on a URL that has a square bracket *)
Lemma urlparse_raises url e :
  urlparse url = Raise e -> contains "[" url || contains "]" url = true.
Proof.
  intros H. apply urlparse_with_raises in H. now apply urlsplit_raises in H.
Qed.

End UrllibFacts.

(** ** urljoin under the site's root *)

Module UrljoinFacts.
Import Str StrFacts Urllib.

Lemma keep_app p s t : keep p (s ++ t) = keep p s ++ keep p t.
Proof.
  induction s as [|a s IH]; simpl; [reflexivity|].
  destruct (p a); simpl; now rewrite IH.
Qed.

Lemma partition_app c h t :
  contains c h = false -> partition c (h ++ String c t) = Some (h, t).
Proof.
  induction h as [|a h IH]; simpl.
  - now rewrite Ascii.eqb_refl.
  - intros [Ha Hh]%orb_false_iff. rewrite Ha, (IH Hh). reflexivity.
Qed.

Lemma startswith_after_prefix p s : startswith p s = false -> after_prefix p s = None.
Proof.
  revert s. induction p as [|a p IH]; intros [|b s]; simpl; try discriminate; auto.
  destruct (Ascii.eqb a b); simpl; auto.
Qed.

(** cutting at [c] keeps a first character that is not [c] *)
Lemma cut_head c a s :
  Ascii.eqb a c = false -> exists h, (cut c (String a s)).1 = String a h.
Proof.
  intros Ha. unfold cut. simpl. rewrite Ha.
  destruct (partition c s) as [[h t]|]; simpl; eauto.
Qed.

Lemma rsplit_slash_head s :
  exists h, (rsplit_slash (String "/" s)).1 = String "/" h.
Proof.
  simpl. destruct (rsplit_slash s) as [h t]. destruct (h =? ""); simpl; eauto.
Qed.

Lemma splitparams_head s : exists h, (splitparams (String "/" s)).1 = String "/" h.
Proof.
  unfold splitparams. destruct (rsplit_slash_head s) as [h Hh].
  destruct (rsplit_slash (String "/" s)) as [h0 t]. simpl in Hh. subst h0.
  destruct (partition ";" t) as [[a b]|]; simpl; eauto.
Qed.

Lemma split_scheme_slash s : split_scheme (String "/" s) = None.
Proof.
  unfold split_scheme. simpl.
  destruct (partition ":" s) as [[h t]|]; reflexivity.
Qed.

(** the parts of a reference that begins with one slash *)
Lemma urlparse_with_absolute_path rest d :
  startswith "/" (remove_unsafe rest) = false ->
  exists p prm q frag,
    urlparse_with (String "/" rest) d
    = Ok (mkParse (remove_unsafe d) "" (String "/" p) prm q frag).
Proof.
  intros Hrest. unfold urlparse_with, urlsplit.
  change (remove_unsafe (String "/" rest)) with (String "/" (remove_unsafe rest)).
  rewrite split_scheme_slash.
  unfold split_netloc.
  change (after_prefix "//" (String "/" (remove_unsafe rest)))
    with (after_prefix "/" (remove_unsafe rest)).
  rewrite (startswith_after_prefix _ _ Hrest). simpl mbind.
  destruct (cut_head "#" "/" (remove_unsafe rest) eq_refl) as [h1 Hh1].
  destruct (cut "#" (String "/" (remove_unsafe rest))) as [u1 frag].
  simpl in Hh1. subst u1.
  destruct (cut_head "?" "/" h1 eq_refl) as [h2 Hh2].
  destruct (cut "?" (String "/" h1)) as [u2 q]. simpl in Hh2. subst u2.
  unfold mbind, result_bind. simpl.
  destruct (_ && _).
  - destruct (splitparams_head h2) as [h3 Hh3].
    destruct (splitparams (String "/" h2)) as [p prm]. simpl in Hh3. subst p.
    eauto.
  - eauto.
Qed.

Lemma startswith_slash s :
  startswith "/" s = true -> exists t, s = String "/" t.
Proof. intros [t ->]%startswith_spec. eauto. Qed.

(** putting parts back together under the site's host *)
Lemma urlunsplit_site url q frag :
  url <> "" ->
  exists rest, urlunsplit "https" "www.ouedkniss.com" url q frag = site_root ++ rest.
Proof.
  intros Hurl. unfold urlunsplit. cbv zeta.
  assert (Hhost : negb ("www.ouedkniss.com" =? "") = true) by reflexivity.
  assert (Hsch : negb ("https" =? "") = true) by reflexivity.
  rewrite Hhost, Hsch, orb_true_l.
  assert (Hpath : exists t,
    (if negb (url =? "") && negb (startswith "/" url) then "/" ++ url else url)
    = String "/" t).
  { apply String.eqb_neq in Hurl. rewrite Hurl.
    destruct (startswith "/" url) eqn:Hs; cbn [negb andb].
    - now apply startswith_slash.
    - eauto. }
  destruct Hpath as [t ->].
  change ("https" ++ ":" ++ "//" ++ "www.ouedkniss.com" ++ String "/" t)
    with (site_root ++ t).
  destruct (negb (q =? "")), (negb (frag =? ""));
    rewrite ?append_assoc; eauto.
Qed.

Lemma urlunparse_site p prm q frag :
  p <> "" ->
  exists rest,
    urlunparse (mkParse "https" "www.ouedkniss.com" p prm q frag) = site_root ++ rest.
Proof.
  intros Hp. unfold urlunparse. apply urlunsplit_site. simpl.
  destruct p as [|a p]; [now elim Hp|].
  now destruct (negb (prm =? "")).
Qed.

Lemma base_parsed :
  urlparse_with "https://www.ouedkniss.com" ""
  = Ok (mkParse "https" "www.ouedkniss.com" "" "" "" "").
Proof. reflexivity. Qed.

(** A reference that begins with one slash is joined to the site's scheme
    and host. *)
Lemma urljoin_absolute_path rest :
  startswith "/" (remove_unsafe rest) = false ->
  exists tail,
    urljoin "https://www.ouedkniss.com" (String "/" rest) = Ok (site_root ++ tail).
Proof.
  intros Hrest. unfold urljoin.
  change ("https://www.ouedkniss.com" =? "") with false.
  change (String "/" rest =? "") with false. cbv iota.
  rewrite base_parsed. unfold mbind at 1, result_bind at 1. simpl scheme.
  destruct (urlparse_with_absolute_path rest "https" Hrest) as (p & prm & q & frag & ->).
  cbn [mbind result_bind scheme netloc path params query fragment].
  change (remove_unsafe "https") with "https".
  change ("https" =? "https") with true.
  change (mem "https" uses_relative) with true.
  change (mem "https" uses_netloc) with true.
  change ("" =? "") with true.
  change (String "/" p =? "") with false.
  cbn [negb orb andb].
  match goal with
  | |- exists tail, Ok (urlunparse (mkParse _ _ ?P _ _ _)) = _ =>
      destruct (urlunparse_site P prm q frag) as [tail Htail]
  end.
  { unfold or_slash. destruct (_ =? "") eqn:H; [discriminate|].
    now apply String.eqb_neq in H. }
  exists tail. now rewrite Htail.
Qed.

(** every URL under the site's root parses with the site's scheme and host *)
Lemma urlparse_site tail :
  exists parsed,
    urlparse (site_root ++ tail) = Ok parsed
    /\ scheme parsed = "https" /\ netloc parsed = "www.ouedkniss.com".
Proof.
  unfold urlparse, urlparse_with, urlsplit, site_root.
  unfold remove_unsafe at 1. rewrite keep_app.
  change (keep _ "https://www.ouedkniss.com/") with ("https" ++ String ":" "//www.ouedkniss.com/").
  rewrite append_assoc.
  unfold split_scheme.
  change (String ":" "//www.ouedkniss.com/" ++ ?x) with (String ":" ("//www.ouedkniss.com/" ++ x)).
  rewrite (partition_app ":" "https" _ eq_refl).
  change (negb ("https" =? "") && all scheme_char "https") with true. cbv iota.
  change (lower "https") with "https".
  unfold split_netloc.
  change ("//www.ouedkniss.com/" ++ ?x) with ("//" ++ "www.ouedkniss.com" ++ String "/" x).
  rewrite after_prefix_app.
  rewrite (span_app (fun c => negb (netloc_delim c)) "www.ouedkniss.com"
             (String "/" _) eq_refl eq_refl).
  change (bad_brackets "www.ouedkniss.com") with false. cbv iota.
  unfold mbind, result_bind.
  destruct (cut "#" _) as [u1 frag]. destruct (cut "?" u1) as [u2 q].
  cbn [scheme netloc path params query fragment].
  match goal with |- context [if ?b then _ else _] => destruct b end;
    [destruct (splitparams u2)|]; eauto.
Qed.
End UrljoinFacts.

(** ** The URL classifier *)

Lemma path_with_dash_not_home (p : string) :
  Str.contains "-" p = true -> (p =? "/") || (p =? "") = false.
Proof.
  intros H. destruct (String.eqb_spec p "/") as [->|]; [discriminate H|].
  destruct (String.eqb_spec p "") as [->|]; [discriminate H | reflexivity].
Qed.

Lemma is_valid_domain_parsed url parsed :
  Urllib.urlparse url = Ok parsed ->
  is_valid_domain url =
  Ok (Urllib.mem (Urllib.netloc parsed) ["www.ouedkniss.com"; "ouedkniss.com"; ""]).
Proof. intros H. unfold is_valid_domain. now rewrite H. Qed.

(** C1 (amended): the category pattern wants the page number as a second path
    segment.  [https://www.ouedkniss.com/informatique/3] gives the pair
    ([informatique], 3) and the type Category; the dash form
    [https://www.ouedkniss.com/informatique-3] of the scenario fits no
    pattern: [extract_category_info] returns nothing and [classify_url]
    returns Invalid. *)
Theorem scenario_A_page_segment :
  extract_category_info "https://www.ouedkniss.com/informatique/3"
    = Ok (Some (["informatique"], 3%Z))
  /\ classify_url "https://www.ouedkniss.com/informatique/3" = Ok CATEGORY
  /\ extract_category_info "https://www.ouedkniss.com/informatique-3" = Ok None
  /\ classify_url "https://www.ouedkniss.com/informatique-3" = Ok INVALID.
Proof. repeat split; vm_compute; reflexivity. Qed.

(** C1 as stated fails: on [https://www.ouedkniss.com/informatique-3] the
    code gives neither the pair nor Category. *)
Lemma scenario_A_dash_form_refuted :
  ~ (extract_category_info "https://www.ouedkniss.com/informatique-3"
       = Ok (Some (["informatique"], 3%Z))
     /\ classify_url "https://www.ouedkniss.com/informatique-3" = Ok CATEGORY).
Proof. intros [H _]. vm_compute in H. discriminate H. Qed.

(** C6 (amended): on a URL of the site's hosts whose path ends with a dash,
    the letter d and one or more digits, [classify_url] returns Product and
    [extract_product_id] returns the digits; the scenario URL
    [https://www.ouedkniss.com/ordinateur-portable-hp-d12345678] is one such,
    with id 12345678.  (A path of the category shape never ends so.) *)
Theorem product_suffix_on_site url parsed pre ds :
  Urllib.urlparse url = Ok parsed ->
  is_valid_domain url = Ok true ->
  Urllib.path parsed = pre ++ "-d" ++ ds ->
  ds <> "" ->
  Str.all Str.is_digit ds = true ->
  classify_url url = Ok PRODUCT /\ extract_product_id url = Ok (Some ds).
Proof.
  intros Hparse Hvalid Hpath Hne Hdig.
  pose proof (ReFacts.search_product_suffix pre ds Hne Hdig) as Hsearch.
  split.
  - unfold classify_url. rewrite Hvalid. simpl. rewrite Hparse. simpl.
    rewrite path_with_dash_not_home.
    + now rewrite Hpath, Hsearch.
    + rewrite Hpath, StrFacts.contains_app. simpl. apply orb_true_r.
  - unfold extract_product_id. rewrite Hparse. simpl. now rewrite Hpath, Hsearch.
Qed.

Lemma product_suffix_on_site_witness :
  classify_url "https://www.ouedkniss.com/ordinateur-portable-hp-d12345678" = Ok PRODUCT
  /\ extract_product_id "https://www.ouedkniss.com/ordinateur-portable-hp-d12345678"
     = Ok (Some "12345678").
Proof.
  apply (product_suffix_on_site
           "https://www.ouedkniss.com/ordinateur-portable-hp-d12345678"
           (Urllib.mkParse "https" "www.ouedkniss.com"
              "/ordinateur-portable-hp-d12345678" "" "" "")
           "/ordinateur-portable-hp" "12345678");
    [reflexivity | reflexivity | reflexivity | discriminate | reflexivity].
Defined.

(** C6 as stated fails: the host is checked first, so a URL of another host
    is Invalid even though its path ends with [-d] and digits. *)
Lemma product_suffix_off_site_refuted :
  ~ (forall url parsed pre ds,
       Urllib.urlparse url = Ok parsed ->
       Urllib.path parsed = pre ++ "-d" ++ ds ->
       ds <> "" ->
       Str.all Str.is_digit ds = true ->
       classify_url url = Ok PRODUCT).
Proof.
  intros H.
  specialize (H "https://www.example.com/ordinateur-portable-hp-d12345678"
                (Urllib.mkParse "https" "www.example.com"
                   "/ordinateur-portable-hp-d12345678" "" "" "")
                "/ordinateur-portable-hp" "12345678"
                eq_refl eq_refl ltac:(discriminate) eq_refl).
  vm_compute in H. discriminate H.
Qed.




(** C8 (amended): on every input without a square bracket [classify_url]
    returns a type and raises nothing; the type is Invalid when the host is
    not one of the site's, and when the path is neither the home path nor a
    product path nor of the category shape.  ([urlparse] raises [ValueError]
    on a host with an unmatched bracket, and [classify_url] lets it
    through.) *)
Theorem classify_without_brackets url :
  Str.contains "[" url = false ->
  Str.contains "]" url = false ->
  exists parsed url_type,
    Urllib.urlparse url = Ok parsed
    /\ classify_url url = Ok url_type
    /\ (Urllib.mem (Urllib.netloc parsed) ["www.ouedkniss.com"; "ouedkniss.com"; ""]
        = false -> url_type = INVALID)
    /\ ((Urllib.path parsed =? "/") || (Urllib.path parsed =? "") = false ->
        Re.search Re.product_suffix_at (Urllib.path parsed) = None ->
        Re.category_pattern (Urllib.path parsed) = None ->
        url_type = INVALID).
Proof.
  intros Hopen Hclose.
  destruct (Urllib.urlparse url) as [parsed|e] eqn:Hparse.
  - exists parsed. unfold classify_url.
    rewrite (is_valid_domain_parsed _ _ Hparse). cbn [mbind result_bind].
    destruct (Urllib.mem (Urllib.netloc parsed) _) eqn:Hhost; cbn [negb];
      [|eexists; repeat split; reflexivity].
    rewrite Hparse. cbn [mbind result_bind].
    destruct (_ || _) eqn:Hhome;
      [eexists; repeat split; [discriminate | discriminate]|].
    destruct (Re.search _ _) eqn:Hsearch;
      [eexists; repeat split; [discriminate | discriminate]|].
    destruct (Re.category_pattern _) as [[category_path page_num]|] eqn:Hpattern;
      [|eexists; repeat split; reflexivity].
    destruct (Nat.eqb _ _); eexists; repeat split; discriminate.
  - apply UrllibFacts.urlparse_raises in Hparse.
    rewrite Hopen, Hclose in Hparse. discriminate Hparse.
Qed.

Lemma classify_without_brackets_witness :
  classify_url "https://www.example.com/informatique/1" = Ok INVALID.
Proof.
  destruct (classify_without_brackets "https://www.example.com/informatique/1"
              eq_refl eq_refl)
    as (parsed & url_type & Hparse & Hclass & Hhost & _).
  rewrite Hclass. f_equal. apply Hhost.
  vm_compute in Hparse. injection Hparse as <-. reflexivity.
Defined.

(** C8 as stated fails: [classify_url] raises on [http://[]. *)
Lemma classify_raises_refuted :
  ~ (forall url, exists url_type, classify_url url = Ok url_type).
Proof.
  intros H. destruct (H "http://[") as [url_type Ht].
  vm_compute in Ht. discriminate Ht.
Qed.

(** ** The fetch layer *)

Section FetchFacts.

Context (config : ScraperConfig) (server : nat -> string -> outcome).

Lemma fetched_app evs1 evs2 : fetched (evs1 ++ evs2) = (fetched evs1 ++ fetched evs2)%list.
Proof. apply omap_app. Qed.

Lemma requested_app evs1 evs2 :
  requested (evs1 ++ evs2) = (requested evs1 ++ requested evs2)%list.
Proof. apply omap_app. Qed.

Lemma sleeps_app evs1 evs2 : sleeps (evs1 ++ evs2) = (sleeps evs1 ++ sleeps evs2)%list.
Proof. apply omap_app. Qed.

(** What a run of attempts changes: it sends at most [n] requests, all for
    [url], calls no [fetch_page] and leaves the two sets alone. *)
Lemma fetch_attempts_frame n attempt url st :
  exists evs,
    let st' := (fetch_attempts config server n attempt url st).2 in
    trace st' = (trace st ++ evs)%list
    /\ visited_urls st' = visited_urls st
    /\ product_urls st' = product_urls st
    /\ requests st' = requests st + length (requested evs)
    /\ fetched evs = []
    /\ length (requested evs) <= n.
Proof.
  revert attempt st. induction n as [|n IH]; intros attempt st.
  { exists []. simpl. rewrite app_nil_r. repeat split; lia. }
  assert (Hretry : forall ev,
    fetched [ev] = [] -> requested [ev] = [] ->
    exists evs,
      let st' := (fetch_attempts config server n (attempt + 1)
                    url
                    (if (attempt <? MAX_RETRIES config - 1)%Z
                     then emit [Sleep (inject_Z (2 ^ attempt))]
                            (emit [ev] (sent (emit [Sleep (RATE_LIMIT_DELAY config); Get url] st)))
                     else emit [ev] (sent (emit [Sleep (RATE_LIMIT_DELAY config); Get url] st)))).2 in
      trace st' = (trace st ++ evs)%list
      /\ visited_urls st' = visited_urls st
      /\ product_urls st' = product_urls st
      /\ requests st' = requests st + length (requested evs)
      /\ fetched evs = []
      /\ length (requested evs) <= S n).
  { intros ev Hf Hr.
    destruct (attempt <? MAX_RETRIES config - 1)%Z.
    - destruct (IH (attempt + 1)%Z
                  (emit [Sleep (inject_Z (2 ^ attempt))]
                     (emit [ev] (sent (emit [Sleep (RATE_LIMIT_DELAY config); Get url] st)))))
        as (evs & Ht & Hv & Hp & Hq & Hfe & Hle).
      exists ([Sleep (RATE_LIMIT_DELAY config); Get url] ++ [ev]
              ++ [Sleep (inject_Z (2 ^ attempt))] ++ evs)%list.
      cbv zeta in *. rewrite Ht, Hv, Hp, Hq. simpl trace. simpl requests.
      rewrite !fetched_app, !requested_app, Hf, Hr, Hfe, <- !app_assoc.
      simpl. repeat split; lia.
    - destruct (IH (attempt + 1)%Z
                  (emit [ev] (sent (emit [Sleep (RATE_LIMIT_DELAY config); Get url] st))))
        as (evs & Ht & Hv & Hp & Hq & Hfe & Hle).
      exists ([Sleep (RATE_LIMIT_DELAY config); Get url] ++ [ev] ++ evs)%list.
      cbv zeta in *. rewrite Ht, Hv, Hp, Hq. simpl trace. simpl requests.
      rewrite !fetched_app, !requested_app, Hf, Hr, Hfe, <- !app_assoc.
      simpl. repeat split; lia. }
  simpl fetch_attempts.
  destruct (server (requests st) url) as [status text|[]].
  - destruct (status =? 200)%Z.
    + exists [Sleep (RATE_LIMIT_DELAY config); Get url]. simpl. repeat split; lia.
    + destruct (status =? 404)%Z.
      * exists [Sleep (RATE_LIMIT_DELAY config); Get url; Log WARNING (PageNotFound url)].
        simpl. rewrite <- app_assoc. simpl. repeat split; lia.
      * apply Hretry; reflexivity.
  - apply Hretry; reflexivity.
  - apply Hretry; reflexivity.
Qed.

(** [fetch_page] is one call on [url] followed by at most [MAX_RETRIES]
    requests. *)
Lemma fetch_page_frame url st :
  exists evs,
    let st' := (fetch_page config server url st).2 in
    trace st' = (trace st ++ FetchPage url :: evs)%list
    /\ visited_urls st' = visited_urls st
    /\ product_urls st' = product_urls st
    /\ fetched evs = []
    /\ length (requested evs) <= Z.to_nat (MAX_RETRIES config).
Proof.
  unfold fetch_page.
  destruct (fetch_attempts_frame (Z.to_nat (MAX_RETRIES config)) 0 url
              (emit [FetchPage url] st)) as (evs & Ht & Hv & Hp & _ & Hf & Hle).
  exists evs. cbv zeta in *. rewrite Ht, Hv, Hp. simpl.
  rewrite <- app_assoc. auto.
Qed.

(** a retryable reply costs one attempt; a backoff of [2 ** attempt]
    follows unless the attempt was the last one *)
Lemma fetch_attempts_retry n attempt url st reply :
  retryable reply = true ->
  server (requests st) url = reply ->
  fetch_attempts config server (S n) attempt url st
  = fetch_attempts config server n (attempt + 1) url
      (let st := emit [failure_log config url attempt reply]
                   (sent (emit [Sleep (RATE_LIMIT_DELAY config); Get url] st)) in
       if (attempt <? MAX_RETRIES config - 1)%Z
       then emit [Sleep (inject_Z (2 ^ attempt))] st else st).
Proof.
  intros Hre Hsrv. simpl. rewrite Hsrv.
  destruct reply as [status body|[]]; simpl in *; try reflexivity.
  apply andb_true_iff in Hre as [H200%negb_true_iff H404%negb_true_iff].
  now rewrite H200, H404.
Qed.

(** a page text comes from a response of the site with status 200 *)
Lemma fetch_attempts_text n attempt url st text :
  (fetch_attempts config server n attempt url st).1 = Some text ->
  exists k, server k url = Response 200 text.
Proof.
  revert attempt st. induction n as [|n IH]; intros attempt st; simpl; [discriminate|].
  destruct (server (requests st) url) as [status body|[]] eqn:Hreply; eauto.
  destruct (status =? 200)%Z eqn:H200.
  - simpl. intros [= ->]. apply Z.eqb_eq in H200 as ->. eauto.
  - destruct (status =? 404)%Z; [discriminate | eauto].
Qed.

Lemma fetch_page_text url st text :
  (fetch_page config server url st).1 = Some text ->
  exists k, server k url = Response 200 text.
Proof. apply fetch_attempts_text. Qed.

End FetchFacts.

(** C5: with the default [MAX_RETRIES] of 3, [fetch_page] sends at most 3
    requests for the URL; a 404 at the first attempt ends the call with no
    content, one request and no backoff; two retryable failures followed by
    a 200 give the page content after three requests, with a backoff of
    2^0 = 1 after the first failure and 2^1 = 2 after the second; three
    retryable failures give no content, with the same two backoffs and none
    after the third attempt, which is the last.  Each attempt is preceded
    by the rate-limit delay. *)
Theorem fetch_page_retry_policy config server url st :
  MAX_RETRIES config = 3%Z ->
  (exists evs,
     trace (fetch_page config server url st).2 = (trace st ++ evs)%list
     /\ length (requested evs) <= 3)
  /\ (forall text,
        server (requests st) url = Response 404 text ->
        exists evs,
          fetch_page config server url st
          = (None, mkState (visited_urls st) (product_urls st)
                           (1 + requests st) (trace st ++ evs))
          /\ requested evs = [url]
          /\ sleeps evs = [RATE_LIMIT_DELAY config])
  /\ (forall first second text,
        retryable first = true ->
        retryable second = true ->
        server (requests st) url = first ->
        server (1 + requests st) url = second ->
        server (2 + requests st) url = Response 200 text ->
        exists evs,
          fetch_page config server url st
          = (Some text, mkState (visited_urls st) (product_urls st)
                                (3 + requests st) (trace st ++ evs))
          /\ requested evs = [url; url; url]
          /\ sleeps evs = [RATE_LIMIT_DELAY config; inject_Z (2 ^ 0);
                           RATE_LIMIT_DELAY config; inject_Z (2 ^ 1);
                           RATE_LIMIT_DELAY config])
  /\ (forall first second third,
        retryable first = true ->
        retryable second = true ->
        retryable third = true ->
        server (requests st) url = first ->
        server (1 + requests st) url = second ->
        server (2 + requests st) url = third ->
        exists evs,
          fetch_page config server url st
          = (None, mkState (visited_urls st) (product_urls st)
                           (3 + requests st) (trace st ++ evs))
          /\ requested evs = [url; url; url]
          /\ sleeps evs = [RATE_LIMIT_DELAY config; inject_Z (2 ^ 0);
                           RATE_LIMIT_DELAY config; inject_Z (2 ^ 1);
                           RATE_LIMIT_DELAY config]).
Proof.
  intros Hmax. split; [|split; [|split]].
  - destruct (fetch_page_frame config server url st) as (evs & Ht & _ & _ & _ & Hle).
    exists (FetchPage url :: evs). split; [exact Ht|].
    rewrite Hmax in Hle. simpl in *. lia.
  - intros text H404.
    destruct st as [vis prod req tr]. cbn [requests visited_urls product_urls trace] in *.
    unfold fetch_page. rewrite Hmax. change (Z.to_nat 3) with 3%nat.
    cbn [fetch_attempts].
    cbv [emit sent requests visited_urls product_urls trace].
    rewrite H404. cbn [Z.eqb Pos.eqb].
    cbv [emit sent requests visited_urls product_urls trace].
    eexists. split.
    + rewrite <- !app_assoc. reflexivity.
    + split; reflexivity.
  - intros first second text Hfirst Hsecond H1 H2 H3.
    destruct st as [vis prod req tr]. cbn [requests visited_urls product_urls trace] in *.
    unfold fetch_page. rewrite Hmax. change (Z.to_nat 3) with 3%nat.
    cbv [emit sent requests visited_urls product_urls trace].
    erewrite (fetch_attempts_retry config server 2 0 url _ first Hfirst); [|exact H1].
    rewrite Hmax. change (0 <? 3 - 1)%Z with true.
    cbv [emit sent requests visited_urls product_urls trace].
    erewrite (fetch_attempts_retry config server 1 (0 + 1) url _ second Hsecond);
      [|exact H2].
    rewrite Hmax. change (0 + 1 <? 3 - 1)%Z with true.
    cbv [emit sent requests visited_urls product_urls trace].
    cbn [fetch_attempts].
    cbv [emit sent requests visited_urls product_urls trace].
    cbn [Nat.add] in H3. rewrite H3. cbn [Z.eqb Pos.eqb].
    eexists. split.
    + rewrite <- !app_assoc. reflexivity.
    + destruct first as [? ?|[]], second as [? ?|[]]; split; reflexivity.
  - intros first second third Hfirst Hsecond Hthird H1 H2 H3.
    destruct st as [vis prod req tr]. cbn [requests visited_urls product_urls trace] in *.
    unfold fetch_page. rewrite Hmax. change (Z.to_nat 3) with 3%nat.
    cbv [emit sent requests visited_urls product_urls trace].
    erewrite (fetch_attempts_retry config server 2 0 url _ first Hfirst); [|exact H1].
    rewrite Hmax. change (0 <? 3 - 1)%Z with true.
    cbv [emit sent requests visited_urls product_urls trace].
    erewrite (fetch_attempts_retry config server 1 (0 + 1) url _ second Hsecond);
      [|exact H2].
    rewrite Hmax. change (0 + 1 <? 3 - 1)%Z with true.
    cbv [emit sent requests visited_urls product_urls trace].
    erewrite (fetch_attempts_retry config server 0 (0 + 1 + 1) url _ third Hthird);
      [|exact H3].
    rewrite Hmax. change (0 + 1 + 1 <? 3 - 1)%Z with false.
    cbn [fetch_attempts].
    cbv [emit sent requests visited_urls product_urls trace].
    eexists. split.
    + rewrite <- !app_assoc. reflexivity.
    + destruct first as [? ?|[]], second as [? ?|[]], third as [? ?|[]];
        split; reflexivity.
Qed.

Lemma fetch_page_retry_policy_witness :
  (exists evs,
     fetch_page default_config Sites.site_down Sites.home fresh
     = (None, mkState ∅ ∅ 1 ([] ++ evs))
     /\ requested evs = [Sites.home]
     /\ sleeps evs = [1%Q])
  /\ (exists evs,
        fetch_page default_config Sites.flaky_server Sites.home fresh
        = (Some "<h1>Ouedkniss</h1>", mkState ∅ ∅ 3 ([] ++ evs))
        /\ requested evs = [Sites.home; Sites.home; Sites.home]
        /\ sleeps evs = [1%Q; inject_Z (2 ^ 0); 1%Q; inject_Z (2 ^ 1); 1%Q])
  /\ (exists evs,
        fetch_page default_config Sites.broken_server Sites.home fresh
        = (None, mkState ∅ ∅ 3 ([] ++ evs))
        /\ requested evs = [Sites.home; Sites.home; Sites.home]
        /\ sleeps evs = [1%Q; inject_Z (2 ^ 0); 1%Q; inject_Z (2 ^ 1); 1%Q]).
Proof.
  split; [|split].
  - exact (proj1 (proj2 (fetch_page_retry_policy default_config Sites.site_down
                           Sites.home fresh eq_refl)) "" eq_refl).
  - exact (proj1 (proj2 (proj2 (fetch_page_retry_policy default_config
                                  Sites.flaky_server Sites.home fresh eq_refl)))
             (Response 503 "Service Unavailable") (Raised TimeoutError)
             "<h1>Ouedkniss</h1>" eq_refl eq_refl eq_refl eq_refl eq_refl).
  - exact (proj2 (proj2 (proj2 (fetch_page_retry_policy default_config
                                  Sites.broken_server Sites.home fresh eq_refl)))
             (Response 500 "Internal Server Error")
             (Response 500 "Internal Server Error")
             (Response 500 "Internal Server Error")
             eq_refl eq_refl eq_refl eq_refl eq_refl eq_refl).
Defined.

(** ** The traversal *)

(** C10: [crawl_page] on a URL that is in the visited set returns the empty
    list and leaves the state as it was: no call of [fetch_page], no request,
    and the visited set and the product set unchanged. *)
Theorem crawl_page_visited config url_filter soup_hrefs server url st :
  url ∈ visited_urls st ->
  crawl_page config url_filter soup_hrefs server url st = (Ok [], st).
Proof.
  intros Hin. unfold crawl_page, crawl_page_enter, visited.
  now rewrite bool_decide_eq_true_2.
Qed.

Lemma crawl_page_visited_witness :
  crawl_page default_config default_filter Sites.anchors Sites.site_with_home_link
    Sites.home (visit Sites.home fresh)
  = (Ok [], visit Sites.home fresh).
Proof.
  apply crawl_page_visited. unfold visit, fresh. simpl.
  apply elem_of_union_l, elem_of_singleton. reflexivity.
Defined.

(** One iteration of the loop of [crawl_category] is a call of [crawl_page]
    on the first URL of the frontier followed by the rest of the body: in
    one step when the URL was visited before, in two steps (before and after
    the fetch) otherwise. *)
Lemma iteration_calls_crawl_page config url_filter soup_hrefs server f u rest st :
  urls_to_visit f = u :: rest ->
  within f = true ->
  let f' := mkFrame (base_category f) (page f) rest (max_pages f) in
  let step := step config url_filter soup_hrefs server in
  (if visited st u then step (Loop f) st
   else let '(t, st1) := step (Loop f) st in step t st1)
  = match crawl_page config url_filter soup_hrefs server u st with
    | (Ok new_urls, st') => (Loop (after_page config f' new_urls st'), st')
    | (Raise e, st') => (Throw e, st')
    end.
Proof.
  intros Hq Hwithin. cbv zeta. unfold crawl_page. cbn [step].
  rewrite Hq, Hwithin. unfold crawl_page_enter.
  destruct (visited st u); [reflexivity|]. cbn [step].
  destruct (fetch_page config server u _) as [html st1].
  now destruct (crawl_page_resume url_filter soup_hrefs u html st1) as [[new_urls|e] st2].
Qed.

(** The continuation rule looks at the product set of the whole session.
    After a category that found a product, the crawl of a category whose
    first page has no link still asks for its page 2. *)
Lemma page_2_requested_after_other_category :
  let crawl := crawl_category default_config default_filter Sites.anchors
                 Sites.site_with_two_categories 10 in
  let st1 := (crawl Sites.telephones_1 (Some 2%Z) fresh).2 in
  let st2 := (crawl Sites.informatique_1 (Some 2%Z) st1).2 in
  elements (product_urls st1) = [Sites.samsung]
  /\ elements (product_urls st2) = [Sites.samsung]
  /\ fetched (trace st2)
     = [Sites.telephones_1; Sites.samsung; Sites.informatique_1; Sites.informatique_2].
Proof. vm_compute. repeat split; reflexivity. Qed.

(** C4 (amended): when the fetch of the home page fails,
    [crawl_all_categories] stops there: it has called [fetch_page] once, on
    the home page, it logs the error "Failed to fetch home page", starts no
    category, leaves the visited set and the product set as they were, and
    returns an empty set. *)
Theorem home_failure_returns_empty config url_filter soup_hrefs server schedule st :
  home_page config server st = None ->
  exists evs,
    let run := crawl_all_categories config url_filter soup_hrefs server schedule st in
    run.1 = Returns ∅
    /\ trace run.2 = (trace st ++ evs ++ [Log ERROR FailedHomePage])%list
    /\ fetched evs = [BASE_URL config]
    /\ visited_urls run.2 = visited_urls st
    /\ product_urls run.2 = product_urls st.
Proof.
  unfold home_page, crawl_all_categories. intros Hhome.
  destruct (fetch_page_frame config server (BASE_URL config)
              (emit [Log INFO FetchingCategories] st))
    as (evs & Ht & Hv & Hp & Hf & _).
  destruct (fetch_page config server (BASE_URL config)
              (emit [Log INFO FetchingCategories] st)) as [html st1].
  simpl in Hhome. subst html. cbv zeta in *. simpl in *.
  exists (Log INFO FetchingCategories :: FetchPage (BASE_URL config) :: evs).
  rewrite Ht, Hv, Hp. simpl. rewrite Hf, <- !app_assoc. auto.
Qed.

Lemma home_failure_returns_empty_witness :
  exists evs,
    let run := crawl_all_categories default_config default_filter Sites.anchors
                 Sites.site_down [] fresh in
    run.1 = Returns ∅
    /\ trace run.2 = (trace fresh ++ evs ++ [Log ERROR FailedHomePage])%list
    /\ fetched evs = [BASE_URL default_config]
    /\ visited_urls run.2 = visited_urls fresh
    /\ product_urls run.2 = product_urls fresh.
Proof. apply home_failure_returns_empty. reflexivity. Defined.

(** C4 as stated fails: a run that cannot fetch the home page and a run
    that fetches a home page without links return the same value, the empty
    set. *)
Lemma home_failure_not_distinguishable : ~ home_failure_distinguishable.
Proof.
  intros H.
  apply (H default_config default_filter Sites.anchors
           Sites.site_down Sites.site_without_links [] fresh).
  - reflexivity.
  - eexists. reflexivity.
  - vm_compute. reflexivity.
Qed.

(** C2, at the failing input: the home page links to one category whose
    first page links back to [https://www.ouedkniss.com].
    [crawl_all_categories] fetches the home page without recording it in the
    visited set, so the category's traversal fetches it again: [fetch_page]
    is called twice on the home URL in one session. *)
Theorem home_page_fetched_twice :
  let run := crawl_all_categories default_config default_filter Sites.anchors
               Sites.site_with_home_link [0; 0; 0; 0; 0; 0] fresh in
  run.1 = Returns ∅
  /\ fetched (trace run.2) = [Sites.home; Sites.informatique_1; Sites.home].
Proof. vm_compute. split; reflexivity. Qed.

(** ** normalize_url *)

(** C9: [normalize_url] joins a reference to the site base only when the
    reference begins with a slash; every other string is returned as it is.
    The relative reference [informatique/1] comes back unchanged, which is
    no absolute URL, although the docstring of [normalize_url] promises the
    absolute format and [urljoin] on the same base, which [extract_links]
    applies to every [href] without such a test, resolves it to
    [https://www.ouedkniss.com/informatique/1]. *)
Theorem normalize_url_keeps_relative :
  (forall self url,
     Str.startswith "/" url = false -> normalize_url self url = Ok url)
  /\ relative_reference "informatique/1"
  /\ normalize_url default_filter "informatique/1" = Ok "informatique/1"
  /\ ~ absolute_same_site "informatique/1"
  /\ Urllib.urljoin (base_url default_filter) "informatique/1"
     = Ok "https://www.ouedkniss.com/informatique/1".
Proof.
  split; [|split; [|split; [|split]]].
  - intros self url Hurl. unfold normalize_url. now rewrite Hurl.
  - eexists. split; reflexivity.
  - reflexivity.
  - intros (parsed & Hparse & Hscheme & _).
    vm_compute in Hparse. injection Hparse as <-. now apply Hscheme.
  - vm_compute. reflexivity.
Qed.

(** ** Page URLs *)

Module PageFacts.
Import Str StrFacts Urllib UrllibFacts UrljoinFacts.

Lemma all_impl (p q : ascii -> bool) s :
  (forall c, p c = true -> q c = true) -> all p s = true -> all q s = true.
Proof.
  intros Hpq. induction s as [|a s IH]; simpl; [trivial|].
  intros [Ha Hs]%andb_true_iff. now rewrite (Hpq _ Ha), IH.
Qed.

Lemma split_nonempty c s : split c s <> [].
Proof.
  destruct s as [|a s]; simpl; [discriminate|].
  destruct (Ascii.eqb a c); [discriminate|].
  destruct (split c s); discriminate.
Qed.

Lemma join_cons_char sep a w ws :
  join sep (String a w :: ws) = String a (join sep (w :: ws)).
Proof. simpl. destruct ws; reflexivity. Qed.

(** [categories = slug.split('-')] joined with slashes is the slug with its
    dashes turned into slashes *)
Lemma join_split_chars slug :
  all Re.is_slug_char slug = true ->
  all path_char (join "/" (split "-" slug)) = true.
Proof.
  induction slug as [|a slug IH]; [reflexivity|].
  intros [Ha Hs]%andb_true_iff. specialize (IH Hs).
  cbn [split]. destruct (Ascii.eqb_spec a "-") as [->|Hne].
  - pose proof (split_nonempty "-" slug) as Hn.
    destruct (split "-" slug) as [|w ws]; [now elim Hn|].
    change (join "/" ("" :: w :: ws)) with (String "/" (join "/" (w :: ws))).
    cbn [all]. now rewrite IH.
  - destruct (split "-" slug) as [|w ws].
    + cbn. rewrite andb_true_r. unfold path_char.
      unfold Re.is_slug_char in Ha. apply orb_true_iff in Ha as [->|Ha]; [reflexivity|].
      apply Ascii.eqb_eq in Ha. contradiction.
    + rewrite join_cons_char. cbn [all]. rewrite IH, andb_true_r.
      unfold path_char. unfold Re.is_slug_char in Ha.
      apply orb_true_iff in Ha as [->|Ha]; [reflexivity|].
      apply Ascii.eqb_eq in Ha. contradiction.
Qed.

Lemma category_pattern_slug_chars path slug n :
  Re.category_pattern path = Some (slug, n) -> all Re.is_slug_char slug = true.
Proof.
  unfold Re.category_pattern.
  destruct (after_prefix "/" path) as [r|]; [|discriminate].
  destruct (span Re.is_slug_char r) as [s r1] eqn:Hsp.
  destruct (span_spec _ _ _ _ Hsp) as (_ & Hall & _).
  destruct (s =? ""); [discriminate|].
  destruct (after_prefix "/" r1) as [r2|]; [|discriminate].
  destruct (Re.digits_dollar r2); [|discriminate].
  now intros [= <- _].
Qed.

Lemma extract_category_info_chars url categories n :
  extract_category_info url = Ok (Some (categories, n)) ->
  all path_char (join "/" categories) = true.
Proof.
  unfold extract_category_info.
  destruct (urlparse url) as [parsed|]; [|discriminate]. cbn [mbind result_bind].
  destruct (Re.category_pattern (path parsed)) as [[slug page_num]|] eqn:Hpat;
    [|discriminate].
  destruct (Str.int page_num) as [k|]; [|discriminate]. cbn [mbind result_bind].
  intros [= <- _]. apply join_split_chars.
  eapply category_pattern_slug_chars; eauto.
Qed.

Lemma partition_none c s : contains c s = false -> partition c s = None.
Proof.
  induction s as [|a s IH]; simpl; [reflexivity|].
  intros [Ha Hs]%orb_false_iff. now rewrite Ha, IH.
Qed.

Lemma cut_none c s : contains c s = false -> cut c s = (s, "").
Proof. intros H. unfold cut. now rewrite partition_none. Qed.

(** a URL under the site's root whose tail is made of path characters and
    digits has this tail as its path *)
Lemma urlparse_site_path tail :
  all (fun c => path_char c || is_digit c) tail = true ->
  urlparse (site_root ++ tail)
  = Ok (mkParse "https" "www.ouedkniss.com" (String "/" tail) "" "" "").
Proof.
  intros Htail.
  assert (Hsafe : remove_unsafe tail = tail).
  { apply keep_unchanged. revert Htail. apply all_impl.
    intros c Hc. destruct c as [[] [] [] [] [] [] [] []]; try reflexivity; discriminate Hc. }
  assert (Hno : forall c, path_char c || is_digit c = false ->
                          contains c (String "/" tail) = false).
  { intros c Hc. cbn [contains]. rewrite (all_contains _ _ _ Htail Hc), orb_false_r.
    destruct (Ascii.eqb_spec "/" c) as [<-|]; [discriminate Hc | reflexivity]. }
  unfold urlparse, urlparse_with, urlsplit, site_root.
  unfold remove_unsafe at 1. rewrite keep_app. fold (remove_unsafe tail). rewrite Hsafe.
  change (keep _ "https://www.ouedkniss.com/") with ("https" ++ String ":" "//www.ouedkniss.com/").
  rewrite append_assoc.
  unfold split_scheme.
  change (String ":" "//www.ouedkniss.com/" ++ tail) with (String ":" ("//www.ouedkniss.com/" ++ tail)).
  rewrite (partition_app ":" "https" _ eq_refl).
  change (negb ("https" =? "") && all scheme_char "https") with true. cbv iota.
  change (lower "https") with "https".
  unfold split_netloc.
  change ("//www.ouedkniss.com/" ++ tail) with ("//" ++ "www.ouedkniss.com" ++ String "/" tail).
  rewrite after_prefix_app.
  rewrite (span_app (fun c => negb (netloc_delim c)) "www.ouedkniss.com"
             (String "/" tail) eq_refl eq_refl).
  change (bad_brackets "www.ouedkniss.com") with false. cbv iota.
  unfold mbind, result_bind.
  rewrite (cut_none "#" _ (Hno "#"%char eq_refl)).
  rewrite (cut_none "?" _ (Hno "?"%char eq_refl)).
  cbn [scheme netloc path params query fragment].
  rewrite (Hno ";"%char eq_refl), andb_false_r. reflexivity.
Qed.


Lemma append_inv_head (s a b : string) : s ++ a = s ++ b -> a = b.
Proof. induction s as [|c s IH]; simpl; [trivial|]. intros [= H]. auto. Qed.

Lemma page_url_inj config base (k k' : Z) :
  page_url config base k = page_url config base k' -> k = k'.
Proof.
  unfold page_url. intros H.
  do 4 apply append_inv_head in H. now apply (inj pretty) in H.
Qed.

Lemma page_url_site config base k :
  BASE_URL config = "https://www.ouedkniss.com" ->
  page_url config base k = site_root ++ base ++ "/" ++ pretty k.
Proof. intros H. unfold page_url. rewrite H. reflexivity. Qed.

Lemma classify_not_product url parsed :
  urlparse url = Ok parsed ->
  Re.search Re.product_suffix_at (path parsed) = None ->
  classify_url url <> Ok PRODUCT.
Proof.
  intros Hparse Hsearch. unfold classify_url.
  rewrite (is_valid_domain_parsed _ _ Hparse). cbn [mbind result_bind].
  destruct (negb _); [discriminate|]. rewrite Hparse. cbn [mbind result_bind].
  destruct (_ || _); [discriminate|]. rewrite Hsearch.
  destruct (Re.category_pattern _) as [[category_path page_num]|]; [|discriminate].
  destruct (Nat.eqb _ _); discriminate.
Qed.

(** the first page of a category is never taken for a product *)
Lemma first_page_not_product config base :
  BASE_URL config = "https://www.ouedkniss.com" ->
  all path_char base = true ->
  classify_url (page_url config base 1) <> Ok PRODUCT.
Proof.
  intros Hbase Hchars. rewrite (page_url_site _ _ _ Hbase).
  change (pretty 1%Z) with "1".
  assert (Htail : all (fun c => path_char c || is_digit c) (base ++ "/" ++ "1") = true).
  { rewrite all_app. apply andb_true_iff. split; [|reflexivity].
    revert Hchars. apply all_impl. intros c ->. reflexivity. }
  apply (classify_not_product _ _ (urlparse_site_path _ Htail)).
  cbn [path].
  change (String "/" (base ++ "/" ++ "1")) with (String "/" base ++ "/" ++ "1").
  now apply ReFacts.search_slash_digits_none.
Qed.

End PageFacts.

(** ** The pagination-continuation rule *)

Section Pagination.

Context (config : ScraperConfig) (url_filter : URLFilter)
        (soup_hrefs : string -> list string)
        (server : nat -> string -> outcome).
Context (base : string) (st0 : state).

Let page_1 : string := page_url config base 1.
Let page_2 : string := page_url config base 2.

Hypothesis site_base : BASE_URL config = "https://www.ouedkniss.com".
Hypothesis base_chars : Str.all path_char base = true.
Hypothesis no_link_to_page_2 :
  forall k url text links,
    server k url = Response 200 text ->
    extract_links url_filter soup_hrefs text url = Ok links ->
    page_2 ∉ links.

Local Abbreviation no_new_fetch := (no_call_since st0 page_2).
Local Abbreviation pagination_inv := (pagination_inv config base st0).

Lemma page_1_not_page_2 : page_1 <> page_2.
Proof. intros H. apply PageFacts.page_url_inj in H. discriminate H. Qed.

(** the end of an iteration keeps page 2 out of the frontier *)
Lemma after_page_inv f new_urls st :
  base_category f = base ->
  page_2 ∉ urls_to_visit f ->
  page_2 ∉ new_urls ->
  (1 <= page f)%Z ->
  (page f = 1%Z -> product_urls st = ∅) ->
  let f' := after_page config f new_urls st in
  base_category f' = base /\ (page_2 ∉ urls_to_visit f') /\ (1 <= page f')%Z
  /\ page f' <> 1%Z.
Proof.
  intros Hb Hfront Hnew Hpage Hfirst. unfold after_page.
  cbn [base_category page urls_to_visit max_pages].
  repeat split; [exact Hb | | lia | lia].
  assert (Hfiltered :
    page_2 ∉ (urls_to_visit f ++ filter (fun u => negb (visited st u)) new_urls)%list).
  { rewrite not_elem_of_app. split; [exact Hfront|].
    rewrite list_elem_of_filter. tauto. }
  destruct (negb _ && _); [|exact Hfiltered].
  destruct (0 <? size (product_urls st))%nat eqn:Hsize; [|exact Hfiltered].
  rewrite not_elem_of_app. split; [exact Hfiltered|].
  rewrite list_elem_of_singleton. rewrite Hb. intros Heq.
  apply PageFacts.page_url_inj in Heq.
  assert (Hone : page f = 1%Z) by lia.
  rewrite (Hfirst Hone), size_empty in Hsize. discriminate Hsize.
Qed.

Lemma no_new_fetch_emit st evs :
  no_new_fetch st -> page_2 ∉ fetched evs -> no_new_fetch (emit evs st).
Proof.
  unfold no_call_since, emit. cbn [trace]. intros (evs0 & Ht & Hnot) Hevs.
  exists (evs0 ++ evs)%list. rewrite Ht, app_assoc, fetched_app, not_elem_of_app.
  auto.
Qed.

(** what [fetch_page] leaves behind when it is called on another URL than
    page 2 *)
Lemma fetch_page_keeps url st :
  url <> page_2 ->
  no_new_fetch st ->
  let st' := (fetch_page config server url st).2 in
  no_new_fetch st' /\ product_urls st' = product_urls st.
Proof.
  intros Hurl Hst.
  destruct (fetch_page_frame config server url st) as (evs & Ht & _ & Hp & Hf & _).
  cbv zeta in *. split; [|exact Hp].
  destruct Hst as (evs0 & Ht0 & Hnot).
  exists (evs0 ++ FetchPage url :: evs)%list.
  rewrite Ht, Ht0, app_assoc, fetched_app, not_elem_of_app.
  change (fetched (FetchPage url :: evs)) with (url :: fetched evs). rewrite Hf.
  repeat split; [exact Hnot|]. rewrite list_elem_of_singleton. congruence.
Qed.

(** what the second half of [crawl_page] leaves behind *)
Lemma crawl_page_resume_keeps url html st :
  (forall text, html = Some text -> exists k, server k url = Response 200 text) ->
  no_new_fetch st ->
  let out := crawl_page_resume url_filter soup_hrefs url html st in
  no_new_fetch out.2
  /\ (classify_url url <> Ok PRODUCT -> product_urls out.2 = product_urls st)
  /\ (forall new_urls, out.1 = Ok new_urls -> page_2 ∉ new_urls).
Proof.
  intros Hhtml Hst. unfold crawl_page_resume.
  destruct html as [[|c text]|]; cbn;
    try (repeat split; [exact Hst | intros ? [= <-]; apply not_elem_of_nil]).
  destruct (classify_url url) as [url_type|e]; cbn;
    [|repeat split; [exact Hst | discriminate]].
  destruct (bool_decide_reflect (url_type = PRODUCT)) as [->|Htype]; cbn.
  { repeat split.
    - apply no_new_fetch_emit; [exact Hst | apply not_elem_of_nil].
    - intros H. now elim H.
    - intros ? [= <-]. apply not_elem_of_nil. }
  destruct (extract_links url_filter soup_hrefs (String c text) url) as [links|e] eqn:Hlinks;
    cbn; [|repeat split; [exact Hst | discriminate]].
  repeat split; [exact Hst|].
  intros new_urls [= <-]. rewrite list_elem_of_filter.
  destruct (Hhtml _ eq_refl) as [k Hk].
  pose proof (no_link_to_page_2 _ _ _ _ Hk Hlinks). tauto.
Qed.

(** every step keeps the invariant *)
Lemma step_pagination_inv t st :
  pagination_inv t st ->
  pagination_inv (step config url_filter soup_hrefs server t st).1
                 (step config url_filter soup_hrefs server t st).2.
Proof.
  destruct t as [category_url max|f|f u|products|e]; intros [Hfetch Hinv];
    [now elim Hinv | | | split; [exact Hfetch | exact I] ..].
  - (* at the test of the loop *)
    destruct Hinv as (Hb & Hfront & Hpage & Hfirst). cbn [step].
    destruct (urls_to_visit f) as [|u rest] eqn:Hq; [split; [exact Hfetch | exact I]|].
    destruct (within f); [|split; [exact Hfetch | exact I]].
    apply not_elem_of_cons in Hfront as [Hu Hrest].
    unfold crawl_page_enter. destruct (visited st u).
    + cbn [fst snd]. split; [exact Hfetch|].
      destruct (after_page_inv (mkFrame (base_category f) (page f) rest (max_pages f))
                  [] st Hb Hrest (not_elem_of_nil _) Hpage
                  (fun Hone => proj1 (Hfirst Hone))) as (Hb' & Hf' & Hp' & Hne).
      repeat split; auto; contradiction.
    + cbn [fst snd]. split.
      * apply no_new_fetch_emit; [exact Hfetch | apply not_elem_of_nil].
      * cbn [base_category page urls_to_visit]. repeat split; auto.
        -- now apply Hfirst.
        -- apply Hfirst; [assumption | apply list_elem_of_here].
  - (* when the fetch ends *)
    destruct Hinv as (Hb & Hfront & Hpage & Hu & Hfirst). cbn [step].
    destruct (fetch_page_keeps u st Hu Hfetch) as [Hfetch1 Hprod1].
    pose proof (fetch_page_text config server u st) as Htext.
    destruct (fetch_page config server u st) as [html st1]. cbn [fst snd] in *.
    destruct (crawl_page_resume_keeps u html st1) as (Hfetch2 & Hprod2 & Hnew);
      [intros text ->; now apply Htext | exact Hfetch1 |].
    destruct (crawl_page_resume url_filter soup_hrefs u html st1) as [[new_urls|e] st2];
      cbn [fst snd] in *; [|split; [exact Hfetch2 | exact I]].
    split; [exact Hfetch2|].
    assert (Hprod : page f = 1%Z -> product_urls st2 = ∅).
    { intros Hone. destruct (Hfirst Hone) as [Hempty ->].
      rewrite Hprod2, Hprod1; [exact Hempty|].
      now apply PageFacts.first_page_not_product. }
    destruct (after_page_inv f new_urls st2 Hb Hfront (Hnew _ eq_refl) Hpage Hprod)
      as (Hb' & Hf' & Hp' & Hne).
    repeat split; auto; contradiction.
Qed.

Lemma run_pagination_inv fuel t st :
  pagination_inv t st ->
  pagination_inv (run config url_filter soup_hrefs server fuel t st).1
                 (run config url_filter soup_hrefs server fuel t st).2.
Proof.
  revert t st. induction fuel as [|fuel IH]; intros t st Hinv; cbn [run]; [exact Hinv|].
  destruct (finished t); [exact Hinv|].
  pose proof (step_pagination_inv t st Hinv) as Hstep.
  destruct (step config url_filter soup_hrefs server t st) as [t1 st1].
  now apply IH.
Qed.

End Pagination.

(** When a call of [crawl_category] starts with an empty product set and no
    page of the site links to page 2 of the category, none of the events of
    the call, however long it runs, is a call of [fetch_page] on page 2. *)
Lemma no_fetch_of_page_2
    config url_filter soup_hrefs server fuel category_url max_pages st categories n :
  BASE_URL config = "https://www.ouedkniss.com" ->
  extract_category_info category_url = Ok (Some (categories, n)) ->
  product_urls st = ∅ ->
  (forall k url text links,
     server k url = Response 200 text ->
     extract_links url_filter soup_hrefs text url = Ok links ->
     page_url config (Str.join "/" categories) 2 ∉ links) ->
  exists evs,
    trace (crawl_category config url_filter soup_hrefs server fuel
             category_url max_pages st).2 = (trace st ++ evs)%list
    /\ page_url config (Str.join "/" categories) 2 ∉ fetched evs.
Proof.
  intros Hbase Hinfo Hempty Hlinks. unfold crawl_category.
  destruct fuel as [|fuel];
    [exists []; cbn; rewrite app_nil_r; split; [reflexivity | apply not_elem_of_nil]|].
  cbn [run finished step]. rewrite Hinfo.
  set (base := Str.join "/" categories).
  set (f := mkFrame base 1 [page_url config base 1] max_pages).
  assert (Hinv : pagination_inv config base st (Loop f) st).
  { split; [exists []; rewrite app_nil_r; split; [reflexivity | apply not_elem_of_nil]|].
    cbn. repeat split; try lia; auto.
    - rewrite list_elem_of_singleton. intros H.
      apply PageFacts.page_url_inj in H. discriminate H.
    - intros u Hu. now apply list_elem_of_singleton in Hu. }
  pose proof (run_pagination_inv config url_filter soup_hrefs server base st Hbase
                (PageFacts.extract_category_info_chars _ _ _ Hinfo) Hlinks
                fuel (Loop f) st Hinv) as [Hfetch _].
  destruct (run config url_filter soup_hrefs server fuel (Loop f) st) as [t st1].
  exact Hfetch.
Qed.

(** The continuation rule at the end of an iteration: after the links
    returned by [crawl_page] that are not yet visited, it appends the next
    sequential page when the crawler's product set is not empty (and that
    page is not yet visited), and nothing when the set is empty. *)
Lemma after_page_rule config f new_urls st :
  let next := page_url config (base_category f) (page f + 1) in
  let found := filter (fun u => negb (visited st u)) new_urls in
  (product_urls st = ∅ ->
     urls_to_visit (after_page config f new_urls st) = (urls_to_visit f ++ found)%list)
  /\ (product_urls st <> ∅ -> (1 <= page f)%Z -> next ∉ visited_urls st ->
       urls_to_visit (after_page config f new_urls st)
       = (urls_to_visit f ++ found ++ [next])%list).
Proof.
  intros next found. unfold after_page. cbn [urls_to_visit]. fold next found. split.
  - intros ->. rewrite size_empty. cbn [Nat.ltb Nat.leb].
    now destruct (negb (visited st next) && (1 <? page f + 1)%Z).
  - intros Hne Hpage Hnext.
    assert (visited st next = false) as ->.
    { unfold visited. now apply bool_decide_eq_false. }
    assert ((1 <? page f + 1)%Z = true) as -> by (apply Z.ltb_lt; lia).
    cbn [negb andb].
    assert ((0 <? size (product_urls st))%nat = true) as ->.
    { apply Nat.ltb_lt. apply Nat.neq_0_lt_0. apply size_non_empty_iff.
      intros H. apply Hne. now apply leibniz_equiv. }
    now rewrite app_assoc.
Qed.


Lemma site_reply pages k url reply :
  Sites.site pages k url = reply ->
  reply = Response 404 "" \/ (url, reply) ∈ pages.
Proof.
  unfold Sites.site.
  destruct (list_find _ pages) as [[i [u r]]|] eqn:Hfind; intros <-; [|now left].
  apply list_find_Some in Hfind as (Hi & Hu & _). cbn in Hu. subst u.
  right. eapply list_elem_of_lookup_2; eauto.
Qed.

(** no page of [site_with_home_link] links to the second page of the
    category *)
Lemma site_with_home_link_links k url text links :
  Sites.site_with_home_link k url = Response 200 text ->
  extract_links default_filter Sites.anchors text url = Ok links ->
  Sites.informatique_2 ∉ links.
Proof.
  intros Hreply Hlinks. apply site_reply in Hreply as [Hreply|Hin]; [discriminate|].
  apply elem_of_cons in Hin as [[= -> ->]|Hin].
  { vm_compute in Hlinks. injection Hlinks as <-.
    rewrite list_elem_of_singleton. discriminate. }
  apply elem_of_cons in Hin as [[= -> ->]|Hin].
  { vm_compute in Hlinks. injection Hlinks as <-.
    rewrite list_elem_of_singleton. discriminate. }
  now apply elem_of_nil in Hin.
Qed.



(** ** Fetching once through crawl_page *)

Section FetchOnce.

Context (config : ScraperConfig) (url_filter : URLFilter)
        (soup_hrefs : string -> list string)
        (server : nat -> string -> outcome).

Lemma crawl_page_resume_trace url html st :
  let out := crawl_page_resume url_filter soup_hrefs url html st in
  fetched (trace out.2) = fetched (trace st)
  /\ visited_urls out.2 = visited_urls st.
Proof.
  unfold crawl_page_resume.
  destruct html as [[|c text]|]; cbn; auto.
  destruct (classify_url url) as [url_type|e]; cbn; auto.
  destruct (bool_decide (url_type = PRODUCT)); cbn.
  - rewrite fetched_app. cbn. now rewrite app_nil_r.
  - destruct (extract_links _ _ _ _); cbn; auto.
Qed.

(** One step of a call either keeps its URL in flight and fetches nothing,
    or takes a URL that was not visited and marks it, or ends the fetch of
    the URL it had in flight. *)
Lemma step_flight t st :
  let out := step config url_filter soup_hrefs server t st in
  visited_urls st ⊆ visited_urls out.2 /\
  ((in_flight out.1 = in_flight t /\ fetched (trace out.2) = fetched (trace st))
   \/ (exists url,
         in_flight t = [] /\ in_flight out.1 = [url]
         /\ (url ∉ visited_urls st) /\ (url ∈ visited_urls out.2)
         /\ fetched (trace out.2) = fetched (trace st))
   \/ (exists url,
         in_flight t = [url] /\ in_flight out.1 = []
         /\ fetched (trace out.2) = (fetched (trace st) ++ [url])%list)).
Proof.
  destruct t as [category_url max|f|f u|products|e]; cbn [step].
  - destruct (extract_category_info category_url) as [[[categories n]|]|e]; cbn;
      (split; [reflexivity|left; split; [reflexivity|]]); auto.
    rewrite fetched_app. cbn. now rewrite app_nil_r.
  - destruct (urls_to_visit f) as [|u rest]; [cbn; split; [reflexivity|auto]|].
    destruct (within f); [|cbn; split; [reflexivity|auto]].
    unfold crawl_page_enter, visited.
    destruct (bool_decide_reflect (u ∈ visited_urls st)) as [Hin|Hout]; cbn.
    + split; [reflexivity|auto].
    + split; [apply union_subseteq_r|]. right. left. exists u.
      repeat split; auto.
      * apply elem_of_union_l, elem_of_singleton. reflexivity.
      * rewrite fetched_app. cbn. now rewrite app_nil_r.
  - destruct (fetch_page_frame config server u st) as (evs & Ht & Hv & _ & Hf & _).
    destruct (fetch_page config server u st) as [html st1]. cbn [fst snd] in *.
    destruct (crawl_page_resume_trace u html st1) as [Htrace Hvis].
    destruct (crawl_page_resume url_filter soup_hrefs u html st1) as [[new_urls|e] st2];
      cbn [fst snd] in *;
      (split; [rewrite Hvis, Hv; reflexivity|]);
      right; right; exists u; repeat split;
      rewrite Htrace, Ht, fetched_app;
      change (fetched (FetchPage u :: evs)) with (u :: fetched evs);
      now rewrite Hf.
  - cbn. split; [reflexivity|auto].
  - cbn. split; [reflexivity|auto].
Qed.

(** a step of one of the calls keeps the invariant of all of them *)
Lemma step_fetch_once tasks i t st :
  tasks !! i = Some t ->
  fetch_once_inv tasks st ->
  let out := step config url_filter soup_hrefs server t st in
  fetch_once_inv (<[i := out.1]> tasks) out.2.
Proof.
  intros Hi [Hnodup Hvisited].
  destruct (step_flight t st) as [Hsub Hcases].
  destruct (step config url_filter soup_hrefs server t st) as [t' st']. cbn [fst snd] in *.
  unfold fetch_once_inv, claimed in *.
  rewrite insert_take_drop by (eapply lookup_lt_Some; eauto).
  rewrite <- (take_drop_middle tasks i t Hi) in Hnodup, Hvisited.
  rewrite bind_app, bind_cons in *.
  set (before := take i tasks ≫= in_flight) in *.
  set (after := drop (S i) tasks ≫= in_flight) in *.
  destruct Hcases as [[Hflight Htrace]|[(url & Hold & Hnew & Hout & Hin & Htrace)
                                       |(url & Hold & Hnew & Htrace)]].
  - rewrite Hflight, Htrace. split; [exact Hnodup|].
    intros url Hurl. apply Hsub. auto.
  - rewrite Hnew, Htrace. rewrite Hold in Hnodup, Hvisited. cbn [app] in *.
    assert (Hperm : (fetched (trace st) ++ before ++ url :: after)%list
                    ≡ₚ url :: (fetched (trace st) ++ before ++ after)%list).
    { rewrite !Permutation_middle. reflexivity. }
    split.
    + rewrite Hperm. apply NoDup_cons. split; [|exact Hnodup].
      intros Hurl. apply Hout. auto.
    + intros url'. rewrite Hperm, elem_of_cons. intros [->|Hurl]; [exact Hin|].
      apply Hsub. auto.
  - rewrite Hnew, Htrace. rewrite Hold in Hnodup, Hvisited. cbn [app] in *.
    assert (Hperm : ((fetched (trace st) ++ [url]) ++ before ++ after)%list
                    ≡ₚ (fetched (trace st) ++ before ++ url :: after)%list).
    { rewrite <- !app_assoc. cbn. rewrite !Permutation_middle. reflexivity. }
    split.
    + rewrite Hperm. exact Hnodup.
    + intros url'. rewrite Hperm. intros Hurl. apply Hsub. auto.
Qed.

Lemma fetch_once_inv_fetched tasks st : fetch_once_inv tasks st -> NoDup (fetched (trace st)).
Proof. intros [Hnodup _]. now apply NoDup_app in Hnodup as [? _]. Qed.

(** Whatever the schedule, the calls of [crawl_category] that share a
    crawler never call [fetch_page] twice on one URL, as long as every URL
    fetched before is in the visited set. *)
Lemma gather_fetches_once schedule tasks st :
  fetch_once_inv tasks st ->
  NoDup (fetched (trace (gather config url_filter soup_hrefs server schedule tasks st).2)).
Proof.
  revert tasks st. induction schedule as [|i schedule IH]; intros tasks st Hinv; cbn [gather].
  - destruct (forallb finished tasks); cbn; eapply fetch_once_inv_fetched; eauto.
  - destruct (forallb finished tasks); [cbn; eapply fetch_once_inv_fetched; eauto|].
    destruct (tasks !! i) as [t|] eqn:Hi; [|now apply IH].
    pose proof (step_fetch_once tasks i t st Hi Hinv) as Hstep.
    destruct (step config url_filter soup_hrefs server t st) as [t' st'].
    cbn [fst snd] in Hstep.
    destruct t'; try (now apply IH).
    cbn. eapply fetch_once_inv_fetched; eauto.
Qed.

End FetchOnce.

(** On a crawler just built, category traversals that run together fetch
    every URL at most once. *)
Corollary categories_fetched_once config url_filter soup_hrefs server schedule category_urls :
  NoDup (fetched (trace (gather config url_filter soup_hrefs server schedule
                           (map (fun url => Start url None) category_urls) fresh).2)).
Proof.
  apply gather_fetches_once. unfold fetch_once_inv, claimed. cbn [fresh trace fetched omap].
  assert (Hnone : map (fun url => Start url None) category_urls ≫= in_flight = []).
  { induction category_urls as [|u l IH]; [reflexivity|]. cbn [map]. rewrite bind_cons. exact IH. }
  rewrite Hnone. cbn. split; [apply NoDup_nil_2|]. intros url Hurl. now apply elem_of_nil in Hurl.
Qed.

(* ===================================================================== *)
(** * Further properties of the code *)
(* ===================================================================== *)

(** ** More on strings and patterns *)

Module SplitFacts.
Import Str Re Urllib StrFacts ReFacts UrllibFacts UrljoinFacts PageFacts.

Lemma join_split c s : join (String c "") (split c s) = s.
Proof.
  induction s as [|a s IH]; [reflexivity|].
  cbn [split]. destruct (Ascii.eqb_spec a c) as [->|Hne].
  - pose proof (split_nonempty c s) as Hs.
    destruct (split c s) as [|w ws] eqn:E; [now elim Hs|].
    cbn [join]. simpl. now rewrite <- IH.
  - pose proof (split_nonempty c s) as Hs.
    destruct (split c s) as [|w ws] eqn:E; [now elim Hs|].
    rewrite join_cons_char. now rewrite IH.
Qed.

Lemma split_length c s : length (split c s) = S (count c s).
Proof.
  induction s as [|a s IH]; [reflexivity|].
  cbn [split count]. destruct (Ascii.eqb a c).
  - cbn [length]. now rewrite IH.
  - pose proof (split_nonempty c s) as Hs.
    destruct (split c s) as [|w ws] eqn:E; [now elim Hs|].
    cbn [length] in *. exact IH.
Qed.

Lemma split_lower s :
  all is_slug_char s = true ->
  Forall (fun w => all is_lower w = true) (split "-" s).
Proof.
  induction s as [|a s IH]; intros H.
  - repeat constructor.
  - cbn [all] in H. apply andb_true_iff in H as [Ha Hs].
    specialize (IH Hs). cbn [split].
    destruct (Ascii.eqb_spec a "-") as [->|Hne].
    + constructor; [reflexivity | exact IH].
    + pose proof (split_nonempty "-" s) as Hn.
      destruct (split "-" s) as [|w ws] eqn:E; [now elim Hn|].
      inversion IH as [|? ? Hw Hws]; subst.
      constructor; [|exact Hws].
      cbn [all]. rewrite Hw, andb_true_r.
      unfold is_slug_char in Ha. apply orb_true_iff in Ha as [Ha|Ha]; [exact Ha|].
      apply Ascii.eqb_eq in Ha. contradiction.
Qed.

Lemma digit_value_range c :
  is_digit c = true -> (0 <= digit_value c <= 9)%Z.
Proof.
  destruct c as [[] [] [] [] [] [] [] []]; intros H; try discriminate H;
    vm_compute; split; discriminate.
Qed.

Lemma fold_digits_nonneg s acc :
  (0 <= acc)%Z -> all is_digit s = true ->
  (0 <= fold_left (fun acc c => 10 * acc + digit_value c) (list_ascii_of_string s) acc)%Z.
Proof.
  revert acc. induction s as [|a s IH]; intros acc Hacc H; [exact Hacc|].
  cbn [all] in H. apply andb_true_iff in H as [Ha Hs].
  cbn [list_ascii_of_string fold_left]. apply IH; [|exact Hs].
  pose proof (digit_value_range a Ha). lia.
Qed.

Lemma digits_value_nonneg s : all is_digit s = true -> (0 <= digits_value s)%Z.
Proof. intros H. unfold digits_value. now apply fold_digits_nonneg. Qed.

(** [int] returns the value of the digits, unless there are more than
    [max_str_digits] of them *)
Lemma int_cases s :
  ((Z.of_nat (String.length s) <= max_str_digits)%Z /\ int s = Ok (digits_value s))
  \/ ((max_str_digits < Z.of_nat (String.length s))%Z /\ raises (int s)).
Proof.
  unfold int. destruct (Z.ltb_spec max_str_digits (Z.of_nat (String.length s))).
  - right. split; [assumption|]. eexists. reflexivity.
  - left. now split.
Qed.

Lemma int_value s n :
  int s = Ok n ->
  n = digits_value s /\ (Z.of_nat (String.length s) <= max_str_digits)%Z.
Proof.
  destruct (int_cases s) as [[Hlen ->]|[Hlen [e ->]]]; [|discriminate].
  now intros [= <-].
Qed.

Lemma rsplit_slash_spec s h t : rsplit_slash s = (h, t) -> s = h ++ t.
Proof.
  revert h t. induction s as [|a s IH]; intros h t H.
  - now inversion H.
  - cbn [rsplit_slash] in H. destruct (rsplit_slash s) as [h0 t0].
    specialize (IH _ _ eq_refl). subst s.
    destruct (String.eqb_spec h0 "") as [->|Hne].
    + destruct (Ascii.eqb a "/"); inversion H; reflexivity.
    + inversion H. reflexivity.
Qed.

(** the parts that [urlparse] cuts out of a URL have only characters of
    the URL *)
Lemma contains_keep_true p c s : contains c (keep p s) = true -> p c = true.
Proof.
  induction s as [|a s IH]; [discriminate|].
  cbn [keep]. destruct (p a) eqn:Hp; [|exact IH].
  cbn [contains]. intros H. apply orb_true_iff in H as [H|H]; [|now apply IH].
  apply Ascii.eqb_eq in H. now subst.
Qed.

Lemma after_prefix_contains p s r c :
  after_prefix p s = Some r -> contains c r = true -> contains c s = true.
Proof.
  intros H. apply after_prefix_spec in H as ->.
  rewrite contains_app. intros ->. apply orb_true_r.
Qed.

Lemma path_chars url d parsed c :
  urlparse_with url d = Ok parsed ->
  contains c (path parsed) = true ->
  contains c (remove_unsafe url) = true.
Proof.
  unfold urlparse_with, urlsplit.
  set (u0 := remove_unsafe url).
  assert (H1 : forall s r, (match split_scheme u0 with
                            | Some (s, r) => (s, r)
                            | None => (remove_unsafe d, u0) end) = (s, r) ->
                           contains c r = true -> contains c u0 = true).
  { intros s r E. destruct (split_scheme u0) as [[s' r']|] eqn:Es.
    - inversion E; subst. now apply split_scheme_rest with (s := s).
    - now inversion E. }
  destruct (match split_scheme u0 with
            | Some (s, r) => (s, r)
            | None => (remove_unsafe d, u0) end) as [sch u1].
  specialize (H1 _ _ eq_refl).
  assert (H2 : forall host r, split_netloc u1 = Ok (host, r) ->
                 contains c r = true -> contains c u1 = true).
  { unfold split_netloc. intros host r E.
    destruct (after_prefix "//" u1) as [r0|] eqn:Ea.
    - destruct (span _ r0) as [h t] eqn:Es.
      destruct (bad_brackets h); [discriminate|]. inversion E; subst.
      apply span_spec in Es as (-> & _ & _).
      intros Hc. apply (after_prefix_contains _ _ _ _ Ea).
      rewrite contains_app, Hc. apply orb_true_r.
    - now inversion E. }
  destruct (split_netloc u1) as [[host u2]|e]; [|discriminate].
  specialize (H2 _ _ eq_refl).
  cbn [mbind result_bind].
  assert (Hcut : forall ch s, contains c (cut ch s).1 = true -> contains c s = true).
  { intros ch s. unfold cut. destruct (partition ch s) as [[h t]|] eqn:Ep; [|easy].
    apply partition_spec in Ep as [-> _]. cbn [fst]. rewrite contains_app.
    intros ->. reflexivity. }
  pose proof (Hcut "#"%char u2) as H3.
  destruct (cut "#" u2) as [u3 frag]. cbn [fst] in H3.
  pose proof (Hcut "?"%char u3) as H4.
  destruct (cut "?" u3) as [u4 q]. cbn [fst] in H4.
  cbn [scheme netloc path params query fragment].
  assert (Hfin : contains c u4 = true -> contains c u0 = true) by auto.
  cbn [mbind result_bind scheme netloc path params query fragment]. destruct (_ && _).
  - unfold splitparams. destruct (rsplit_slash u4) as [h t] eqn:Er.
    apply rsplit_slash_spec in Er.
    destruct (partition ";" t) as [[a b]|] eqn:Ep.
    + apply partition_spec in Ep as [-> _].
      intros E. inversion E; subst parsed. cbn [path].
      intros Hc. apply Hfin. rewrite Er.
      rewrite contains_app in Hc. rewrite !contains_app.
      apply orb_true_iff in Hc as [->| ->]; [reflexivity|].
      cbn [orb]. apply orb_true_r.
    + intros E. inversion E; subst parsed. exact Hfin.
  - intros E. inversion E; subst parsed. exact Hfin.
Qed.

Lemma path_no_newline url parsed :
  urlparse url = Ok parsed -> contains newline (path parsed) = false.
Proof.
  intros H. destruct (contains newline (path parsed)) eqn:Hc; [|reflexivity].
  apply (path_chars _ _ _ _ H) in Hc.
  apply contains_keep_true in Hc. discriminate Hc.
Qed.

Lemma no_newline_suffix s g :
  contains newline (s ++ g ++ String newline "") = false -> False.
Proof.
  rewrite !contains_app. cbn [contains].
  rewrite Ascii.eqb_refl. cbn [orb]. rewrite !orb_true_r. discriminate.
Qed.

Lemma search_spec {A} (pat : string -> option A) s g :
  search pat s = Some g -> exists pre suf, s = pre ++ suf /\ pat suf = Some g.
Proof.
  induction s as [|a s IH]; cbn [search].
  - destruct (pat "") eqn:E; [|discriminate]. intros [= ->]. now exists "", "".
  - destruct (pat (String a s)) eqn:E.
    + intros [= ->]. now exists "", (String a s).
    + intros H. destruct (IH H) as (pre & suf & -> & Hp).
      now exists (String a pre), suf.
Qed.

Lemma search_product_suffix_spec s g :
  search product_suffix_at s = Some g ->
  g <> "" /\ all is_digit g = true /\
  exists pre, s = pre ++ "-d" ++ g \/ s = pre ++ "-d" ++ g ++ String newline "".
Proof.
  intros H. apply search_spec in H as (pre & suf & -> & H).
  unfold product_suffix_at in H.
  destruct (after_prefix "-d" suf) as [r|] eqn:E; [|discriminate].
  apply after_prefix_spec in E as ->.
  apply digits_dollar_spec in H as (Hne & Hd & [-> | ->]); eauto 6.
Qed.

Lemma category_pattern_spec p slug n :
  category_pattern p = Some (slug, n) ->
  slug <> "" /\ all is_slug_char slug = true /\ n <> "" /\ all is_digit n = true
  /\ (p = "/" ++ slug ++ "/" ++ n \/ p = "/" ++ slug ++ "/" ++ n ++ String newline "").
Proof.
  unfold category_pattern.
  destruct (after_prefix "/" p) as [r|] eqn:E1; [|discriminate].
  apply after_prefix_spec in E1 as ->.
  destruct (span is_slug_char r) as [s r1] eqn:E2.
  apply span_spec in E2 as (-> & Hs & _).
  destruct (String.eqb_spec s "") as [->|Hne]; [discriminate|].
  destruct (after_prefix "/" r1) as [r2|] eqn:E3; [|discriminate].
  apply after_prefix_spec in E3 as ->.
  destruct (digits_dollar r2) as [g|] eqn:E4; [|discriminate].
  intros [= -> ->].
  apply digits_dollar_spec in E4 as (Hn & Hd & [-> | ->]); auto 10.
Qed.

Lemma category_path_not_home slug n :
  slug <> "" -> (("/" ++ slug ++ "/" ++ n) =? "/") || (("/" ++ slug ++ "/" ++ n) =? "") = false.
Proof.
  intros H. destruct slug as [|a s]; [now elim H|]. reflexivity.
Qed.

End SplitFacts.

(** ** More on the URL classifier *)

Module FilterFacts.
Import Str Re Urllib StrFacts ReFacts UrllibFacts UrljoinFacts PageFacts SplitFacts.

Lemma valid_domain_parsed url :
  is_valid_domain url = Ok true ->
  exists parsed, urlparse url = Ok parsed.
Proof.
  unfold is_valid_domain. destruct (urlparse url) as [parsed|e]; [eauto|discriminate].
Qed.

Lemma home_path_no_product p :
  (p =? "/") || (p =? "") = true -> search product_suffix_at p = None.
Proof.
  destruct (String.eqb_spec p "/") as [->|_]; [reflexivity|].
  destruct (String.eqb_spec p "") as [->|_]; [reflexivity|discriminate].
Qed.

Lemma home_path_no_category p :
  (p =? "/") || (p =? "") = true -> category_pattern p = None.
Proof.
  destruct (String.eqb_spec p "/") as [->|_]; [reflexivity|].
  destruct (String.eqb_spec p "") as [->|_]; [reflexivity|discriminate].
Qed.

Lemma classify_result url t : classify_url url = Ok t -> t <> PAGINATION.
Proof.
  unfold classify_url.
  destruct (is_valid_domain url) as [valid|e]; [|discriminate].
  cbn [mbind result_bind].
  destruct valid; cbn [negb]; [|intros [= <-]; discriminate].
  destruct (urlparse url) as [parsed|e]; [|discriminate].
  cbn [mbind result_bind].
  destruct (_ || _); [intros [= <-]; discriminate|].
  destruct (search _ _); [intros [= <-]; discriminate|].
  destruct (category_pattern _) as [[c n]|]; [|intros [= <-]; discriminate].
  destruct (Nat.eqb _ _); intros [= <-]; discriminate.
Qed.

(** X1: [classify_url] never answers Pagination, whatever the URL: the
    member of [URLType] is defined and never used. *)
Theorem classify_never_pagination url : classify_url url <> Ok PAGINATION.
Proof. intros H. now apply classify_result in H. Qed.

(** X2: [should_crawl] accepts a URL exactly when [classify_url] gives it a
    type other than Invalid, refuses it exactly when the type is Invalid, and
    raises exactly when [classify_url] raises. *)
Theorem should_crawl_iff_not_invalid url :
  (should_crawl url = Ok true <-> exists t, classify_url url = Ok t /\ t <> INVALID)
  /\ (should_crawl url = Ok false <-> classify_url url = Ok INVALID)
  /\ (forall e, should_crawl url = Raise e <-> classify_url url = Raise e).
Proof.
  pose proof (classify_result url) as Hp.
  unfold should_crawl. destruct (classify_url url) as [t|e0]; cbn [mbind result_bind].
  - destruct t; try (now elim (Hp _ eq_refl));
      (split; [|split]);
      try (split; [intros _; eexists; split; [reflexivity|discriminate] | reflexivity]);
      try (split; discriminate);
      try (intros e; split; discriminate).
    + split; [discriminate|]. intros (t & [= <-] & Hne). now elim Hne.
    + split; reflexivity.
  - split; [|split].
    + split; [discriminate|]. intros (t & H & _). discriminate H.
    + split; discriminate.
    + intros e. split; intros [= ->]; reflexivity.
Qed.

(** X3: [extract_product_id] returns [id] exactly when the path of the URL
    ends with a dash, the letter d and the non-empty run of digits [id]; the
    host plays no part. *)
Theorem extract_product_id_iff url parsed id :
  urlparse url = Ok parsed ->
  (extract_product_id url = Ok (Some id)
   <-> id <> "" /\ all is_digit id = true /\ exists pre, path parsed = pre ++ "-d" ++ id).
Proof.
  intros Hparse. unfold extract_product_id. rewrite Hparse. cbn [mbind result_bind].
  split.
  - intros [= H]. apply search_product_suffix_spec in H as (Hne & Hd & pre & [H|H]).
    + eauto.
    + exfalso. pose proof (path_no_newline _ _ Hparse) as Hn. rewrite H in Hn.
      apply (no_newline_suffix (pre ++ "-d") id).
      now rewrite append_assoc.
  - intros (Hne & Hd & pre & ->). now rewrite search_product_suffix.
Qed.

Lemma extract_product_id_iff_witness :
  extract_product_id "https://www.ouedkniss.com/samsung-galaxy-d42?ref=home" = Ok (Some "42").
Proof.
  apply (proj2 (extract_product_id_iff
                  "https://www.ouedkniss.com/samsung-galaxy-d42?ref=home"
                  (mkParse "https" "www.ouedkniss.com" "/samsung-galaxy-d42" "" "ref=home" "")
                  "42" eq_refl)).
  split; [discriminate|]. split; [reflexivity|]. now exists "/samsung-galaxy".
Defined.



Lemma category_path url parsed slug ds :
  urlparse url = Ok parsed ->
  category_pattern (path parsed) = Some (slug, ds) ->
  slug <> "" /\ all is_slug_char slug = true /\ ds <> "" /\ all is_digit ds = true
  /\ path parsed = "/" ++ slug ++ "/" ++ ds.
Proof.
  intros Hparse Hpat.
  apply category_pattern_spec in Hpat as (Hne & Hs & Hn & Hd & Hpath).
  repeat split; auto.
  destruct Hpath as [H|H]; [exact H|].
  exfalso. pose proof (path_no_newline _ _ Hparse) as Hnl. rewrite H in Hnl.
  apply (no_newline_suffix ("/" ++ slug ++ "/") ds).
  now rewrite !append_assoc.
Qed.

Lemma category_info_spec url categories n :
  extract_category_info url = Ok (Some (categories, n)) ->
  exists parsed ds,
    urlparse url = Ok parsed
    /\ path parsed = "/" ++ join "-" categories ++ "/" ++ ds
    /\ ds <> "" /\ all is_digit ds = true
    /\ int ds = Ok n /\ (0 <= n)%Z
    /\ categories <> []
    /\ Forall (fun w => all is_lower w = true) categories
    /\ join "-" categories <> "".
Proof.
  unfold extract_category_info.
  destruct (urlparse url) as [parsed|e] eqn:Hparse; [|discriminate].
  cbn [mbind result_bind].
  destruct (category_pattern (path parsed)) as [[slug ds]|] eqn:Hpat; [|discriminate].
  destruct (int ds) as [k|e] eqn:Hint; [|discriminate]. cbn [mbind result_bind].
  intros [= <- <-].
  destruct (category_path _ _ _ _ Hparse Hpat) as (Hne & Hs & Hn & Hd & Hp).
  apply int_value in Hint as Hk. destruct Hk as [-> _].
  exists parsed, ds. rewrite join_split.
  repeat split; auto using digits_value_nonneg, split_nonempty, split_lower.
Qed.

(** X5: what [extract_category_info] returns describes the path: the path is
    a slash, the categories joined by dashes, a slash and a non-empty run of
    digits whose value is the page number; the page number is not negative,
    there is at least one category, and every category is made of lower-case
    letters only (it may be empty). *)
Theorem extract_category_info_sound url categories n :
  extract_category_info url = Ok (Some (categories, n)) ->
  exists parsed ds,
    urlparse url = Ok parsed
    /\ path parsed = "/" ++ join "-" categories ++ "/" ++ ds
    /\ ds <> "" /\ all is_digit ds = true
    /\ int ds = Ok n /\ (0 <= n)%Z
    /\ categories <> []
    /\ Forall (fun w => all is_lower w = true) categories.
Proof.
  intros H. destruct (category_info_spec _ _ _ H)
    as (parsed & ds & H1 & H2 & H3 & H4 & H5 & H6 & H7 & H8 & _).
  exists parsed, ds. auto 10.
Qed.

Lemma extract_category_info_sound_witness :
  exists parsed ds,
    urlparse "https://www.ouedkniss.com/informatique-pc-portable/12" = Ok parsed
    /\ path parsed = "/" ++ join "-" ["informatique"; "pc"; "portable"] ++ "/" ++ ds
    /\ ds <> "" /\ all is_digit ds = true
    /\ int ds = Ok 12%Z /\ (0 <= 12)%Z
    /\ ["informatique"; "pc"; "portable"] <> []
    /\ Forall (fun w => all is_lower w = true) ["informatique"; "pc"; "portable"].
Proof.
  apply (extract_category_info_sound
           "https://www.ouedkniss.com/informatique-pc-portable/12").
  reflexivity.
Defined.

Lemma classify_category_shape url parsed slug ds :
  urlparse url = Ok parsed ->
  is_valid_domain url = Ok true ->
  category_pattern (path parsed) = Some (slug, ds) ->
  classify_url url = Ok (if Nat.eqb (count "-" slug) 0 then CATEGORY else SUBCATEGORY).
Proof.
  intros Hparse Hvalid Hpat.
  destruct (category_path _ _ _ _ Hparse Hpat) as (Hne & Hs & Hn & Hd & Hp).
  unfold classify_url. rewrite Hvalid, Hparse. cbn [mbind result_bind negb].
  rewrite Hpat. rewrite Hp.
  rewrite (category_path_not_home slug ds Hne).
  change ("/" ++ slug ++ "/" ++ ds) with (("/" ++ slug) ++ "/" ++ ds).
  rewrite (search_slash_digits_none _ _ Hd).
  now destruct (Nat.eqb _ _).
Qed.

Lemma classify_no_category url parsed :
  urlparse url = Ok parsed ->
  category_pattern (path parsed) = None ->
  classify_url url <> Ok CATEGORY /\ classify_url url <> Ok SUBCATEGORY.
Proof.
  intros Hparse Hpat. unfold classify_url.
  destruct (is_valid_domain url) as [[]|]; cbn [mbind result_bind negb];
    [|split; discriminate|split; discriminate].
  rewrite Hparse. cbn [mbind result_bind]. rewrite Hpat.
  destruct (_ || _); [split; discriminate|].
  destruct (search _ _); split; discriminate.
Qed.

Lemma extract_category_info_pattern url parsed :
  urlparse url = Ok parsed ->
  extract_category_info url
  = match category_pattern (path parsed) with
    | None => Ok None
    | Some (slug, page_num) => n ← int page_num; Ok (Some (split "-" slug, n))
    end.
Proof.
  intros H. unfold extract_category_info. rewrite H. cbn [mbind result_bind].
  now destruct (category_pattern (path parsed)) as [[slug page_num]|].
Qed.

(** X6: on the site's hosts the classifier and [extract_category_info]
    agree whenever [extract_category_info] returns: Category exactly when
    one category is extracted, Subcategory exactly when two or more are.
    When [extract_category_info] raises, the URL is still classified
    Category or Subcategory: its path has the category shape with a page
    number of more than 4300 digits, which [int] refuses and the classifier
    never converts. *)
Theorem classify_category_iff_info url :
  is_valid_domain url = Ok true ->
  (forall info,
     extract_category_info url = Ok info ->
     (classify_url url = Ok CATEGORY <-> exists c n, info = Some ([c], n))
     /\ (classify_url url = Ok SUBCATEGORY
         <-> exists categories n,
               info = Some (categories, n) /\ 2 <= length categories))
  /\ (raises (extract_category_info url) ->
      (classify_url url = Ok CATEGORY \/ classify_url url = Ok SUBCATEGORY)
      /\ exists parsed slug page_num,
           urlparse url = Ok parsed
           /\ category_pattern (path parsed) = Some (slug, page_num)
           /\ (max_str_digits < Z.of_nat (String.length page_num))%Z).
Proof.
  intros Hvalid. destruct (valid_domain_parsed _ Hvalid) as [parsed Hparse].
  rewrite (extract_category_info_pattern _ _ Hparse).
  destruct (category_pattern (path parsed)) as [[slug ds]|] eqn:Hpat.
  - rewrite (classify_category_shape _ _ _ _ Hparse Hvalid Hpat).
    pose proof (split_length "-" slug) as Hlen.
    split.
    + intros info Hinfo.
      destruct (int ds) as [k|e]; [|discriminate Hinfo].
      cbn [mbind result_bind] in Hinfo. injection Hinfo as <-.
      destruct (count "-" slug) as [|j] eqn:Hc; cbn [Nat.eqb].
      * split.
        -- split; [intros _|reflexivity].
           destruct (split "-" slug) as [|c [|c' l]] eqn:E; try discriminate Hlen.
           eauto.
        -- split; [discriminate|].
           intros (cats & n & [= <- _] & Hl). rewrite Hlen in Hl. lia.
      * split.
        -- split; [discriminate|].
           intros (c & n & [= E _]). rewrite E in Hlen. discriminate Hlen.
        -- split; [intros _|reflexivity].
           eexists _, _. split; [reflexivity|]. rewrite Hlen. lia.
    + intros [e He]. split; [destruct (Nat.eqb _ _); auto|].
      exists parsed, slug, ds. split; [exact Hparse|]. split; [exact Hpat|].
      destruct (int_cases ds) as [[_ Hok]|[Hlim _]]; [|exact Hlim].
      rewrite Hok in He. discriminate He.
  - destruct (classify_no_category _ _ Hparse Hpat) as [Hc Hs].
    split.
    + intros info [= <-].
      split; (split; [intros H; contradiction|]).
      * intros (? & ? & H). discriminate H.
      * intros (? & ? & H & _). discriminate H.
    + intros [e He]. discriminate He.
Qed.

Lemma classify_category_iff_info_witness :
  classify_url "https://www.ouedkniss.com/informatique/3" = Ok CATEGORY
  /\ classify_url "https://www.ouedkniss.com/informatique-pc/3" = Ok SUBCATEGORY.
Proof.
  split.
  - apply (proj2 (proj1 (proj1 (classify_category_iff_info
                                  "https://www.ouedkniss.com/informatique/3" eq_refl)
                           (Some (["informatique"], 3%Z)) eq_refl))).
    now exists "informatique", 3%Z.
  - apply (proj2 (proj2 (proj1 (classify_category_iff_info
                                  "https://www.ouedkniss.com/informatique-pc/3" eq_refl)
                           (Some (["informatique"; "pc"], 3%Z)) eq_refl))).
    exists ["informatique"; "pc"], 3%Z. split; [reflexivity|]. simpl. lia.
Defined.

End FilterFacts.

(** ** normalize_url, again *)

Module NormalizeFacts.
Import Str Re Urllib StrFacts ReFacts UrllibFacts UrljoinFacts PageFacts SplitFacts.

Lemma urlunsplit_https host url q frag :
  exists rest, urlunsplit "https" host url q frag = "https:" ++ rest.
Proof.
  unfold urlunsplit.
  change (negb ("https" =? "")) with true. cbv iota.
  match goal with
  | |- context [("https" ++ ":" ++ ?X)] => generalize X
  end.
  intros x. change ("https" ++ ":" ++ x) with ("https:" ++ x).
  destruct (negb (q =? "")), (negb (frag =? "")); rewrite ?append_assoc; eauto.
Qed.

Lemma urlunparse_https host p prm q frag :
  exists rest, urlunparse (mkParse "https" host p prm q frag) = "https:" ++ rest.
Proof. unfold urlunparse. apply urlunsplit_https. Qed.

Lemma urlparse_with_slash_scheme rest d u :
  urlparse_with (String "/" rest) d = Ok u -> scheme u = remove_unsafe d.
Proof.
  unfold urlparse_with, urlsplit.
  change (remove_unsafe (String "/" rest)) with (String "/" (remove_unsafe rest)).
  rewrite split_scheme_slash.
  destruct (split_netloc _) as [[host u1]|e]; [|discriminate].
  cbn [mbind result_bind].
  destruct (cut "#" u1) as [u2 frag]. destruct (cut "?" u2) as [u3 q].
  cbn [mbind result_bind scheme netloc path params query fragment].
  destruct (_ && _).
  - destruct (splitparams u3). now intros [= <-].
  - now intros [= <-].
Qed.

Lemma urljoin_site_slash rest url :
  urljoin "https://www.ouedkniss.com" (String "/" rest) = Ok url ->
  exists tail, url = "https:" ++ tail.
Proof.
  unfold urljoin.
  change ("https://www.ouedkniss.com" =? "") with false.
  change (String "/" rest =? "") with false. cbv iota.
  rewrite base_parsed. unfold mbind at 1, result_bind at 1. simpl scheme.
  destruct (urlparse_with (String "/" rest) "https") as [u|e] eqn:Hu; [|discriminate].
  apply urlparse_with_slash_scheme in Hu.
  change (remove_unsafe "https") with "https" in Hu.
  cbn [mbind result_bind]. rewrite Hu.
  change ("https" =? "https") with true.
  change (mem "https" uses_relative) with true.
  change (mem "https" uses_netloc) with true.
  cbn [negb orb andb netloc path params query fragment].
  destruct (negb (netloc u =? "")).
  - intros [= <-]. destruct u as [s h p prm q f]. cbn [scheme] in Hu. subst s.
    apply urlunparse_https.
  - destruct (_ && _); intros [= <-]; apply urlunparse_https.
Qed.

(** X7: with the default base URL, what [normalize_url] returns never
    begins with a slash, and normalising it again changes nothing. *)
Theorem normalize_url_idempotent url normalized :
  normalize_url default_filter url = Ok normalized ->
  startswith "/" normalized = false
  /\ normalize_url default_filter normalized = Ok normalized.
Proof.
  unfold normalize_url at 1. cbn [base_url default_filter].
  destruct (startswith "/" url) eqn:Hs.
  - apply startswith_slash in Hs as [rest ->]. intros H.
    apply urljoin_site_slash in H as [tail ->].
    split; reflexivity.
  - intros [= <-]. split; [exact Hs|]. unfold normalize_url. now rewrite Hs.
Qed.

Lemma normalize_url_idempotent_witness :
  startswith "/" "https://www.ouedkniss.com/informatique/1" = false
  /\ normalize_url default_filter "https://www.ouedkniss.com/informatique/1"
     = Ok "https://www.ouedkniss.com/informatique/1".
Proof.
  apply (normalize_url_idempotent "/informatique/1"). reflexivity.
Defined.

End NormalizeFacts.

(** ** Page numbers as text *)

Module PrettyFacts.
Import Str Re Urllib StrFacts ReFacts UrllibFacts UrljoinFacts PageFacts SplitFacts.

Lemma pretty_N_char_digit x :
  (x < 10)%N ->
  is_digit (pretty_N_char x) = true /\ digit_value (pretty_N_char x) = Z.of_N x.
Proof.
  intros H.
  assert (x = 0 \/ x = 1 \/ x = 2 \/ x = 3 \/ x = 4 \/ x = 5 \/ x = 6 \/ x = 7
          \/ x = 8 \/ x = 9)%N as Hx by lia.
  repeat (destruct Hx as [->|Hx]; [split; reflexivity|]). subst. split; reflexivity.
Qed.

Lemma pretty_N_go_value x s :
  value_from 0 (pretty_N_go x s) = value_from (Z.of_N x) s.
Proof.
  revert s. induction (N.lt_wf_0 x) as [x _ IH]; intros s.
  assert (x = 0 \/ 0 < x)%N as [->|Hx] by lia.
  - now rewrite pretty_N_go_0.
  - rewrite pretty_N_go_step by exact Hx.
    rewrite IH by (now apply N.div_lt).
    unfold value_from. cbn [list_ascii_of_string fold_left]. f_equal.
    destruct (pretty_N_char_digit (x mod 10)) as [_ ->]; [now apply N.mod_lt|].
    rewrite (N.div_mod x 10) at 3 by discriminate. lia.
Qed.

Lemma pretty_N_go_digits x s :
  all is_digit s = true -> all is_digit (pretty_N_go x s) = true.
Proof.
  revert s. induction (N.lt_wf_0 x) as [x _ IH]; intros s Hs.
  assert (x = 0 \/ 0 < x)%N as [->|Hx] by lia.
  - now rewrite pretty_N_go_0.
  - rewrite pretty_N_go_step by exact Hx.
    apply IH; [now apply N.div_lt|].
    cbn [all]. rewrite Hs, andb_true_r.
    now destruct (pretty_N_char_digit (x mod 10)) as [-> _]; [apply N.mod_lt|].
Qed.

Lemma pretty_N_go_nonempty x s : s <> "" -> pretty_N_go x s <> "".
Proof.
  revert s. induction (N.lt_wf_0 x) as [x _ IH]; intros s Hs.
  assert (x = 0 \/ 0 < x)%N as [->|Hx] by lia.
  - now rewrite pretty_N_go_0.
  - rewrite pretty_N_go_step by exact Hx.
    apply IH; [now apply N.div_lt|discriminate].
Qed.

(** the decimal text of a page number: digits only, and [int] reads the
    number back *)
Lemma pretty_page (k : Z) :
  (0 <= k)%Z ->
  pretty k <> "" /\ all is_digit (pretty k) = true /\ digits_value (pretty k) = k.
Proof.
  intros Hk. destruct k as [|p|p]; [repeat split; discriminate| |lia].
  change (pretty (Z.pos p)) with (pretty_N_go (N.pos p) "").
  split; [|split].
  - rewrite pretty_N_go_step by reflexivity. apply pretty_N_go_nonempty. discriminate.
  - now apply pretty_N_go_digits.
  - change (digits_value ?s) with (value_from 0 s). now rewrite pretty_N_go_value.
Qed.

Lemma split_no_sep c s : contains c s = false -> split c s = [s].
Proof.
  induction s as [|a s IH]; [reflexivity|].
  cbn [contains split]. intros H. apply orb_false_iff in H as [Ha Hs].
  rewrite Ha, (IH Hs). reflexivity.
Qed.

Lemma lower_is_slug s : all is_lower s = true -> all is_slug_char s = true.
Proof. apply all_impl. intros c H. unfold is_slug_char. now rewrite H. Qed.

Lemma lower_no_dash s : all is_lower s = true -> contains "-" s = false.
Proof. intros H. now apply (all_contains _ _ _ H). Qed.

Lemma lower_is_path s : all is_lower s = true -> all path_char s = true.
Proof. apply all_impl. intros c H. unfold path_char. now rewrite H. Qed.

Lemma page_tail_chars base k :
  all path_char base = true -> (0 <= k)%Z ->
  all (fun c => path_char c || is_digit c) (base ++ "/" ++ pretty k) = true.
Proof.
  intros Hb Hk. destruct (pretty_page k Hk) as (_ & Hd & _).
  rewrite !all_app. apply andb_true_iff. split; [|apply andb_true_iff; split].
  - revert Hb. apply all_impl. now intros c ->.
  - reflexivity.
  - revert Hd. apply all_impl. intros c ->. apply orb_true_r.
Qed.

Lemma page_url_parsed config base k :
  BASE_URL config = "https://www.ouedkniss.com" ->
  all path_char base = true -> (0 <= k)%Z ->
  urlparse (page_url config base k)
  = Ok (mkParse "https" "www.ouedkniss.com" ("/" ++ base ++ "/" ++ pretty k) "" "" "").
Proof.
  intros Hsite Hb Hk. rewrite (page_url_site _ _ _ Hsite).
  now rewrite urlparse_site_path by now apply page_tail_chars.
Qed.

End PrettyFacts.

(** ** The page URLs that crawl_category builds *)

Module PageUrlFacts.
Import Str Re Urllib StrFacts ReFacts UrllibFacts UrljoinFacts PageFacts SplitFacts.
Import FilterFacts PrettyFacts.

Lemma join_two_contains sep a b l :
  contains sep (join (String sep "") (a :: b :: l)) = true.
Proof.
  cbn [join]. rewrite contains_app. apply orb_true_iff. right.
  simpl. now rewrite Ascii.eqb_refl.
Qed.

Lemma category_pattern_nested h rest n :
  all is_lower h = true ->
  category_pattern ("/" ++ (h ++ "/" ++ rest) ++ "/" ++ n) = None.
Proof.
  intros Hh. unfold category_pattern.
  rewrite after_prefix_app. rewrite !append_assoc.
  rewrite (span_app is_slug_char h ("/" ++ rest ++ "/" ++ n));
    [|now apply lower_is_slug|reflexivity].
  destruct (h =? ""); [reflexivity|].
  rewrite after_prefix_app.
  rewrite (digits_dollar_refuses "/"); [reflexivity| |reflexivity|discriminate].
  rewrite contains_app. apply orb_true_iff. right. simpl. reflexivity.
Qed.

Lemma page_path_not_home base ds :
  (("/" ++ base ++ "/" ++ ds) =? "/") || (("/" ++ base ++ "/" ++ ds) =? "") = false.
Proof. destruct base; reflexivity. Qed.

Lemma page_url_valid config base k :
  BASE_URL config = "https://www.ouedkniss.com" ->
  all path_char base = true -> (0 <= k)%Z ->
  is_valid_domain (page_url config base k) = Ok true.
Proof.
  intros Hsite Hb Hk.
  now rewrite (is_valid_domain_parsed _ _ (page_url_parsed _ _ _ Hsite Hb Hk)).
Qed.



(** X9: for a start URL of a subcategory, the page URLs that
    [crawl_category] builds put a slash between the categories, and the
    filter rejects every one of them: [classify_url] answers Invalid,
    [extract_category_info] finds nothing and [should_crawl] refuses. *)
Theorem page_url_of_subcategory config category_url categories n k :
  BASE_URL config = "https://www.ouedkniss.com" ->
  extract_category_info category_url = Ok (Some (categories, n)) ->
  2 <= length categories ->
  (0 <= k)%Z ->
  classify_url (page_url config (join "/" categories) k) = Ok INVALID
  /\ extract_category_info (page_url config (join "/" categories) k) = Ok None
  /\ should_crawl (page_url config (join "/" categories) k) = Ok false.
Proof.
  intros Hsite Hinfo Hlen Hk.
  pose proof (extract_category_info_chars _ _ _ Hinfo) as Hchars.
  destruct (category_info_spec _ _ _ Hinfo)
    as (_ & _ & _ & _ & _ & _ & _ & _ & _ & Hlow & _).
  destruct categories as [|h [|h2 l]]; cbn [length] in Hlen; [lia|lia|].
  inversion Hlow as [|? ? Hh _]; subst.
  set (base := join "/" (h :: h2 :: l)) in *.
  pose proof (page_url_parsed config base k Hsite Hchars Hk) as Hparse.
  pose proof (page_url_valid config base k Hsite Hchars Hk) as Hvalid.
  destruct (pretty_page k Hk) as (Hpne & Hpd & Hint).
  assert (Hpat : category_pattern ("/" ++ base ++ "/" ++ pretty k) = None).
  { subst base. cbn [join]. now apply category_pattern_nested. }
  assert (Hcl : classify_url (page_url config base k) = Ok INVALID).
  { unfold classify_url. rewrite Hvalid, Hparse. cbn [mbind result_bind negb path].
    rewrite page_path_not_home.
    change ("/" ++ base ++ "/" ++ pretty k) with (("/" ++ base) ++ "/" ++ pretty k) at 1.
    rewrite (search_slash_digits_none _ _ Hpd). now rewrite Hpat. }
  split; [exact Hcl|]. split.
  - unfold extract_category_info. rewrite Hparse. cbn [mbind result_bind path].
    now rewrite Hpat.
  - unfold should_crawl. now rewrite Hcl.
Qed.

Lemma page_url_of_subcategory_witness :
  classify_url (page_url default_config (join "/" ["informatique"; "pc"]) 1) = Ok INVALID
  /\ extract_category_info (page_url default_config (join "/" ["informatique"; "pc"]) 1)
     = Ok None
  /\ should_crawl (page_url default_config (join "/" ["informatique"; "pc"]) 1) = Ok false.
Proof.
  apply (page_url_of_subcategory default_config
           "https://www.ouedkniss.com/informatique-pc/4" ["informatique"; "pc"] 4 1);
    [reflexivity | reflexivity | simpl; lia | lia].
Defined.

End PageUrlFacts.

(** ** More on the fetch layer *)

Section FetchOutcome.

Context (config : ScraperConfig) (server : nat -> string -> outcome).

Local Abbreviation attempts := (fetch_attempts config server).
Local Abbreviation fetch := (fetch_page config server).

Lemma all_requests_to url n attempt st :
  exists evs,
    trace (attempts n attempt url st).2 = (trace st ++ evs)%list
    /\ Forall (eq url) (requested evs).
Proof.
  revert attempt st. induction n as [|n IH]; intros attempt st.
  { exists []. simpl. rewrite app_nil_r. split; [reflexivity|constructor]. }
  assert (Hretry : forall ev,
    requested [ev] = [] ->
    exists evs,
      trace (attempts n (attempt + 1) url
               (if (attempt <? MAX_RETRIES config - 1)%Z
                then emit [Sleep (inject_Z (2 ^ attempt))]
                       (emit [ev] (sent (emit [Sleep (RATE_LIMIT_DELAY config); Get url] st)))
                else emit [ev] (sent (emit [Sleep (RATE_LIMIT_DELAY config); Get url] st)))).2
      = (trace st ++ evs)%list
      /\ Forall (eq url) (requested evs)).
  { intros ev Hr.
    destruct (attempt <? MAX_RETRIES config - 1)%Z.
    - destruct (IH (attempt + 1)%Z
                  (emit [Sleep (inject_Z (2 ^ attempt))]
                     (emit [ev] (sent (emit [Sleep (RATE_LIMIT_DELAY config); Get url] st)))))
        as (evs & Ht & Hall).
      exists ([Sleep (RATE_LIMIT_DELAY config); Get url] ++ [ev]
              ++ [Sleep (inject_Z (2 ^ attempt))] ++ evs)%list.
      rewrite Ht. simpl trace. rewrite !requested_app, Hr, <- !app_assoc.
      split; [reflexivity|]. simpl. now constructor.
    - destruct (IH (attempt + 1)%Z
                  (emit [ev] (sent (emit [Sleep (RATE_LIMIT_DELAY config); Get url] st))))
        as (evs & Ht & Hall).
      exists ([Sleep (RATE_LIMIT_DELAY config); Get url] ++ [ev] ++ evs)%list.
      rewrite Ht. simpl trace. rewrite !requested_app, Hr, <- !app_assoc.
      split; [reflexivity|]. simpl. now constructor. }
  simpl fetch_attempts.
  destruct (server (requests st) url) as [status text|[]].
  - destruct (status =? 200)%Z.
    + exists [Sleep (RATE_LIMIT_DELAY config); Get url]. simpl.
      split; [reflexivity|]. now repeat constructor.
    + destruct (status =? 404)%Z.
      * exists [Sleep (RATE_LIMIT_DELAY config); Get url; Log WARNING (PageNotFound url)].
        simpl. rewrite <- app_assoc. split; [reflexivity|]. now repeat constructor.
      * apply Hretry; reflexivity.
  - apply Hretry; reflexivity.
  - apply Hretry; reflexivity.
Qed.

Lemma fetch_attempts_success n attempt url st j text :
  j < n ->
  all_replies retryable server url (requests st) j = true ->
  server (requests st + j) url = Response 200 text ->
  exists st',
    attempts n attempt url st = (Some text, st')
    /\ requests st' = requests st + S j.
Proof.
  revert n attempt st. induction j as [|j IH]; intros n attempt st Hlt Hall Hrep.
  - destruct n as [|n]; [lia|]. rewrite Nat.add_0_r in Hrep.
    simpl. rewrite Hrep. change (200 =? 200)%Z with true. cbv iota.
    eexists. split; [reflexivity|]. simpl. lia.
  - destruct n as [|n]; [lia|]. cbn [all_replies] in Hall.
    apply andb_true_iff in Hall as [Hre Hall].
    rewrite (fetch_attempts_retry config server n attempt url st _ Hre eq_refl).
    cbv zeta.
    match goal with
    | |- context [fetch_attempts _ _ _ _ _ ?S] => set (st2 := S)
    end.
    assert (Hreq : requests st2 = S (requests st))
      by (subst st2; now destruct (_ <? _)%Z).
    destruct (IH n (attempt + 1)%Z st2) as (st' & Hf & Hr).
    + lia.
    + now rewrite Hreq.
    + rewrite Hreq. now replace (S (requests st) + j) with (requests st + S j) by lia.
    + exists st'. split; [exact Hf|]. rewrite Hr, Hreq. lia.
Qed.

Lemma fetch_attempts_success_inv n attempt url st text :
  (attempts n attempt url st).1 = Some text ->
  exists j,
    j < n
    /\ all_replies retryable server url (requests st) j = true
    /\ server (requests st + j) url = Response 200 text.
Proof.
  revert attempt st. induction n as [|n IH]; intros attempt st; [discriminate|].
  destruct (retryable (server (requests st) url)) eqn:Hre.
  - rewrite (fetch_attempts_retry config server n attempt url st _ Hre eq_refl).
    cbv zeta.
    match goal with
    | |- context [fetch_attempts _ _ _ _ _ ?S] => set (st2 := S)
    end.
    assert (Hreq : requests st2 = S (requests st))
      by (subst st2; now destruct (_ <? _)%Z).
    intros H. destruct (IH _ _ H) as (j & Hlt & Hall & Hrep).
    rewrite Hreq in Hall, Hrep.
    exists (S j). split; [lia|]. split.
    + cbn [all_replies]. now rewrite Hre, Hall.
    + now replace (requests st + S j) with (S (requests st) + j) by lia.
  - simpl. destruct (server (requests st) url) as [status body|e] eqn:Hrep;
      [|discriminate Hre].
    cbn [retryable] in Hre.
    destruct (status =? 200)%Z eqn:H200.
    + intros [= ->]. apply Z.eqb_eq in H200 as ->.
      exists 0. split; [lia|]. split; [reflexivity|]. now rewrite Nat.add_0_r.
    + destruct (status =? 404)%Z; [discriminate|discriminate Hre].
Qed.

Lemma fetch_attempts_not_found n attempt url st j body :
  j < n ->
  all_replies retryable server url (requests st) j = true ->
  server (requests st + j) url = Response 404 body ->
  exists st',
    attempts n attempt url st = (None, st')
    /\ requests st' = requests st + S j.
Proof.
  revert n attempt st. induction j as [|j IH]; intros n attempt st Hlt Hall Hrep.
  - destruct n as [|n]; [lia|]. rewrite Nat.add_0_r in Hrep.
    simpl. rewrite Hrep. change (404 =? 200)%Z with false.
    change (404 =? 404)%Z with true. cbv iota.
    eexists. split; [reflexivity|]. simpl. lia.
  - destruct n as [|n]; [lia|]. cbn [all_replies] in Hall.
    apply andb_true_iff in Hall as [Hre Hall].
    rewrite (fetch_attempts_retry config server n attempt url st _ Hre eq_refl).
    cbv zeta.
    match goal with
    | |- context [fetch_attempts _ _ _ _ _ ?S] => set (st2 := S)
    end.
    assert (Hreq : requests st2 = S (requests st))
      by (subst st2; now destruct (_ <? _)%Z).
    destruct (IH n (attempt + 1)%Z st2) as (st' & Hf & Hr).
    + lia.
    + now rewrite Hreq.
    + rewrite Hreq. now replace (S (requests st) + j) with (requests st + S j) by lia.
    + exists st'. split; [exact Hf|]. rewrite Hr, Hreq. lia.
Qed.

Lemma fetch_attempts_exhausted n attempt url st :
  all_replies retryable server url (requests st) n = true ->
  exists st',
    attempts n attempt url st = (None, st')
    /\ requests st' = requests st + n.
Proof.
  revert attempt st. induction n as [|n IH]; intros attempt st Hall.
  - exists st. split; [reflexivity|lia].
  - cbn [all_replies] in Hall. apply andb_true_iff in Hall as [Hre Hall].
    rewrite (fetch_attempts_retry config server n attempt url st _ Hre eq_refl).
    cbv zeta.
    match goal with
    | |- context [fetch_attempts _ _ _ _ _ ?S] => set (st2 := S)
    end.
    assert (Hreq : requests st2 = S (requests st))
      by (subst st2; now destruct (_ <? _)%Z).
    destruct (IH (attempt + 1)%Z st2) as (st' & Hf & Hr); [now rewrite Hreq|].
    exists st'. split; [exact Hf|]. rewrite Hr, Hreq. lia.
Qed.

(** X10: whatever the configuration, one call of [fetch_page] sends at most
    [MAX_RETRIES] requests, all of them for the URL it was given, counts each
    of them, and changes neither the visited set nor the product set; with
    [MAX_RETRIES] at zero or below it sends nothing and returns [None]. *)
Theorem fetch_page_bounded url st :
  (exists evs,
     (fetch_page config server url st).2
     = mkState (visited_urls st) (product_urls st)
               (requests st + length (requested evs))
               (trace st ++ FetchPage url :: evs)
     /\ fetched evs = []
     /\ Forall (eq url) (requested evs)
     /\ length (requested evs) <= Z.to_nat (MAX_RETRIES config))
  /\ ((MAX_RETRIES config <= 0)%Z ->
      fetch_page config server url st = (None, emit [FetchPage url] st)).
Proof.
  split.
  - unfold fetch_page.
    destruct (fetch_attempts_frame config server (Z.to_nat (MAX_RETRIES config)) 0 url
                (emit [FetchPage url] st)) as (evs & Ht & Hv & Hp & Hq & Hf & Hle).
    destruct (all_requests_to url (Z.to_nat (MAX_RETRIES config)) 0
                (emit [FetchPage url] st)) as (evs' & Ht' & Hall).
    cbv zeta in *. rewrite Ht in Ht'. apply app_inv_head in Ht'. subst evs'.
    exists evs.
    destruct (fetch_attempts _ _ _ _ _ _).2 as [v p r t].
    cbn [visited_urls product_urls requests trace emit] in *. subst.
    rewrite <- app_assoc. auto.
  - intros Hmax. unfold fetch_page.
    now replace (Z.to_nat (MAX_RETRIES config)) with 0 by lia.
Qed.

(** X11: [fetch_page] returns a text exactly when, among the first
    [MAX_RETRIES] replies to its requests, one with status 200 comes after
    retryable replies only; the text is the body of that reply and no
    request is sent after it. *)
Theorem fetch_page_success_iff url st text :
  ((fetch_page config server url st).1 = Some text
   <-> exists j,
         j < Z.to_nat (MAX_RETRIES config)
         /\ all_replies retryable server url (requests st) j = true
         /\ server (requests st + j) url = Response 200 text)
  /\ (forall j,
        j < Z.to_nat (MAX_RETRIES config) ->
        all_replies retryable server url (requests st) j = true ->
        server (requests st + j) url = Response 200 text ->
        requests (fetch_page config server url st).2 = requests st + S j).
Proof.
  split; [split|].
  - intros H. apply fetch_attempts_success_inv in H. exact H.
  - intros (j & Hlt & Hall & Hrep).
    destruct (fetch_attempts_success _ 0%Z url (emit [FetchPage url] st) j text Hlt Hall Hrep)
      as (st' & Hf & _).
    unfold fetch_page. now rewrite Hf.
  - intros j Hlt Hall Hrep.
    destruct (fetch_attempts_success _ 0%Z url (emit [FetchPage url] st) j text Hlt Hall Hrep)
      as (st' & Hf & Hr).
    unfold fetch_page. now rewrite Hf.
Qed.

(** X12: [fetch_page] gives up in two ways.  A reply with status 404 that
    comes after retryable replies only ends the call at once, also when it
    is not the first reply; [MAX_RETRIES] retryable replies in a row end it
    after exactly [MAX_RETRIES] requests.  Both return [None]. *)
Theorem fetch_page_gives_up url st :
  (forall j body,
     j < Z.to_nat (MAX_RETRIES config) ->
     all_replies retryable server url (requests st) j = true ->
     server (requests st + j) url = Response 404 body ->
     (fetch_page config server url st).1 = None
     /\ requests (fetch_page config server url st).2 = requests st + S j)
  /\ (all_replies retryable server url (requests st)
        (Z.to_nat (MAX_RETRIES config)) = true ->
      (fetch_page config server url st).1 = None
      /\ requests (fetch_page config server url st).2
         = requests st + Z.to_nat (MAX_RETRIES config)).
Proof.
  split.
  - intros j body Hlt Hall Hrep.
    destruct (fetch_attempts_not_found _ 0%Z url (emit [FetchPage url] st) j body Hlt Hall Hrep)
      as (st' & Hf & Hr).
    unfold fetch_page. rewrite Hf. now split.
  - intros Hall.
    destruct (fetch_attempts_exhausted _ 0%Z url (emit [FetchPage url] st) Hall)
      as (st' & Hf & Hr).
    unfold fetch_page. rewrite Hf. now split.
Qed.

End FetchOutcome.

(** ** More on the traversal *)

Section Traversal.

Context (config : ScraperConfig) (url_filter : URLFilter)
        (soup_hrefs : string -> list string)
        (server : nat -> string -> outcome).

Local Abbreviation fetch := (fetch_page config server).
Local Abbreviation links_from := (extract_links_from url_filter).
Local Abbreviation links_of := (extract_links url_filter soup_hrefs).
Local Abbreviation resume := (crawl_page_resume url_filter soup_hrefs).
Local Abbreviation crawl := (crawl_page config url_filter soup_hrefs server).
Local Abbreviation step_of := (step config url_filter soup_hrefs server).
Local Abbreviation run_of := (run config url_filter soup_hrefs server).
Local Abbreviation gather_of := (gather config url_filter soup_hrefs server).
Local Abbreviation category := (crawl_category config url_filter soup_hrefs server).
Local Abbreviation all_categories :=
  (crawl_all_categories config url_filter soup_hrefs server).

(** a link kept by [extract_links]: it comes from an [href] of the page and
    [should_crawl] accepts it *)
Local Abbreviation kept_link hrefs base :=
  (fun link =>
     should_crawl link = Ok true
     /\ exists href absolute_url,
          href ∈ hrefs
          /\ Urllib.urljoin base href = Ok absolute_url
          /\ normalize_url url_filter absolute_url = Ok link).

Lemma extract_links_from_spec hrefs base acc links :
  links_from hrefs base acc = Ok links ->
  exists new,
    links = (acc ++ new)%list
    /\ length new <= length hrefs
    /\ Forall (kept_link hrefs base) new.
Proof.
  revert acc. induction hrefs as [|href rest IH]; intros acc; cbn [extract_links_from].
  - intros [= <-]. exists []. rewrite app_nil_r. repeat split; auto.
  - destruct (Urllib.urljoin base href) as [absolute_url|e] eqn:Hjoin; [|discriminate].
    cbn [mbind result_bind].
    destruct (normalize_url url_filter absolute_url) as [normalized|e] eqn:Hnorm;
      [|discriminate].
    cbn [mbind result_bind].
    destruct (should_crawl normalized) as [crawl|e] eqn:Hcrawl; [|discriminate].
    cbn [mbind result_bind].
    intros H. destruct (IH _ H) as (new & -> & Hlen & Hall).
    assert (Hall' : Forall (kept_link (href :: rest) base) new).
    { eapply Forall_impl; [exact Hall|]. intros l (Hc & h & a & Hin & Hj & Hn).
      split; [exact Hc|]. exists h, a. split; [now apply list_elem_of_further|auto]. }
    destruct crawl.
    + exists (normalized :: new). rewrite <- app_assoc. split; [reflexivity|].
      split; [simpl; lia|]. constructor; [|exact Hall'].
      split; [exact Hcrawl|]. exists href, absolute_url.
      split; [apply list_elem_of_here|auto].
    + exists new. split; [reflexivity|]. split; [simpl; lia|exact Hall'].
Qed.

(** X13: every link that [extract_links] returns is accepted by
    [should_crawl] and is the normalised join of the base URL with an [href]
    of the page; there are no more links than [href]s. *)
Theorem extract_links_kept html base links :
  extract_links url_filter soup_hrefs html base = Ok links ->
  length links <= length (soup_hrefs html)
  /\ Forall (fun link =>
               should_crawl link = Ok true
               /\ exists href absolute_url,
                    href ∈ soup_hrefs html
                    /\ Urllib.urljoin base href = Ok absolute_url
                    /\ normalize_url url_filter absolute_url = Ok link)
            links.
Proof.
  intros H. apply extract_links_from_spec in H as (new & -> & Hlen & Hall).
  now split.
Qed.

Lemma crawl_page_resume_sets url html st :
  let out := resume url html st in
  visited_urls out.2 = visited_urls st
  /\ (product_urls out.2 = product_urls st
      \/ (product_urls out.2 = {[url]} ∪ product_urls st
          /\ classify_url url = Ok PRODUCT /\ out.1 = Ok []))
  /\ (forall links, out.1 = Ok links ->
        Forall (fun link => (link ∉ visited_urls st) /\ should_crawl link = Ok true) links).
Proof.
  unfold crawl_page_resume.
  destruct html as [[|c text]|]; cbn [fst snd];
    try (split; [reflexivity|split; [now left|]]; intros links [= <-]; constructor).
  destruct (classify_url url) as [url_type|e] eqn:Hcl; cbn [fst snd];
    [|split; [reflexivity|split; [now left|discriminate]]].
  destruct (bool_decide_reflect (url_type = PRODUCT)) as [->|Hne]; cbn [fst snd].
  - split; [reflexivity|]. split; [right; auto|].
    intros links [= <-]. constructor.
  - destruct (links_of (String c text) url) as [links0|e] eqn:Hlinks; cbn [fst snd];
      [|split; [reflexivity|split; [now left|discriminate]]].
    split; [reflexivity|]. split; [now left|].
    intros links [= <-]. apply Forall_forall. intros link Hin.
    apply list_elem_of_filter in Hin as [Hnot Hin].
    apply extract_links_from_spec in Hlinks as (new & -> & _ & Hall).
    rewrite Forall_forall in Hall. destruct (Hall _ Hin) as [Hc _].
    split; [|exact Hc].
    unfold visited in Hnot. intros Hv.
    rewrite (bool_decide_eq_true_2 _ Hv) in Hnot. exact Hnot.
Qed.

Lemma crawl_page_resume_events url html st :
  exists evs,
    trace (resume url html st).2 = (trace st ++ evs)%list
    /\ fetched evs = [].
Proof.
  unfold crawl_page_resume.
  destruct html as [[|c text]|]; cbn [fst snd];
    try (exists []; now rewrite app_nil_r).
  destruct (classify_url url) as [url_type|e]; cbn [fst snd];
    [|exists []; now rewrite app_nil_r].
  destruct (bool_decide (url_type = PRODUCT)); cbn [fst snd].
  - now exists [Log INFO (FoundProduct url)].
  - destruct (links_of _ _); cbn [fst snd]; exists []; now rewrite app_nil_r.
Qed.

(** X14: a call of [crawl_page] on a URL not visited before adds the URL to
    the visited set whatever happens next, calls [fetch_page] once, on that
    URL, adds at most that URL to the product set (and then the URL is
    classified Product and no link is returned), and returns only links that
    are not visited and that [should_crawl] accepts. *)
Theorem crawl_page_effects url st :
  url ∉ visited_urls st ->
  let out := crawl_page config url_filter soup_hrefs server url st in
  visited_urls out.2 = {[url]} ∪ visited_urls st
  /\ (exists evs, trace out.2 = (trace st ++ evs)%list /\ fetched evs = [url])
  /\ (product_urls out.2 = product_urls st
      \/ (product_urls out.2 = {[url]} ∪ product_urls st
          /\ classify_url url = Ok PRODUCT /\ out.1 = Ok []))
  /\ (forall links, out.1 = Ok links ->
        Forall (fun link => (link ∉ visited_urls out.2) /\ should_crawl link = Ok true)
               links).
Proof.
  intros Hnew. unfold crawl_page, crawl_page_enter, visited.
  rewrite bool_decide_eq_false_2 by exact Hnew.
  set (st1 := emit [Log INFO (Crawling url)] (visit url st)).
  destruct (fetch_page_frame config server url st1) as (evs & Ht & Hv & Hp & Hf & _).
  destruct (fetch url st1) as [html st2]. cbn [fst snd] in *.
  destruct (crawl_page_resume_sets url html st2) as (Hv2 & Hp2 & Hl2).
  destruct (crawl_page_resume_events url html st2) as (evs2 & Ht2 & Hf2).
  destruct (resume url html st2) as [r st3] eqn:Hres. cbn [fst snd] in *.
  cbv zeta. cbn [fst snd].
  split; [now rewrite Hv2, Hv|]. split; [|split].
  - exists (Log INFO (Crawling url) :: FetchPage url :: evs ++ evs2)%list.
    split.
    + rewrite Ht2, Ht. subst st1. cbn [trace emit visit].
      rewrite <- !app_assoc. reflexivity.
    + change (fetched (Log INFO (Crawling url) :: FetchPage url :: evs ++ evs2)%list)
        with (url :: fetched (evs ++ evs2)%list).
      now rewrite fetched_app, Hf, Hf2.
  - rewrite Hp in Hp2. exact Hp2.
  - intros links Hr. rewrite Hv2. auto.
Qed.

End Traversal.

(** ** The visited set and the product set *)

Lemma grown_same st st' :
  visited_urls st' = visited_urls st ->
  product_urls st' = product_urls st ->
  grown st st'.
Proof.
  intros Hv Hp. unfold grown. rewrite Hv, Hp.
  split; [reflexivity|]. split; [reflexivity|]. intros url H1 H2. contradiction.
Qed.

Lemma grown_trans st1 st2 st3 : grown st1 st2 -> grown st2 st3 -> grown st1 st3.
Proof.
  intros (Hv1 & Hp1 & Hc1) (Hv2 & Hp2 & Hc2).
  split; [now transitivity (visited_urls st2)|].
  split; [now transitivity (product_urls st2)|].
  intros url Hin Hout.
  destruct (decide (url ∈ product_urls st2)) as [H2|H2]; auto.
Qed.

Section Sets.

Context (config : ScraperConfig) (url_filter : URLFilter)
        (soup_hrefs : string -> list string)
        (server : nat -> string -> outcome).

Local Abbreviation fetch := (fetch_page config server).
Local Abbreviation resume := (crawl_page_resume url_filter soup_hrefs).
Local Abbreviation step_of := (step config url_filter soup_hrefs server).
Local Abbreviation run_of := (run config url_filter soup_hrefs server).
Local Abbreviation gather_of := (gather config url_filter soup_hrefs server).
Local Abbreviation category := (crawl_category config url_filter soup_hrefs server).
Local Abbreviation all_categories :=
  (crawl_all_categories config url_filter soup_hrefs server).

(** what a step of a call does to the two sets *)
Lemma step_sets t st :
  product_urls st ⊆ visited_urls st ->
  (forall url, url ∈ in_flight t -> url ∈ visited_urls st) ->
  let out := step_of t st in
  grown st out.2
  /\ product_urls out.2 ⊆ visited_urls out.2
  /\ (forall url, url ∈ in_flight out.1 -> url ∈ visited_urls out.2).
Proof.
  intros Hsub Hflight.
  destruct t as [category_url max|f|f u|products|e]; cbn [step].
  - destruct (extract_category_info category_url) as [[[categories n]|]|e]; cbn;
      (split; [now apply grown_same|split; [exact Hsub|]]);
      intros url Hin; now apply elem_of_nil in Hin.
  - destruct (urls_to_visit f) as [|u rest];
      [cbn; split; [now apply grown_same|split; [exact Hsub|]];
       intros url Hin; now apply elem_of_nil in Hin|].
    destruct (within f);
      [|cbn; split; [now apply grown_same|split; [exact Hsub|]];
        intros url Hin; now apply elem_of_nil in Hin].
    unfold crawl_page_enter, visited.
    destruct (bool_decide_reflect (u ∈ visited_urls st)) as [Hin|Hout]; cbn.
    + split; [now apply grown_same|split; [exact Hsub|]].
      intros url Hu. now apply elem_of_nil in Hu.
    + split; [|split].
      * split; [apply union_subseteq_r|]. split; [reflexivity|].
        intros url H1 H2. contradiction.
      * etransitivity; [exact Hsub|apply union_subseteq_r].
      * intros url Hu. apply list_elem_of_singleton in Hu as ->.
        apply elem_of_union_l, elem_of_singleton. reflexivity.
  - destruct (fetch_page_frame config server u st) as (evs & _ & Hv & Hp & _ & _).
    destruct (fetch u st) as [html st1]. cbn [fst snd] in *.
    destruct (crawl_page_resume_sets url_filter soup_hrefs u html st1) as (Hv2 & Hp2 & _).
    assert (Hu : u ∈ visited_urls st) by (apply Hflight; cbn; apply list_elem_of_here).
    destruct (resume u html st1) as [[new_urls|e] st2];
      cbn [fst snd in_flight] in *;
      rewrite Hv in Hv2; rewrite Hp in Hp2;
      (split; [|split; [|intros url Hin; now apply elem_of_nil in Hin]]).
    + destruct Hp2 as [Hp2|(Hp2 & Hcl & _)].
      * now apply grown_same.
      * split; [now rewrite Hv2|]. split; [rewrite Hp2; apply union_subseteq_r|].
        intros url H1 H2. rewrite Hp2 in H1.
        apply elem_of_union in H1 as [H1|H1]; [|contradiction].
        apply elem_of_singleton in H1 as ->. exact Hcl.
    + rewrite Hv2. destruct Hp2 as [Hp2|(Hp2 & _)]; rewrite Hp2; [exact Hsub|].
      apply union_subseteq. split; [now apply singleton_subseteq_l|exact Hsub].
    + destruct Hp2 as [Hp2|(Hp2 & _ & Habs)]; [|discriminate Habs].
      now apply grown_same.
    + rewrite Hv2. destruct Hp2 as [Hp2|(Hp2 & _)]; rewrite Hp2; [exact Hsub|].
      apply union_subseteq. split; [now apply singleton_subseteq_l|exact Hsub].
  - cbn. split; [now apply grown_same|split; [exact Hsub|]].
    intros url Hin. now apply elem_of_nil in Hin.
  - cbn. split; [now apply grown_same|split; [exact Hsub|]].
    intros url Hin. now apply elem_of_nil in Hin.
Qed.

Lemma run_sets fuel t st :
  product_urls st ⊆ visited_urls st ->
  (forall url, url ∈ in_flight t -> url ∈ visited_urls st) ->
  let out := run_of fuel t st in
  grown st out.2 /\ product_urls out.2 ⊆ visited_urls out.2.
Proof.
  revert t st. induction fuel as [|fuel IH]; intros t st Hsub Hflight; cbn [run].
  - split; [now apply grown_same|exact Hsub].
  - destruct (finished t); [split; [now apply grown_same|exact Hsub]|].
    destruct (step_sets t st Hsub Hflight) as (Hg & Hs & Hf).
    destruct (step_of t st) as [t' st']. cbn [fst snd] in *.
    destruct (IH t' st' Hs Hf) as [Hg' Hs'].
    split; [eapply grown_trans; eauto|exact Hs'].
Qed.

Lemma sets_inv_step tasks i t st :
  tasks !! i = Some t ->
  sets_inv tasks st ->
  let out := step_of t st in
  grown st out.2 /\ sets_inv (<[i := out.1]> tasks) out.2.
Proof.
  intros Hi [Hsub Hflight].
  assert (Ht : forall url, url ∈ in_flight t -> url ∈ visited_urls st).
  { intros url Hin. apply Hflight. apply list_elem_of_bind. exists t.
    split; [exact Hin|]. eapply list_elem_of_lookup_2; eauto. }
  destruct (step_sets t st Hsub Ht) as (Hg & Hs & Hf).
  destruct (step_of t st) as [t' st']. cbn [fst snd] in *.
  split; [exact Hg|]. split; [exact Hs|].
  intros url Hin. apply list_elem_of_bind in Hin as (t0 & Hin & Ht0).
  apply list_elem_of_lookup_1 in Ht0 as [j Hj].
  apply list_lookup_insert_Some in Hj as [(-> & <- & _)|[Hne Hj]].
  - now apply Hf.
  - destruct Hg as [Hv _]. apply Hv. apply Hflight. apply list_elem_of_bind.
    exists t0. split; [exact Hin|]. eapply list_elem_of_lookup_2; eauto.
Qed.

Lemma gather_sets schedule tasks st :
  sets_inv tasks st ->
  let out := gather_of schedule tasks st in
  grown st out.2 /\ product_urls out.2 ⊆ visited_urls out.2.
Proof.
  revert tasks st. induction schedule as [|i schedule IH]; intros tasks st Hinv;
    cbn [gather].
  - destruct (forallb finished tasks); cbn; (split; [now apply grown_same|apply Hinv]).
  - destruct (forallb finished tasks); [cbn; split; [now apply grown_same|apply Hinv]|].
    destruct (tasks !! i) as [t|] eqn:Hi; [|now apply IH].
    destruct (sets_inv_step tasks i t st Hi Hinv) as [Hg Hinv'].
    destruct (step_of t st) as [t' st']. cbn [fst snd] in *.
    destruct t'; try (destruct (IH _ _ Hinv') as [Hg' Hs'];
                      split; [eapply grown_trans; eauto|exact Hs']).
    cbn. split; [exact Hg|apply Hinv'].
Qed.

Lemma starts_not_in_flight (urls : list string) (max : option Z) :
  map (fun url => Start url max) urls ≫= in_flight = [].
Proof.
  induction urls as [|u l IH]; [reflexivity|]. cbn [map]. rewrite bind_cons. exact IH.
Qed.

(** X15: a call of [crawl_category], however long it runs, only adds to the
    visited set and to the product set; every URL it adds to the product set
    is classified Product; and if every product URL was visited before the
    call, every product URL is visited after it. *)
Theorem crawl_category_sets fuel category_url max_pages st :
  product_urls st ⊆ visited_urls st ->
  let out := crawl_category config url_filter soup_hrefs server
               fuel category_url max_pages st in
  grown st out.2 /\ product_urls out.2 ⊆ visited_urls out.2.
Proof.
  intros Hsub. unfold crawl_category.
  destruct (run_sets fuel (Start category_url max_pages) st Hsub) as [Hg Hs].
  { intros url Hin. now apply elem_of_nil in Hin. }
  destruct (run_of fuel (Start category_url max_pages) st) as [t st']. cbn [fst snd] in *.
  now split.
Qed.

(** X16: the same holds of [crawl_all_categories] under every schedule of
    its category traversals: the two sets only grow, what is added to the
    product set is classified Product, and the product URLs stay within the
    visited URLs. *)
Theorem crawl_all_categories_sets schedule st :
  product_urls st ⊆ visited_urls st ->
  let out := crawl_all_categories config url_filter soup_hrefs server schedule st in
  grown st out.2 /\ product_urls out.2 ⊆ visited_urls out.2.
Proof.
  intros Hsub. unfold crawl_all_categories.
  set (st0 := emit [Log INFO FetchingCategories] st).
  destruct (fetch_page_frame config server (BASE_URL config) st0) as (evs & _ & Hv & Hp & _ & _).
  destruct (fetch (BASE_URL config) st0) as [html st1]. cbn [fst snd] in *.
  assert (Hsame : forall st', visited_urls st' = visited_urls st1 ->
                               product_urls st' = product_urls st1 ->
                               grown st st' /\ product_urls st' ⊆ visited_urls st').
  { intros st' Hv' Hp'. rewrite Hv in Hv'. rewrite Hp in Hp'. cbn in Hv', Hp'.
    split; [now apply grown_same|]. now rewrite Hv', Hp'. }
  destruct html as [[|c text]|]; cbv zeta; cbn [fst snd]; try (now apply Hsame).
  destruct (extract_links _ _ _ _) as [links|e]; cbn [fst snd]; [|now apply Hsame].
  destruct (category_urls_of links) as [category_urls|e]; cbn [fst snd];
    [|now apply Hsame].
  match goal with
  | |- context [gather _ _ _ _ _ ?T ?S] =>
      destruct (Hsame S eq_refl eq_refl) as [Hg0 Hs0];
      destruct (gather_sets schedule T S) as [Hg Hs]
  end.
  { split; [exact Hs0|]. rewrite starts_not_in_flight.
    intros url Hin. now apply elem_of_nil in Hin. }
  match goal with
  | |- context [gather _ _ _ _ _ ?T ?S] =>
      destruct (gather_of schedule T S) as [[[]|e|] st2]
  end; cbn [fst snd] in *;
    (split; [eapply grown_trans; [exact Hg0|exact Hg]|exact Hs]).
Qed.

End Sets.

(** ** The page cap *)

Section Bounds.

Context (config : ScraperConfig) (url_filter : URLFilter)
        (soup_hrefs : string -> list string)
        (server : nat -> string -> outcome).

Local Abbreviation fetch := (fetch_page config server).
Local Abbreviation resume := (crawl_page_resume url_filter soup_hrefs).
Local Abbreviation step_of := (step config url_filter soup_hrefs server).
Local Abbreviation run_of := (run config url_filter soup_hrefs server).
Local Abbreviation gather_of := (gather config url_filter soup_hrefs server).
Local Abbreviation category := (crawl_category config url_filter soup_hrefs server).
Local Abbreviation all_categories :=
  (crawl_all_categories config url_filter soup_hrefs server).

(** a step of a call calls [fetch_page] on the URL it has in flight, and on
    nothing else *)
Lemma step_events t st :
  exists evs,
    trace (step_of t st).2 = (trace st ++ evs)%list /\ fetched evs = in_flight t.
Proof.
  destruct t as [category_url max|f|f u|products|e]; cbn [step in_flight].
  - destruct (extract_category_info category_url) as [[[categories n]|]|e]; cbn [snd];
      try (exists []; now rewrite app_nil_r).
    now exists [Log ERROR (InvalidCategoryURL category_url)].
  - destruct (urls_to_visit f) as [|u rest]; [exists []; now rewrite app_nil_r|].
    destruct (within f); [|exists []; now rewrite app_nil_r].
    unfold crawl_page_enter. destruct (visited st u); cbn [snd].
    + exists []. now rewrite app_nil_r.
    + now exists [Log INFO (Crawling u)].
  - destruct (fetch_page_frame config server u st) as (evs & Ht & _ & _ & Hf & _).
    destruct (fetch u st) as [html st1]. cbn [fst snd] in *.
    destruct (crawl_page_resume_events url_filter soup_hrefs u html st1) as (evs2 & Ht2 & Hf2).
    exists (FetchPage u :: evs ++ evs2)%list.
    destruct (resume u html st1) as [[new_urls|e] st2]; cbn [fst snd] in *;
      (split; [rewrite Ht2, Ht, <- app_assoc; reflexivity|]);
      change (fetched (FetchPage u :: evs ++ evs2)%list) with (u :: fetched (evs ++ evs2)%list);
      now rewrite fetched_app, Hf, Hf2.
  - exists []. now rewrite app_nil_r.
  - exists []. now rewrite app_nil_r.
Qed.

Lemma run_finished fuel t st : finished t = true -> run_of fuel t st = (t, st).
Proof. intros H. destruct fuel; cbn [run]; [reflexivity|now rewrite H]. Qed.

(** the iterations that the page cap [m] still allows *)
Local Abbreviation budget m f := (Z.to_nat (m + 1 - page f)).

Lemma run_capped m fuel t st :
  match t with
  | Start _ _ => False
  | Loop f => max_pages f = Some m /\ 2 * budget m f + 1 <= fuel
  | Fetching f _ => max_pages f = Some m /\ (page f <= m)%Z /\ 2 * budget m f <= fuel
  | Return _ | Throw _ => True
  end ->
  let out := run_of fuel t st in
  finished out.1 = true
  /\ exists evs,
       trace out.2 = (trace st ++ evs)%list
       /\ length (fetched evs)
          <= match t with
             | Loop f | Fetching f _ => budget m f
             | _ => 0
             end.
Proof.
  revert t st. induction fuel as [|fuel IH]; intros t st Hcap.
  - destruct t as [? ?|f|f u|p|e]; try (now elim Hcap); try (destruct Hcap; lia);
      cbn; (split; [reflexivity|]); exists []; now rewrite app_nil_r.
  - cbn [run].
    destruct t as [? ?|f|f u|p|e]; try (now elim Hcap); cbn [finished];
      try (cbn [fst snd]; split; [reflexivity|]; exists []; now rewrite app_nil_r).
    + destruct Hcap as [Hmax Hfuel]. cbn [step].
      destruct (urls_to_visit f) as [|u rest];
        [rewrite run_finished by reflexivity; cbn; split; [reflexivity|];
         exists []; rewrite app_nil_r; split; [reflexivity|cbn; lia]|].
      destruct (within f) eqn:Hw;
        [|rewrite run_finished by reflexivity; cbn; split; [reflexivity|];
          exists []; rewrite app_nil_r; split; [reflexivity|cbn; lia]].
      unfold within in Hw. rewrite Hmax in Hw. apply Z.leb_le in Hw.
      unfold crawl_page_enter. destruct (visited st u).
      * match goal with
        | |- context [run _ _ _ _ _ (Loop ?F) _] =>
            destruct (IH (Loop F) st) as (Hfin & evs & Ht & Hlen)
        end.
        { cbn [max_pages page after_page]. split; [exact Hmax|]. lia. }
        split; [exact Hfin|]. exists evs. split; [exact Ht|].
        cbn [page after_page] in Hlen. lia.
      * match goal with
        | |- context [run _ _ _ _ _ (Fetching ?F u) ?S] =>
            destruct (IH (Fetching F u) S) as (Hfin & evs & Ht & Hlen)
        end.
        { cbn [max_pages page]. split; [exact Hmax|]. split; [exact Hw|]. lia. }
        split; [exact Hfin|]. exists (Log INFO (Crawling u) :: evs).
        split; [rewrite Ht; cbn [trace emit visit]; now rewrite <- app_assoc|].
        cbn [page] in Hlen. exact Hlen.
    + destruct Hcap as (Hmax & Hpage & Hfuel).
      destruct (step_events (Fetching f u) st) as (evs1 & Ht1 & Hf1).
      cbn [step] in *.
      destruct (fetch u st) as [html st1].
      destruct (resume u html st1) as [[new_urls|e] st2]; cbn [fst snd] in *.
      * match goal with
        | |- context [run _ _ _ _ _ (Loop ?F) _] =>
            destruct (IH (Loop F) st2) as (Hfin & evs & Ht & Hlen)
        end.
        { cbn [max_pages page after_page]. split; [exact Hmax|]. lia. }
        split; [exact Hfin|]. exists (evs1 ++ evs)%list.
        split; [rewrite Ht, Ht1; now rewrite <- app_assoc|].
        rewrite fetched_app, length_app, Hf1. cbn [page after_page length in_flight] in *. lia.
      * rewrite run_finished by reflexivity. cbn [fst snd].
        split; [reflexivity|]. exists evs1. split; [exact Ht1|].
        rewrite Hf1. cbn. lia.
Qed.

(** X17: with a page cap [max_pages = m], [crawl_category] is over after at
    most [2 m + 2] steps, and has then called [fetch_page] at most [m]
    times, on whatever site and from whatever state; with [m] at zero or
    below it fetches nothing. *)
Theorem crawl_category_page_cap fuel category_url m st :
  2 * Z.to_nat m + 2 <= fuel ->
  let out := crawl_category config url_filter soup_hrefs server
               fuel category_url (Some m) st in
  over out.1 = true
  /\ exists evs,
       trace out.2 = (trace st ++ evs)%list
       /\ length (fetched evs) <= Z.to_nat m.
Proof.
  intros Hfuel. unfold crawl_category.
  destruct fuel as [|fuel]; [lia|]. cbn [run finished step].
  assert (Hover : forall t, over (completed t) = finished t) by (now intros []).
  destruct (extract_category_info category_url) as [[[categories n]|]|e].
  - match goal with
    | |- context [run _ _ _ _ _ (Loop ?F) _] =>
        destruct (run_capped m fuel (Loop F) st) as (Hfin & evs & Ht & Hlen)
    end.
    { cbn [max_pages page]. split; [reflexivity|].
      replace (m + 1 - 1)%Z with m by lia. lia. }
    match goal with
    | |- context [run _ _ _ _ _ (Loop ?F) _] =>
        destruct (run_of fuel (Loop F) st) as [t st']
    end.
    cbv zeta. cbn [fst snd] in *. rewrite Hover. split; [exact Hfin|].
    exists evs. split; [exact Ht|]. cbn [page] in Hlen. lia.
  - rewrite run_finished by reflexivity. cbv zeta. cbn [fst snd completed over].
    split; [reflexivity|]. exists [Log ERROR (InvalidCategoryURL category_url)].
    split; [reflexivity|]. cbn. lia.
  - rewrite run_finished by reflexivity. cbv zeta. cbn [fst snd completed over].
    split; [reflexivity|]. exists []. rewrite app_nil_r. split; [reflexivity|]. cbn. lia.
Qed.

(** what a call returns once its loop has started is the product set of the
    crawler *)
Lemma run_returns fuel t st products st' :
  match t with
  | Loop _ | Fetching _ _ => True
  | _ => False
  end ->
  run_of fuel t st = (Return products, st') ->
  products = product_urls st'.
Proof.
  revert t st. induction fuel as [|fuel IH]; intros t st Ht; cbn [run].
  - intros [= -> _]. now elim Ht.
  - destruct t as [? ?|f|f u|p|e]; try (now elim Ht); cbn [finished step].
    + destruct (urls_to_visit f) as [|u rest];
        [rewrite run_finished by reflexivity; now intros [= <- <-]|].
      destruct (within f);
        [|rewrite run_finished by reflexivity; now intros [= <- <-]].
      destruct (crawl_page_enter u st); now apply IH.
    + destruct (fetch u st) as [html st1].
      destruct (resume u html st1) as [[new_urls|e] st2].
      * now apply IH.
      * rewrite run_finished by reflexivity. discriminate.
Qed.

End Bounds.

(** ** What a call returns and what it fetches *)

Section Once.

Context (config : ScraperConfig) (url_filter : URLFilter)
        (soup_hrefs : string -> list string)
        (server : nat -> string -> outcome).

Local Abbreviation fetch := (fetch_page config server).
Local Abbreviation step_of := (step config url_filter soup_hrefs server).
Local Abbreviation run_of := (run config url_filter soup_hrefs server).
Local Abbreviation gather_of := (gather config url_filter soup_hrefs server).
Local Abbreviation category := (crawl_category config url_filter soup_hrefs server).
Local Abbreviation all_categories :=
  (crawl_all_categories config url_filter soup_hrefs server).

Lemma step_products t st : product_urls st ⊆ product_urls (step_of t st).2.
Proof.
  destruct t as [category_url max|f|f u|products|e]; cbn [step].
  - now destruct (extract_category_info category_url) as [[[categories n]|]|e].
  - destruct (urls_to_visit f) as [|u rest]; [reflexivity|].
    destruct (within f); [|reflexivity].
    unfold crawl_page_enter. now destruct (visited st u).
  - destruct (fetch_page_frame config server u st) as (evs & _ & _ & Hp & _ & _).
    destruct (fetch u st) as [html st1]. cbn [fst snd] in *.
    destruct (crawl_page_resume_sets url_filter soup_hrefs u html st1) as (_ & Hp2 & _).
    destruct (crawl_page_resume url_filter soup_hrefs u html st1) as [[new_urls|e] st2];
      cbn [fst snd] in *; rewrite Hp in Hp2;
      destruct Hp2 as [->|[-> _]]; try reflexivity; apply union_subseteq_r.
  - reflexivity.
  - reflexivity.
Qed.

Lemma run_products fuel t st : product_urls st ⊆ product_urls (run_of fuel t st).2.
Proof.
  revert t st. induction fuel as [|fuel IH]; intros t st; cbn [run]; [reflexivity|].
  destruct (finished t); [reflexivity|].
  pose proof (step_products t st) as Hs.
  destruct (step_of t st) as [t' st']. cbn [snd] in Hs.
  etransitivity; [exact Hs|apply IH].
Qed.

(** X18: what [crawl_category] returns for a category URL is the whole
    product set of the crawler as it is at the end of the call; the products
    recorded before the call are still in it. *)
Theorem crawl_category_returns_all fuel category_url max_pages st categories n :
  extract_category_info category_url = Ok (Some (categories, n)) ->
  let out := crawl_category config url_filter soup_hrefs server
               fuel category_url max_pages st in
  product_urls st ⊆ product_urls out.2
  /\ forall products, out.1 = Returns products -> products = product_urls out.2.
Proof.
  intros Hinfo. unfold crawl_category.
  pose proof (run_products fuel (Start category_url max_pages) st) as Hgrow.
  destruct (run_of fuel (Start category_url max_pages) st) as [t st1] eqn:Hrun.
  cbv zeta. cbn [fst snd] in *. split; [exact Hgrow|].
  intros products Hret.
  destruct t as [? ?|f|f u|p|e]; try discriminate Hret. cbn [completed] in Hret.
  injection Hret as ->.
  destruct fuel as [|fuel]; [discriminate Hrun|].
  cbn [run finished step] in Hrun. rewrite Hinfo in Hrun.
  apply (run_returns config url_filter soup_hrefs server) in Hrun; [exact Hrun|exact I].
Qed.

(** a step of one of the calls keeps what holds of the fetches since the
    start *)
Lemma step_fetched_since base seen tasks i t st :
  tasks !! i = Some t ->
  fetched_since base seen tasks st ->
  let out := step_of t st in
  fetched_since base seen (<[i := out.1]> tasks) out.2.
Proof.
  intros Hi (rest & Hbase & Hseen & Hnodup & Hvisited).
  destruct (step_flight config url_filter soup_hrefs server t st) as [Hsub Hcases].
  destruct (step_of t st) as [t' st']. cbn [fst snd] in *.
  unfold fetched_since.
  rewrite insert_take_drop by (eapply lookup_lt_Some; eauto).
  rewrite <- (take_drop_middle tasks i t Hi) in Hnodup, Hvisited.
  rewrite bind_app, bind_cons in *.
  set (before := take i tasks ≫= in_flight) in *.
  set (after := drop (S i) tasks ≫= in_flight) in *.
  destruct Hcases as [[Hflight Htrace]|[(url & Hold & Hnew & Hout & Hin & Htrace)
                                       |(url & Hold & Hnew & Htrace)]].
  - exists rest. rewrite Hflight, Htrace.
    split; [exact Hbase|]. split; [now transitivity (visited_urls st)|].
    split; [exact Hnodup|].
    intros url Hurl. destruct (Hvisited url Hurl) as [H1 H2]. split; [now apply Hsub|exact H2].
  - exists rest. rewrite Hnew, Htrace. rewrite Hold in Hnodup, Hvisited. cbn [app] in *.
    assert (Hperm : (rest ++ before ++ url :: after)%list
                    ≡ₚ url :: (rest ++ before ++ after)%list).
    { rewrite !Permutation_middle. reflexivity. }
    split; [exact Hbase|]. split; [now transitivity (visited_urls st)|]. split.
    + rewrite Hperm. apply NoDup_cons. split; [|exact Hnodup].
      intros Hurl. apply Hout. now apply Hvisited.
    + intros url'. rewrite Hperm, elem_of_cons. intros [->|Hurl].
      * split; [exact Hin|]. intros Hs. apply Hout. now apply Hseen.
      * destruct (Hvisited url' Hurl) as [H1 H2]. split; [now apply Hsub|exact H2].
  - exists (rest ++ [url])%list. rewrite Hnew, Htrace.
    rewrite Hold in Hnodup, Hvisited. cbn [app] in *.
    assert (Hperm : ((rest ++ [url]) ++ before ++ after)%list
                    ≡ₚ (rest ++ before ++ url :: after)%list).
    { rewrite <- !app_assoc. cbn. rewrite !Permutation_middle. reflexivity. }
    split; [now rewrite Hbase, app_assoc|].
    split; [now transitivity (visited_urls st)|]. split.
    + rewrite Hperm. exact Hnodup.
    + intros url'. rewrite Hperm. intros Hurl.
      destruct (Hvisited url' Hurl) as [H1 H2]. split; [now apply Hsub|exact H2].
Qed.

Lemma fetched_since_start st tasks :
  tasks ≫= in_flight = [] ->
  fetched_since (fetched (trace st)) (visited_urls st) tasks st.
Proof.
  intros Hnone. exists []. rewrite Hnone, app_nil_r.
  split; [reflexivity|]. split; [reflexivity|]. split; [apply NoDup_nil_2|].
  intros url Hurl. now apply elem_of_nil in Hurl.
Qed.

Lemma fetched_since_end base seen tasks st :
  fetched_since base seen tasks st ->
  exists rest,
    fetched (trace st) = (base ++ rest)%list
    /\ NoDup rest
    /\ forall url, url ∈ rest -> (url ∉ seen) /\ url ∈ visited_urls st.
Proof.
  intros (rest & Hbase & _ & Hnodup & Hvisited). exists rest.
  split; [exact Hbase|]. split; [now apply NoDup_app in Hnodup as [? _]|].
  intros url Hurl. destruct (Hvisited url) as [H1 H2]; [|now split].
  apply elem_of_app. now left.
Qed.

Lemma run_fetched_since base seen fuel t st :
  fetched_since base seen [t] st ->
  fetched_since base seen [(run_of fuel t st).1] (run_of fuel t st).2.
Proof.
  revert t st. induction fuel as [|fuel IH]; intros t st Hinv; cbn [run];
    [exact Hinv|].
  destruct (finished t); [exact Hinv|].
  pose proof (step_fetched_since base seen [t] 0 t st eq_refl Hinv) as Hstep.
  destruct (step_of t st) as [t' st']. cbn [fst snd] in *. now apply IH.
Qed.

Lemma gather_fetched_since base seen schedule tasks st :
  fetched_since base seen tasks st ->
  exists tasks', fetched_since base seen tasks' (gather_of schedule tasks st).2.
Proof.
  revert tasks st. induction schedule as [|i schedule IH]; intros tasks st Hinv;
    cbn [gather].
  - destruct (forallb finished tasks); cbn; eauto.
  - destruct (forallb finished tasks); [cbn; eauto|].
    destruct (tasks !! i) as [t|] eqn:Hi; [|now apply IH].
    pose proof (step_fetched_since base seen tasks i t st Hi Hinv) as Hstep.
    destruct (step_of t st) as [t' st']. cbn [fst snd] in Hstep.
    destruct t'; try (now apply IH).
    cbn. eauto.
Qed.

(** X19: the URLs on which a call of [crawl_category] calls [fetch_page]
    are all different, none of them was in the visited set when the call
    began, and all of them are in it afterwards; this holds from every state
    and however long the call runs. *)
Theorem crawl_category_fetches_new_once fuel category_url max_pages st :
  let out := crawl_category config url_filter soup_hrefs server
               fuel category_url max_pages st in
  exists urls,
    fetched (trace out.2) = (fetched (trace st) ++ urls)%list
    /\ NoDup urls
    /\ forall url, url ∈ urls -> (url ∉ visited_urls st) /\ url ∈ visited_urls out.2.
Proof.
  unfold crawl_category.
  pose proof (run_fetched_since (fetched (trace st)) (visited_urls st) fuel
                (Start category_url max_pages) st
                (fetched_since_start st [Start category_url max_pages] eq_refl)) as Hinv.
  destruct (run_of fuel (Start category_url max_pages) st) as [t st']. cbn [fst snd] in *.
  cbv zeta. cbn [snd]. eapply fetched_since_end; eauto.
Qed.

(** X20: [crawl_all_categories] calls [fetch_page] first on the home page;
    the URLs it fetches after that are all different, under every schedule
    of the category traversals, and none of them was visited before the
    call.  The home page itself comes again among them when a category page
    links to it, since the first fetch does not mark it visited. *)
Theorem crawl_all_categories_fetches schedule st :
  let out := crawl_all_categories config url_filter soup_hrefs server schedule st in
  exists urls,
    fetched (trace out.2) = (fetched (trace st) ++ BASE_URL config :: urls)%list
    /\ NoDup urls
    /\ forall url, url ∈ urls -> (url ∉ visited_urls st) /\ url ∈ visited_urls out.2.
Proof.
  unfold crawl_all_categories.
  set (st0 := emit [Log INFO FetchingCategories] st).
  destruct (fetch_page_frame config server (BASE_URL config) st0)
    as (evs & Ht & Hv & Hp & Hf & _).
  destruct (fetch (BASE_URL config) st0) as [html st1]. cbn [fst snd] in *.
  assert (Hst1 : fetched (trace st1) = (fetched (trace st) ++ [BASE_URL config])%list).
  { rewrite Ht. subst st0. cbn [trace emit]. rewrite !fetched_app.
    change (fetched (FetchPage (BASE_URL config) :: evs)) with (BASE_URL config :: fetched evs).
    rewrite Hf. cbn. now rewrite app_nil_r. }
  assert (Hnone : forall st',
    fetched (trace st') = fetched (trace st1) ->
    exists urls,
      fetched (trace st') = (fetched (trace st) ++ BASE_URL config :: urls)%list
      /\ NoDup urls
      /\ forall url, url ∈ urls -> (url ∉ visited_urls st) /\ url ∈ visited_urls st').
  { intros st' Hst'. exists []. rewrite Hst', Hst1. split; [reflexivity|].
    split; [apply NoDup_nil_2|]. intros url Hurl. now apply elem_of_nil in Hurl. }
  assert (Hemit : forall ev st', fetched [ev] = [] ->
            fetched (trace (emit [ev] st')) = fetched (trace st')).
  { intros ev st' Hev. cbn [trace emit]. now rewrite fetched_app, Hev, app_nil_r. }
  destruct html as [[|c text]|]; cbv zeta; cbn [fst snd];
    try (apply Hnone; now apply Hemit).
  destruct (extract_links _ _ _ _) as [links|e]; cbn [fst snd];
    [|apply Hnone; now apply Hemit].
  destruct (category_urls_of links) as [category_urls|e]; cbn [fst snd];
    [|apply Hnone; now apply Hemit].
  match goal with
  | |- context [gather _ _ _ _ _ ?T ?S] =>
      destruct (gather_fetched_since (fetched (trace S)) (visited_urls S) schedule T S)
        as [tasks' Hinv];
      [apply fetched_since_start, starts_not_in_flight|];
      apply fetched_since_end in Hinv as (urls & Hfetched & Hnodup & Hurls);
      assert (HS : fetched (trace S) = fetched (trace st1))
        by (rewrite !Hemit by reflexivity; reflexivity);
      assert (HV : visited_urls S = visited_urls st) by (cbn; now rewrite Hv);
      destruct (gather_of schedule T S) as [[[]|e|] st2]
  end; cbn [fst snd] in *;
    exists urls; rewrite Hfetched, HS, Hst1, <- app_assoc;
    (split; [reflexivity|]); (split; [exact Hnodup|]);
    intros url Hurl; rewrite <- HV; now apply Hurls.
Qed.

End Once.

(** ** The scraper's fetch layer *)

Module BaseScraperFacts.
Import BaseScraper.

Lemma asks_app evs1 evs2 : asks (evs1 ++ evs2) = (asks evs1 ++ asks evs2)%list.
Proof. apply omap_app. Qed.

Lemma waits_app evs1 evs2 : waits (evs1 ++ evs2) = (waits evs1 ++ waits evs2)%list.
Proof. apply omap_app. Qed.

Section Fetch.

Context (config : ScraperConfig) (server : nat -> string -> outcome).

Local Abbreviation attempts := (BaseScraper.fetch_attempts config server).
Local Abbreviation fetch := (BaseScraper.fetch_page config server).
Local Abbreviation delay := (RATE_LIMIT_DELAY config).
Local Abbreviation next := (next_session config).

Lemma scraper_attempts_next n attempt url s :
  not_200 (server (asked s) url) = true ->
  attempts (S n) attempt url s
  = attempts n (attempt + 1) url (next attempt url (server (asked s) url) s).
Proof.
  intros H. cbn [BaseScraper.fetch_attempts]. unfold next_session.
  destruct (server (asked s) url) as [status text|e]; [|reflexivity].
  cbn [not_200] in H. apply negb_true_iff in H. now rewrite H.
Qed.

Lemma scraper_attempts_ok n attempt url s text :
  server (asked s) url = Response 200 text ->
  attempts (S n) attempt url s
  = (Some text, ask url (record [Wait delay] s)).
Proof. intros H. cbn [BaseScraper.fetch_attempts]. now rewrite H. Qed.

Lemma not_200_cases reply :
  not_200 reply = true \/ exists text, reply = Response 200 text.
Proof.
  destruct reply as [status text|e]; [|now left]. cbn [not_200].
  destruct (Z.eqb_spec status 200) as [->|]; [right; eauto|now left].
Qed.

Lemma next_session_events attempt url reply s :
  exists evs,
    next attempt url reply s
    = mkSession (S (asked s)) (history s ++ Wait delay :: Ask url :: evs)
    /\ asks evs = []
    /\ (is_response reply = true -> waits evs = []).
Proof.
  unfold next_session, ask, record. cbn [asked history].
  destruct reply as [status text|e].
  - exists [WarnStatus status url]. rewrite <- !app_assoc. auto.
  - destruct (attempt <? MAX_RETRIES config - 1)%Z; cbn [asked history].
    + exists [ErrorAttempt url (attempt + 1); Wait (inject_Z (2 ^ attempt))].
      rewrite <- !app_assoc. split; [reflexivity|]. split; [reflexivity|discriminate].
    + exists [ErrorAttempt url (attempt + 1)].
      rewrite <- !app_assoc. split; [reflexivity|]. split; [reflexivity|discriminate].
Qed.

Lemma scraper_attempts_events n attempt url s :
  exists evs,
    (attempts n attempt url s).2
    = mkSession (asked s + length (asks evs)) (history s ++ evs)
    /\ Forall (eq url) (asks evs)
    /\ length (asks evs) <= n
    /\ (all_replies is_response server url (asked s) n = true ->
        waits evs = replicate (length (asks evs)) delay).
Proof.
  revert attempt s. induction n as [|n IH]; intros attempt s.
  { exists []. cbn. rewrite app_nil_r, Nat.add_0_r. destruct s. auto. }
  destruct (not_200_cases (server (asked s) url)) as [Hnot|[text Hok]].
  - rewrite (scraper_attempts_next _ _ _ _ Hnot).
    destruct (next_session_events attempt url (server (asked s) url) s)
      as (evs1 & Hs & Ha & Hw).
    rewrite Hs.
    destruct (IH (attempt + 1)%Z
                (mkSession (S (asked s)) (history s ++ Wait delay :: Ask url :: evs1)))
      as (evs & Hout & Hall & Hlen & Hwaits).
    cbn [asked history] in Hout, Hwaits.
    exists (Wait delay :: Ask url :: evs1 ++ evs)%list.
    assert (Hasks : asks (Wait delay :: Ask url :: evs1 ++ evs)%list = url :: asks evs).
    { change (asks (Wait delay :: Ask url :: evs1 ++ evs)%list)
        with (url :: asks (evs1 ++ evs)%list). now rewrite asks_app, Ha. }
    rewrite Hasks. cbn [length]. split; [|split; [|split]].
    + rewrite Hout. f_equal; [lia|]. rewrite <- app_assoc. reflexivity.
    + now constructor.
    + lia.
    + cbn [all_replies]. intros H. apply andb_true_iff in H as [H1 H2].
      change (waits (Wait delay :: Ask url :: evs1 ++ evs)%list)
        with (delay :: waits (evs1 ++ evs)%list).
      rewrite waits_app, (Hw H1), (Hwaits H2). reflexivity.
  - rewrite (scraper_attempts_ok _ _ _ _ _ Hok). cbn [snd].
    exists [Wait delay; Ask url]. unfold ask, record. simpl.
    split; [f_equal; [lia|now rewrite <- app_assoc]|].
    split; [now repeat constructor|]. split; [lia|]. reflexivity.
Qed.

Lemma scraper_attempts_found n attempt url s j text :
  j < n ->
  all_replies not_200 server url (asked s) j = true ->
  server (asked s + j) url = Response 200 text ->
  (attempts n attempt url s).1 = Some text.
Proof.
  revert n attempt s. induction j as [|j IH]; intros n attempt s Hlt Hall Hrep.
  - destruct n as [|n]; [lia|]. rewrite Nat.add_0_r in Hrep.
    now rewrite (scraper_attempts_ok _ _ _ _ _ Hrep).
  - destruct n as [|n]; [lia|]. cbn [all_replies] in Hall.
    apply andb_true_iff in Hall as [Hnot Hall].
    rewrite (scraper_attempts_next _ _ _ _ Hnot).
    destruct (next_session_events attempt url (server (asked s) url) s) as (evs1 & Hs & _).
    apply IH; [lia| |]; rewrite Hs; cbn [asked]; [exact Hall|].
    now replace (S (asked s) + j) with (asked s + S j) by lia.
Qed.

Lemma scraper_attempts_found_inv n attempt url s text :
  (attempts n attempt url s).1 = Some text ->
  exists j,
    j < n
    /\ all_replies not_200 server url (asked s) j = true
    /\ server (asked s + j) url = Response 200 text.
Proof.
  revert attempt s. induction n as [|n IH]; intros attempt s; [simpl; discriminate|].
  destruct (not_200_cases (server (asked s) url)) as [Hnot|[body Hok]].
  - rewrite (scraper_attempts_next _ _ _ _ Hnot).
    destruct (next_session_events attempt url (server (asked s) url) s) as (evs1 & Hs & _).
    intros H. destruct (IH _ _ H) as (j & Hlt & Hall & Hrep).
    rewrite Hs in Hall, Hrep. cbn [asked] in Hall, Hrep.
    exists (S j). split; [lia|]. split.
    + cbn [all_replies]. now rewrite Hnot, Hall.
    + now replace (asked s + S j) with (S (asked s) + j) by lia.
  - rewrite (scraper_attempts_ok _ _ _ _ _ Hok). cbn [fst]. intros [= <-].
    exists 0. split; [lia|]. split; [reflexivity|]. now rewrite Nat.add_0_r.
Qed.

(** X21: one call of [BaseScraper.fetch_page] sends at most [MAX_RETRIES]
    requests, all for the URL it was given; and when no request meets an
    exception, every pause it takes is the rate-limit delay, one before each
    request: a refused status is followed by no back-off. *)
Theorem scraper_fetch_page_bounded url s :
  exists evs,
    (BaseScraper.fetch_page config server url s).2
    = mkSession (asked s + length (asks evs)) (history s ++ evs)
    /\ Forall (eq url) (asks evs)
    /\ length (asks evs) <= Z.to_nat (MAX_RETRIES config)
    /\ (all_replies is_response server url (asked s)
          (Z.to_nat (MAX_RETRIES config)) = true ->
        waits evs = replicate (length (asks evs)) (RATE_LIMIT_DELAY config)).
Proof. apply scraper_attempts_events. Qed.

(** X22: [BaseScraper.fetch_page] returns a text exactly when one of the
    first [MAX_RETRIES] replies has status 200; the text is the body of the
    first such reply.  Every other reply, a 404 included, is followed by
    another attempt. *)
Theorem scraper_fetch_page_success_iff url s text :
  (BaseScraper.fetch_page config server url s).1 = Some text
  <-> exists j,
        j < Z.to_nat (MAX_RETRIES config)
        /\ all_replies not_200 server url (asked s) j = true
        /\ server (asked s + j) url = Response 200 text.
Proof.
  split.
  - apply scraper_attempts_found_inv.
  - intros (j & Hlt & Hall & Hrep). now apply scraper_attempts_found with j.
Qed.

End Fetch.

End BaseScraperFacts.

(** X23: the two fetch layers differ on a page that is missing at first.
    When the reply to the first request has status 404 and the reply to the
    second has status 200, the crawler's [fetch_page] returns [None] after
    one request, and the scraper's [fetch_page] returns the text of the
    second reply, provided [MAX_RETRIES] is 2 or more. *)
Theorem not_found_then_found config server url st s body text :
  (2 <= MAX_RETRIES config)%Z ->
  BaseScraper.asked s = requests st ->
  server (requests st) url = Response 404 body ->
  server (S (requests st)) url = Response 200 text ->
  (fetch_page config server url st).1 = None
  /\ requests (fetch_page config server url st).2 = S (requests st)
  /\ (BaseScraper.fetch_page config server url s).1 = Some text.
Proof.
  intros Hmax Hs H404 H200.
  destruct (fetch_attempts_not_found config server (Z.to_nat (MAX_RETRIES config)) 0%Z url
              (emit [FetchPage url] st) 0 body) as (st' & Hf & Hr).
  { lia. } { reflexivity. } { cbn. now rewrite Nat.add_0_r. }
  unfold fetch_page. rewrite Hf. cbn [fst snd].
  split; [reflexivity|]. split; [rewrite Hr; cbn; lia|].
  apply (BaseScraperFacts.scraper_attempts_found config server _ 0%Z url s 1 text).
  - lia.
  - cbn [all_replies]. now rewrite Hs, H404.
  - rewrite Hs. now replace (requests st + 1) with (S (requests st)) by lia.
Qed.

(** ** The product id in the scraper *)

Module ProductIdFacts.
Import Str Re Urllib StrFacts ReFacts UrllibFacts UrljoinFacts PageFacts SplitFacts.

Lemma product_suffix_at_before_slash a pre s :
  product_suffix_at (String a (pre ++ String "/" s)) = None.
Proof.
  unfold product_suffix_at.
  destruct (after_prefix "-d" (String a (pre ++ String "/" s))) as [r|] eqn:E;
    [|reflexivity].
  apply after_prefix_spec in E.
  apply (digits_dollar_refuses "/"); [|reflexivity|discriminate].
  destruct pre as [|b pre]; simpl in E.
  - injection E as _ E. discriminate E.
  - injection E as _ _ E. subst r. rewrite contains_app. simpl. apply orb_true_r.
Qed.

Lemma search_before_slash pre s :
  search product_suffix_at (pre ++ String "/" s)
  = search product_suffix_at (String "/" s).
Proof.
  induction pre as [|a pre IH]; [reflexivity|].
  change (String a pre ++ String "/" s) with (String a (pre ++ String "/" s)).
  rewrite search_later by apply product_suffix_at_before_slash. exact IH.
Qed.

(** X24: on a URL that ends with its path (no parameters, query or
    fragment after it) and whose path begins with a slash, the scraper's
    [extract_product_id], which searches the whole URL, finds what the
    filter's [extract_product_id] finds in the path. *)
Theorem product_id_agrees url parsed pre :
  urlparse url = Ok parsed ->
  url = pre ++ path parsed ->
  startswith "/" (path parsed) = true ->
  extract_product_id url = Ok (ProductScraper.extract_product_id url).
Proof.
  intros Hparse Hurl Hslash. unfold extract_product_id, ProductScraper.extract_product_id.
  rewrite Hparse. cbn [mbind result_bind]. f_equal.
  apply startswith_slash in Hslash as [t Ht].
  rewrite Hurl, Ht. now rewrite search_before_slash.
Qed.

Lemma product_id_agrees_witness :
  extract_product_id "https://www.ouedkniss.com/ordinateur-portable-hp-d12345678"
  = Ok (ProductScraper.extract_product_id
          "https://www.ouedkniss.com/ordinateur-portable-hp-d12345678").
Proof.
  apply (product_id_agrees
           "https://www.ouedkniss.com/ordinateur-portable-hp-d12345678"
           (mkParse "https" "www.ouedkniss.com" "/ordinateur-portable-hp-d12345678" "" "" "")
           "https://www.ouedkniss.com");
    reflexivity.
Defined.

End ProductIdFacts.

(** ** The scraping loops of the main script *)

Module MainFacts.
Import Main.

Section Scrape.

Context {Product : Type}
        (scrape_product : nat -> string -> option Product)
        (insert_product : nat -> Product -> bool).

Local Abbreviation loop_from := (scrape_from scrape_product insert_product).
Local Abbreviation scrape_all := (crawl_and_scrape scrape_product insert_product).
Local Abbreviation urls_from := (scrape_urls_from scrape_product insert_product).
Local Abbreviation specific := (scrape_specific_urls scrape_product insert_product).
Local Abbreviation stored := (stored_from scrape_product insert_product).

Lemma scrape_from_counts i total urls t :
  let out := loop_from i total urls t in
  scraped_count out = scraped_count t + length (stored i urls)
  /\ scraped_count out + failed_count out
     = scraped_count t + failed_count t + length urls.
Proof.
  revert i t. induction urls as [|url rest IH]; intros i t.
  - cbn. lia.
  - cbn [Main.scrape_from Main.stored_from].
    destruct (scrape_product i url) as [product|]; [destruct (insert_product i product)|];
      match goal with
      | |- context [Main.scrape_from _ _ (S i) total rest ?T] =>
          destruct (IH (S i) T) as [H1 H2]
      end;
      cbv zeta in *; cbn [scraped_count failed_count length] in *; lia.
Qed.

Lemma slice_to_length m l :
  length (slice_to m l)
  = if (0 <=? m)%Z then Nat.min (Z.to_nat m) (length l)
    else length l - Z.to_nat (- m).
Proof.
  unfold slice_to. destruct (0 <=? m)%Z; rewrite length_take; lia.
Qed.


Lemma scrape_urls_from_counts i urls t :
  scraped_count (urls_from i urls t)
  = scraped_count t + length (Main.stored_from scrape_product (fun _ _ => true) i urls).
Proof.
  revert i t. induction urls as [|url rest IH]; intros i t.
  - cbn. lia.
  - cbn [Main.scrape_urls_from Main.stored_from].
    destruct (scrape_product i url) as [product|]; rewrite IH;
      cbn [scraped_count length]; lia.
Qed.

(** X26: [scrape_specific_urls] counts every URL whose product was
    extracted, whether or not its insertion succeeded: its count is the one
    [crawl_and_scrape] would reach if no insertion failed, and is never
    below the count of [crawl_and_scrape] on the same URLs. *)
Theorem scrape_specific_urls_counts urls :
  scraped_count (scrape_specific_urls scrape_product insert_product urls)
  = length (Main.stored_from scrape_product (fun _ _ => true) 1 urls)
  /\ scraped_count (crawl_and_scrape scrape_product insert_product None urls)
     <= scraped_count (scrape_specific_urls scrape_product insert_product urls).
Proof.
  unfold Main.scrape_specific_urls. cbn [scraped_count].
  rewrite scrape_urls_from_counts. cbn [scraped_count].
  split; [lia|].
  unfold Main.crawl_and_scrape. cbn [limit scraped_count].
  match goal with
  | |- context [Main.scrape_from _ _ 1 ?N ?L ?T] =>
      destruct (scrape_from_counts 1 N L T) as [-> _]
  end.
  cbn [scraped_count].
  assert (H : forall i l, length (stored i l)
              <= length (Main.stored_from scrape_product (fun _ _ => true) i l)).
  { intros i l. revert i. induction l as [|u l IH]; intros i; [reflexivity|].
    cbn [Main.stored_from].
    destruct (scrape_product i u) as [p|]; [destruct (insert_product i p)|];
      cbn [length]; specialize (IH (S i)); lia. }
  specialize (H 1 urls). lia.
Qed.

End Scrape.
End MainFacts.

(** ** Links, category URLs and malformed links *)

Lemma classify_valid url t :
  classify_url url = Ok t -> t <> INVALID -> is_valid_domain url = Ok true.
Proof.
  unfold classify_url. destruct (is_valid_domain url) as [[]|e]; cbn [mbind result_bind negb].
  - reflexivity.
  - intros [= <-] H. now elim H.
  - discriminate.
Qed.

Lemma classified_category_info url :
  classify_url url = Ok CATEGORY \/ classify_url url = Ok SUBCATEGORY ->
  category_info_or_limit url.
Proof.
  intros H.
  assert (Hvalid : is_valid_domain url = Ok true)
    by (destruct H as [H|H]; apply (classify_valid _ _ H); discriminate).
  destruct (FilterFacts.valid_domain_parsed _ Hvalid) as [parsed Hparse].
  unfold category_info_or_limit.
  rewrite (FilterFacts.extract_category_info_pattern _ _ Hparse).
  destruct (Re.category_pattern (Urllib.path parsed)) as [[slug ds]|] eqn:Hpat.
  - destruct (SplitFacts.int_cases ds) as [[_ ->]|[Hlim [e ->]]].
    + left. cbn [mbind result_bind]. eauto.
    + right. split; [exists e; reflexivity|]. exists parsed, slug, ds. auto.
  - destruct (FilterFacts.classify_no_category _ _ Hparse Hpat) as [H1 H2].
    destruct H; contradiction.
Qed.

Section Links.

Context (config : ScraperConfig) (url_filter : URLFilter)
        (soup_hrefs : string -> list string)
        (server : nat -> string -> outcome).

Local Abbreviation fetch := (fetch_page config server).
Local Abbreviation links_from := (extract_links_from url_filter).
Local Abbreviation links_of := (extract_links url_filter soup_hrefs).
Local Abbreviation step_of := (step config url_filter soup_hrefs server).
Local Abbreviation run_of := (run config url_filter soup_hrefs server).
Local Abbreviation category := (crawl_category config url_filter soup_hrefs server).

Lemma category_urls_of_spec links :
  Forall (fun link => should_crawl link = Ok true) links ->
  exists urls,
    category_urls_of links = Ok urls
    /\ Forall (fun url => url ∈ links /\ category_info_or_limit url) urls.
Proof.
  induction links as [|link rest IH]; intros Hall.
  - exists []. split; [reflexivity|constructor].
  - inversion Hall as [|? ? Hlink Hrest]; subst.
    destruct (IH Hrest) as (urls & Hurls & Hvalid).
    assert (Hvalid' : Forall (fun url =>
                        url ∈ link :: rest /\ category_info_or_limit url) urls).
    { eapply Forall_impl; [exact Hvalid|]. intros u [Hin Hinfo].
      split; [now apply list_elem_of_further|exact Hinfo]. }
    cbn [category_urls_of]. unfold should_crawl in Hlink.
    destruct (classify_url link) as [t|e] eqn:Hcl; [|discriminate Hlink].
    cbn [mbind result_bind]. rewrite Hurls. cbn [mbind result_bind].
    destruct (bool_decide_reflect (t ∈ [CATEGORY; SUBCATEGORY])) as [Hin|Hout].
    + exists (link :: urls). split; [reflexivity|]. constructor; [|exact Hvalid'].
      split; [apply list_elem_of_here|]. apply classified_category_info.
      apply elem_of_cons in Hin as [->|Hin]; [now left|].
      apply list_elem_of_singleton in Hin as ->. now right.
    + exists urls. split; [reflexivity|exact Hvalid'].
Qed.

(** X27: the category URLs that [crawl_all_categories] keeps from the links
    of the home page never make the classifier raise, and every one of them
    has the category shape: at the start of [crawl_category],
    [extract_category_info] never answers [None] for it; it returns the
    categories, unless the page number has more than 4300 digits, where the
    conversion raises. *)
Theorem category_urls_valid html base links :
  extract_links url_filter soup_hrefs html base = Ok links ->
  exists urls,
    category_urls_of links = Ok urls
    /\ Forall (fun url => url ∈ links /\ category_info_or_limit url) urls.
Proof.
  intros H. apply category_urls_of_spec.
  apply extract_links_from_spec in H as (new & -> & _ & Hall).
  eapply Forall_impl; [exact Hall|]. now intros l [Hc _].
Qed.

Lemma extract_links_from_raises hrefs base acc href :
  href ∈ hrefs ->
  raises (Urllib.urljoin base href) ->
  raises (links_from hrefs base acc).
Proof.
  revert acc. induction hrefs as [|h rest IH]; intros acc Hin Hraise.
  - now apply elem_of_nil in Hin.
  - cbn [extract_links_from].
    destruct (Urllib.urljoin base h) as [absolute_url|e] eqn:Hjoin;
      [|exists e; reflexivity].
    cbn [mbind result_bind].
    destruct (normalize_url url_filter absolute_url) as [normalized|e];
      [|exists e; reflexivity].
    cbn [mbind result_bind].
    destruct (should_crawl normalized) as [crawl|e]; [|exists e; reflexivity].
    cbn [mbind result_bind].
    apply elem_of_cons in Hin as [->|Hin]; [|now apply IH].
    destruct Hraise as [e He]. rewrite Hjoin in He. discriminate He.
Qed.

(** X28: one malformed link aborts the traversal.  When the first page of
    the category is served with a text that holds an [href] on which
    [urljoin] raises, [crawl_category] ends with that exception after its
    first fetch; the page stays in the visited set. *)
Theorem malformed_link_aborts
    fuel category_url max_pages st categories n html url_type href :
  let page_1 := page_url config (Str.join "/" categories) 1 in
  extract_category_info category_url = Ok (Some (categories, n)) ->
  match max_pages with Some m => (1 <= m)%Z | None => True end ->
  page_1 ∉ visited_urls st ->
  (1 <= MAX_RETRIES config)%Z ->
  server (requests st) page_1 = Response 200 html ->
  html <> "" ->
  classify_url page_1 = Ok url_type ->
  url_type <> PRODUCT ->
  href ∈ soup_hrefs html ->
  raises (Urllib.urljoin page_1 href) ->
  3 <= fuel ->
  exists e st',
    crawl_category config url_filter soup_hrefs server fuel category_url max_pages st
    = (Throws e, st')
    /\ page_1 ∈ visited_urls st'
    /\ product_urls st' = product_urls st.
Proof.
  intros page_1 Hinfo Hmax Hnew Hretries Hreply Hhtml Hcl Htype Hhref Hraise Hfuel.
  unfold crawl_category.
  destruct fuel as [|[|[|fuel]]]; try lia.
  cbn [run finished step]. rewrite Hinfo.
  cbn [finished step urls_to_visit]. fold page_1.
  assert (Hwithin : within (mkFrame (Str.join "/" categories) 1 [page_1] max_pages) = true).
  { unfold within. simpl.
    destruct max_pages as [m|]; [now apply Z.leb_le|reflexivity]. }
  rewrite Hwithin.
  unfold crawl_page_enter, visited. rewrite bool_decide_eq_false_2 by exact Hnew.
  cbn [finished step].
  set (st1 := emit [Log INFO (Crawling page_1)] (visit page_1 st)).
  destruct (fetch_attempts_success config server (Z.to_nat (MAX_RETRIES config)) 0%Z
              page_1 (emit [FetchPage page_1] st1) 0 html) as (st2 & Hfetch & _).
  { lia. } { reflexivity. } { cbn. now rewrite Nat.add_0_r. }
  pose proof (fetch_page_frame config server page_1 st1) as (evs & _ & Hv & Hp & _).
  unfold fetch_page in *. rewrite Hfetch in *. cbn [fst snd] in *.
  unfold crawl_page_resume.
  destruct html as [|c text]; [now elim Hhtml|].
  rewrite Hcl. rewrite bool_decide_eq_false_2 by exact Htype.
  destruct (extract_links_from_raises (soup_hrefs (String c text)) page_1 [] href Hhref Hraise)
    as [e He].
  unfold extract_links. rewrite He.
  rewrite run_finished by reflexivity. cbn [completed].
  exists e, st2. split; [reflexivity|]. split.
  - rewrite Hv. subst st1. cbn. apply elem_of_union_l, elem_of_singleton. reflexivity.
  - rewrite Hp. reflexivity.
Qed.

(** X29: [crawl_category] looks only at the categories that
    [extract_category_info] returns for the URL it is given: two URLs for
    which it returns the same categories start the same traversal, from
    page 1 under [BASE_URL], whatever page numbers it returns for them and
    whatever their hosts.  (A page number of more than 4300 digits makes
    [extract_category_info] raise; such URLs are the subject of X30.) *)
Theorem crawl_category_same_start
    fuel category_url category_url' max_pages st categories n n' :
  extract_category_info category_url = Ok (Some (categories, n)) ->
  extract_category_info category_url' = Ok (Some (categories, n')) ->
  crawl_category config url_filter soup_hrefs server fuel category_url max_pages st
  = crawl_category config url_filter soup_hrefs server fuel category_url' max_pages st.
Proof.
  intros H H'. unfold crawl_category.
  destruct fuel as [|fuel]; [reflexivity|].
  cbn [run finished step]. now rewrite H, H'.
Qed.

(** X30: the page number of the URL that [crawl_category] is given is
    converted by [int] although it is not used.  On a URL whose path has
    the category shape with a page number of more than 4300 digits the call
    ends at once with the [ValueError] of the conversion: no page is
    fetched, no URL is marked visited and nothing is logged. *)
Theorem page_number_limit_aborts fuel category_url max_pages st parsed slug page_num :
  Urllib.urlparse category_url = Ok parsed ->
  Re.category_pattern (Urllib.path parsed) = Some (slug, page_num) ->
  (Str.max_str_digits < Z.of_nat (String.length page_num))%Z ->
  crawl_category config url_filter soup_hrefs server (S fuel) category_url max_pages st
  = (Throws (ValueError (Str.int_limit_message page_num)), st).
Proof.
  intros Hparse Hpat Hlen. unfold crawl_category.
  assert (Hinfo : extract_category_info category_url
                  = Raise (ValueError (Str.int_limit_message page_num))).
  { rewrite (FilterFacts.extract_category_info_pattern _ _ Hparse), Hpat.
    unfold Str.int. apply Z.ltb_lt in Hlen. now rewrite Hlen. }
  cbn [run finished step]. rewrite Hinfo.
  now destruct fuel.
Qed.

End Links.

(** ** Instances on the concrete sites *)

Lemma extract_links_kept_witness :
  length ["https://www.ouedkniss.com/informatique/1"]
  <= length (Sites.anchors "<a href='/informatique/1'>Informatique</a>")
  /\ Forall (fun link =>
               should_crawl link = Ok true
               /\ exists href absolute_url,
                    href ∈ Sites.anchors "<a href='/informatique/1'>Informatique</a>"
                    /\ Urllib.urljoin Sites.home href = Ok absolute_url
                    /\ normalize_url default_filter absolute_url = Ok link)
            ["https://www.ouedkniss.com/informatique/1"].
Proof.
  apply (extract_links_kept default_filter Sites.anchors
           "<a href='/informatique/1'>Informatique</a>" Sites.home
           ["https://www.ouedkniss.com/informatique/1"]).
  vm_compute. reflexivity.
Defined.

Lemma crawl_page_effects_witness :
  let out := crawl_page default_config default_filter Sites.anchors
               Sites.site_with_home_link Sites.home fresh in
  visited_urls out.2 = {[Sites.home]} ∪ visited_urls fresh
  /\ (exists evs, trace out.2 = (trace fresh ++ evs)%list /\ fetched evs = [Sites.home])
  /\ (product_urls out.2 = product_urls fresh
      \/ (product_urls out.2 = {[Sites.home]} ∪ product_urls fresh
          /\ classify_url Sites.home = Ok PRODUCT /\ out.1 = Ok []))
  /\ (forall links, out.1 = Ok links ->
        Forall (fun link => (link ∉ visited_urls out.2) /\ should_crawl link = Ok true)
               links).
Proof.
  apply (crawl_page_effects default_config default_filter Sites.anchors
           Sites.site_with_home_link Sites.home fresh).
  apply not_elem_of_empty.
Defined.

Lemma crawl_category_sets_witness :
  let out := crawl_category default_config default_filter Sites.anchors
               Sites.site_with_two_categories 10 Sites.telephones_1 None fresh in
  grown fresh out.2 /\ product_urls out.2 ⊆ visited_urls out.2.
Proof.
  apply (crawl_category_sets default_config default_filter Sites.anchors
           Sites.site_with_two_categories 10 Sites.telephones_1 None fresh).
  apply empty_subseteq.
Defined.

Lemma crawl_all_categories_sets_witness :
  let out := crawl_all_categories default_config default_filter Sites.anchors
               Sites.site_with_home_link [0; 0; 0; 0; 0; 0] fresh in
  grown fresh out.2 /\ product_urls out.2 ⊆ visited_urls out.2.
Proof.
  apply (crawl_all_categories_sets default_config default_filter Sites.anchors
           Sites.site_with_home_link [0; 0; 0; 0; 0; 0] fresh).
  apply empty_subseteq.
Defined.

Lemma crawl_category_returns_all_witness :
  let out := crawl_category default_config default_filter Sites.anchors
               Sites.site_with_two_categories 10 Sites.telephones_1 (Some 2%Z) fresh in
  product_urls fresh ⊆ product_urls out.2
  /\ forall products, out.1 = Returns products -> products = product_urls out.2.
Proof.
  apply (crawl_category_returns_all default_config default_filter Sites.anchors
           Sites.site_with_two_categories 10 Sites.telephones_1 (Some 2%Z) fresh
           ["telephones"] 1).
  reflexivity.
Defined.

Lemma not_found_then_found_witness :
  (fetch_page default_config Sites.late_server Sites.samsung fresh).1 = None
  /\ requests (fetch_page default_config Sites.late_server Sites.samsung fresh).2
     = S (requests fresh)
  /\ (BaseScraper.fetch_page default_config Sites.late_server Sites.samsung
        (BaseScraper.mkSession 0 [])).1
     = Some "<h1>Samsung Galaxy</h1>".
Proof.
  apply (not_found_then_found default_config Sites.late_server Sites.samsung
           fresh (BaseScraper.mkSession 0 []) "Not Found" "<h1>Samsung Galaxy</h1>");
    [simpl; lia | reflexivity | reflexivity | reflexivity].
Defined.

Lemma category_urls_valid_witness :
  exists urls,
    category_urls_of ["https://www.ouedkniss.com/informatique/1"] = Ok urls
    /\ Forall (fun url =>
                 url ∈ ["https://www.ouedkniss.com/informatique/1"]
                 /\ category_info_or_limit url) urls.
Proof.
  apply (category_urls_valid default_filter Sites.anchors
           "<a href='/informatique/1'>Informatique</a>" Sites.home
           ["https://www.ouedkniss.com/informatique/1"]).
  vm_compute. reflexivity.
Defined.

Lemma crawl_category_page_cap_witness :
  let out := crawl_category default_config default_filter Sites.anchors
               Sites.site_with_two_categories 6 Sites.telephones_1 (Some 2%Z) fresh in
  over out.1 = true
  /\ exists evs,
       trace out.2 = (trace fresh ++ evs)%list
       /\ length (fetched evs) <= Z.to_nat 2.
Proof.
  apply (crawl_category_page_cap default_config default_filter Sites.anchors
           Sites.site_with_two_categories 6 Sites.telephones_1 2 fresh).
  simpl. lia.
Defined.

Lemma malformed_link_aborts_witness :
  exists e st',
    crawl_category default_config default_filter Sites.anchors Sites.site_with_bad_link
      3 Sites.informatique_1 None fresh = (Throws e, st')
    /\ page_url default_config (Str.join "/" ["informatique"]) 1 ∈ visited_urls st'
    /\ product_urls st' = product_urls fresh.
Proof.
  apply (malformed_link_aborts default_config default_filter Sites.anchors
           Sites.site_with_bad_link 3 Sites.informatique_1 None fresh
           ["informatique"] 1 "<a href='http://['>Annonce</a>" CATEGORY "http://[").
  - reflexivity.
  - exact I.
  - apply not_elem_of_empty.
  - simpl. lia.
  - reflexivity.
  - discriminate.
  - reflexivity.
  - discriminate.
  - vm_compute. apply list_elem_of_here.
  - exists (ValueError "Invalid IPv6 URL"). vm_compute. reflexivity.
  - lia.
Defined.

Lemma crawl_category_same_start_witness :
  crawl_category default_config default_filter Sites.anchors Sites.site_with_home_link
    10 "https://www.ouedkniss.com/informatique/7" None fresh
  = crawl_category default_config default_filter Sites.anchors Sites.site_with_home_link
      10 "http://example.org/informatique/1" None fresh.
Proof.
  apply (crawl_category_same_start default_config default_filter Sites.anchors
           Sites.site_with_home_link 10
           "https://www.ouedkniss.com/informatique/7" "http://example.org/informatique/1"
           None fresh ["informatique"] 7 1);
    reflexivity.
Defined.

Lemma page_number_limit_aborts_witness :
  crawl_category default_config default_filter Sites.anchors Sites.site_with_home_link
    1 Sites.informatique_far None fresh
  = (Throws (ValueError (Str.int_limit_message (Sites.ones 4301))), fresh).
Proof.
  eapply (page_number_limit_aborts default_config default_filter Sites.anchors
            Sites.site_with_home_link 0 Sites.informatique_far None fresh
            _ "informatique" (Sites.ones 4301)).
  - vm_compute. reflexivity.
  - vm_compute. reflexivity.
  - vm_compute. reflexivity.
Defined.
